(** * tspa: the repository adapters and the entity lifecycle they share

    A shallow embedding of [entity-utils.ts], [common-utils.ts] (the part the
    adapters call), [LocalStorageCrudRepository.ts], [MongoCrudRepository.ts]
    and [FirestoreCrudRepository.ts].

    Conventions of the embedding.
    - A JavaScript number is a [Z]: versions and millisecond timestamps are
      integers far below 2^53, where [+ 1] on doubles is exact.
    - An entity is a record of the six optional [Entity] attributes plus a
      finite map for the attributes of the extending type ([name], [email],
      ...).  [None] is an absent key; a [Partial<T>] is the same record.
    - A JavaScript string is the [string] of its UTF-8 bytes: equality,
      concatenation and the search for an ASCII character are the same on
      both, and white space is recognised byte sequence by byte sequence.
    - Exceptions are kept by class; their message strings are dropped.
    - [Date.now()] and the id generators read from an oracle carried by the
      world, one reading per call, so two consecutive readings may differ.
    - Objects the caller owns and the adapter mutates in place (the payload
      of [create] and [createAll]) live in [heap] and are passed by
      reference; everything the adapter builds itself is a plain value.
    - The database drivers (mongoose, firebase) are outside the repository:
      their collections are modelled by their documented data behaviour;
      network failures, schema validation, [sortBy] and [offset] are not. *)

From Stdlib Require Import ZArith String Ascii List Bool Lia Sorted Permutation.
From stdpp Require Import base option list strings gmap.

Local Open Scope string_scope.

(** ** Values and entities *)

Inductive value :=
| VStr (s : string)
| VNum (n : Z)
| VBool (b : bool).

#[global] Instance value_eq_dec : EqDecision value.
Proof. solve_decision. Defined.

Record Entity := mkEntity {
  id : option string;
  deleted : option bool;
  dateCreated : option Z;
  dateUpdated : option Z;
  dateDeleted : option Z;
  version : option Z;
  fields : gmap string value
}.

#[global] Instance Entity_eq_dec : EqDecision Entity.
Proof. solve_decision. Defined.

(** The object literal [{}]. *)
Definition emptyEntity : Entity :=
  mkEntity None None None None None None ∅.

(** [item[key]] for a string key. *)
Definition getField (key : string) (item : Entity) : option value :=
  if decide (key = "id") then VStr <$> id item
  else if decide (key = "deleted") then VBool <$> deleted item
  else if decide (key = "dateCreated") then VNum <$> dateCreated item
  else if decide (key = "dateUpdated") then VNum <$> dateUpdated item
  else if decide (key = "dateDeleted") then VNum <$> dateDeleted item
  else if decide (key = "version") then VNum <$> version item
  else fields item !! key.

(** [a ?? b] on an optional attribute. *)
Definition orElse {A} (a b : option A) : option A :=
  match a with Some _ => a | None => b end.

(** Object spread [{ ...record, ...payload }]: the keys of [payload] win. *)
Definition spread (record payload : Entity) : Entity :=
  {| id := orElse (id payload) (id record);
     deleted := orElse (deleted payload) (deleted record);
     dateCreated := orElse (dateCreated payload) (dateCreated record);
     dateUpdated := orElse (dateUpdated payload) (dateUpdated record);
     dateDeleted := orElse (dateDeleted payload) (dateDeleted record);
     version := orElse (version payload) (version record);
     fields := fields payload ∪ fields record |}.

Definition with_id (i : string) (e : Entity) : Entity :=
  {| id := Some i; deleted := deleted e; dateCreated := dateCreated e;
     dateUpdated := dateUpdated e; dateDeleted := dateDeleted e;
     version := version e; fields := fields e |}.

(** [`${id}`], and [id!] used as a key, at an id that may be [undefined]. *)
Definition str (i : option string) : string :=
  match i with
  | Some s => s
  | None => "undefined"
  end.

(** A filter [{ field: value, ... }] in key order. *)
Abbreviation Filter := (list (string * value)).

(** ** Objects used as maps

    A JavaScript object with string keys, none of them integer-like, lists
    its keys in insertion order: an association list with one entry per
    key. *)

(** [map[key]] *)
Fixpoint map_get {A} (key : string) (map : list (string * A)) : option A :=
  match map with
  | [] => None
  | (k, x) :: rest => if decide (k = key) then Some x else map_get key rest
  end.

(** [map[key] = item] *)
Fixpoint map_set {A} (key : string) (item : A) (map : list (string * A))
  : list (string * A) :=
  match map with
  | [] => [(key, item)]
  | (k, x) :: rest =>
      if decide (k = key) then (k, item) :: rest
      else (k, x) :: map_set key item rest
  end.

(** [delete map[key]] *)
Fixpoint map_delete {A} (key : string) (map : list (string * A))
  : list (string * A) :=
  match map with
  | [] => []
  | (k, x) :: rest =>
      if decide (k = key) then map_delete key rest
      else (k, x) :: map_delete key rest
  end.

(** ** Query options (core.ts) *)

Inductive LogicalOperator := AND | OR | NOR.
Inductive Locking := pessimistic | optimistic.

Record RemovalOptions := { softDelete : option bool }.

Record QueryOptions := {
  logicalOperator : option LogicalOperator;
  deletionOptions : option RemovalOptions;
  limit : option nat;
  locking : option Locking
}.

#[global] Instance LogicalOperator_eq_dec : EqDecision LogicalOperator.
Proof. solve_decision. Defined.
#[global] Instance Locking_eq_dec : EqDecision Locking.
Proof. solve_decision. Defined.

(** The default of [remove]'s second parameter. *)
Definition defaultRemoval : QueryOptions :=
  {| logicalOperator := None;
     deletionOptions := Some {| softDelete := Some true |};
     limit := None; locking := None |}.

(** [queryOptions.deletionOptions?.softDelete] as a condition. *)
Definition wantsSoftDelete (queryOptions : QueryOptions) : bool :=
  match deletionOptions queryOptions with
  | Some d => default false (softDelete d)
  | None => false
  end.

(** [queryOptions?.locking === 'optimistic'] *)
Definition is_optimistic (queryOptions : option QueryOptions) : bool :=
  match queryOptions with
  | Some o => bool_decide (locking o = Some optimistic)
  | None => false
  end.

(** ** Exceptions and the state-and-exception monad *)

Inductive error :=
| InvalidRequestException
| DuplicateRecordException
| RecordNotFoundException
| OptimisticLockException
| InternalServerException
| ConfigurationException
| SyntaxError      (* thrown by JSON.parse *)
| DriverError.     (* raised by the database driver *)

Inductive Result (A : Type) :=
| Ok (a : A)
| Err (e : error).
Arguments Ok {A} a.
Arguments Err {A} e.

Definition M (W A : Type) : Type := W -> Result A * W.

Definition ret {W A} (a : A) : M W A := fun w => (Ok a, w).
Definition throw {W A} (e : error) : M W A := fun w => (Err e, w).
Definition bind {W A B} (m : M W A) (k : A -> M W B) : M W B :=
  fun w => match m w with
           | (Ok a, w') => k a w'
           | (Err e, w') => (Err e, w')
           end.

Notation "x <- m ;; k" := (bind m (fun x => k))
  (at level 100, m at next level, right associativity).

Fixpoint mapM {W A B} (f : A -> M W B) (l : list A) : M W (list B) :=
  match l with
  | [] => ret []
  | x :: l' => y <- f x ;; ys <- mapM f l' ;; ret (y :: ys)
  end.

Fixpoint filterM {W A} (f : A -> M W bool) (l : list A) : M W (list A) :=
  match l with
  | [] => ret []
  | x :: l' =>
      b <- f x ;; ys <- filterM f l' ;; ret (if b then x :: ys else ys)
  end.

(** Running a computation to its settled promise: a rejection becomes a
    value, the effects made so far stay. *)
Definition settle {W A} (m : M W A) : M W (Result A) :=
  fun w => let '(r, w') := m w in (Ok r, w').

(** The oracles of the runtime: the clock behind [Date.now()], the id
    generator, and which strings [JSON.parse] accepts. *)
Record Env := {
  clock : nat -> Z;
  uuid : nat -> string;
  json_parses : string -> bool
}.

Record World (S : Type) := mkWorld {
  store : S;               (* the backend collection *)
  heap : list Entity;      (* caller-owned objects, addressed by index *)
  tick : nat;              (* clock readings taken so far *)
  nid : nat;               (* ids generated so far *)
  env : Env
}.
Arguments mkWorld {S}.
Arguments store {S}.
Arguments heap {S}.
Arguments tick {S}.
Arguments nid {S}.
Arguments env {S}.

Definition ref := nat.

Section World.
Context {S : Type}.
Local Abbreviation W := (World S).

Definition set_store (s : S) (w : W) : W :=
  mkWorld s (heap w) (tick w) (nid w) (env w).

(** [Date.now()] *)
Definition now : M W Z := fun w =>
  (Ok (clock (env w) (tick w)),
   mkWorld (store w) (heap w) (Datatypes.S (tick w)) (nid w) (env w)).

Definition getStore : M W S := fun w => (Ok (store w), w).
Definition putStore (s : S) : M W unit := fun w => (Ok tt, set_store s w).

(** Reading and assigning a caller-owned object. *)
Definition deref (r : ref) : M W Entity := fun w =>
  (Ok (default emptyEntity (heap w !! r)), w).
Definition assign (r : ref) (e : Entity) : M W unit := fun w =>
  (Ok tt, mkWorld (store w) (<[r := e]> (heap w)) (tick w) (nid w) (env w)).
End World.

(** ** common-utils.ts *)
Module commonUtils.

(** White space as [String.prototype.trim] strips it: the WhiteSpace and
    LineTerminator code points of ECMAScript, in the UTF-8 bytes a string is
    held in.  One byte: U+0009 to U+000D and U+0020. *)
Definition is_space (c : ascii) : bool :=
  let n := nat_of_ascii c in
  (Nat.eqb n 32 || (Nat.leb 9 n && Nat.leb n 13))%bool.

(** Two bytes: U+00A0, the no-break space (C2 A0). *)
Definition is_space2 (c1 c2 : ascii) : bool :=
  (Nat.eqb (nat_of_ascii c1) 194 && Nat.eqb (nat_of_ascii c2) 160)%bool.

(** Three bytes: U+1680 (E1 9A 80); U+2000 to U+200A, U+2028, U+2029 and
    U+202F (E2 80 80-8A, A8, A9, AF); U+205F (E2 81 9F); U+3000 (E3 80 80);
    U+FEFF (EF BB BF). *)
Definition is_space3 (c1 c2 c3 : ascii) : bool :=
  let n1 := nat_of_ascii c1 in
  let n2 := nat_of_ascii c2 in
  let n3 := nat_of_ascii c3 in
  (Nat.eqb n1 225 && Nat.eqb n2 154 && Nat.eqb n3 128
   || Nat.eqb n1 226 && Nat.eqb n2 128
      && (Nat.leb 128 n3 && Nat.leb n3 138
          || Nat.eqb n3 168 || Nat.eqb n3 169 || Nat.eqb n3 175)
   || Nat.eqb n1 226 && Nat.eqb n2 129 && Nat.eqb n3 159
   || Nat.eqb n1 227 && Nat.eqb n2 128 && Nat.eqb n3 128
   || Nat.eqb n1 239 && Nat.eqb n2 187 && Nat.eqb n3 191)%bool.

(** [s.trim().length === 0] *)
Fixpoint all_space (s : string) : bool :=
  match s with
  | EmptyString => true
  | String c1 s1 =>
      if is_space c1 then all_space s1
      else match s1 with
           | EmptyString => false
           | String c2 s2 =>
               if is_space2 c1 c2 then all_space s2
               else match s2 with
                    | EmptyString => false
                    | String c3 s3 => is_space3 c1 c2 c3 && all_space s3
                    end
           end
  end.

Fixpoint has_brace (s : string) : bool :=
  match s with
  | EmptyString => false
  | String c s' =>
      (Ascii.eqb c "{"%char || Ascii.eqb c "}"%char || has_brace s')%bool
  end.

(** [isEmpty(arg)] at a number or [undefined]. *)
Definition isEmpty_number (arg : option Z) : bool :=
  match arg with
  | None => true
  | Some n => Z.eqb n 0
  end.

(** [isEmpty(arg)] at a string or [undefined].  A string without braces is
    empty when it trims to nothing.  A string with a brace goes through
    [JSON.parse]: that throws on text that is not JSON, and every JSON
    text that holds a brace makes the function answer [false]. *)
Definition isEmpty_string {S} (arg : option string) : M (World S) bool :=
  fun w =>
    match arg with
    | None => (Ok true, w)
    | Some s =>
        if has_brace s
        then if json_parses (env w) s then (Ok false, w)
             else (Err SyntaxError, w)
        else (Ok (all_space s), w)
    end.

(** [isAnyEmpty(x)] with one argument. *)
Definition isAnyEmpty_number (arg : option Z) : bool := isEmpty_number arg.

(** [generate()]: the next identifier of the generator. *)
Definition generate {S} : M (World S) string := fun w =>
  (Ok (uuid (env w) (nid w)),
   mkWorld (store w) (heap w) (tick w) (Datatypes.S (nid w)) (env w)).

End commonUtils.

(** ** Objects.ts *)
Module Objects.
Definition requireTrue {W} (args : bool) (e : error) : M W unit :=
  if args then ret tt else throw e.
End Objects.

(** ** entity-utils.ts *)
Module entityUtils.
Import commonUtils.

Definition getNextVersion (version : option Z) : Z :=
  match version with
  | None => 1
  | Some v => v + 1
  end.

(** [updatePayload(payload)], returning the stamped object. *)
Definition updatePayload {S} (payload : Entity) : M (World S) Entity :=
  let v := getNextVersion (version payload) in
  created <- (if isAnyEmpty_number (dateCreated payload)
              then t <- now ;; ret (Some t)
              else ret (dateCreated payload)) ;;
  updated <- now ;;
  ret {| id := id payload;
         deleted := Some (default false (deleted payload));
         dateCreated := created;
         dateUpdated := Some updated;
         dateDeleted := dateDeleted payload;
         version := Some v;
         fields := fields payload |}.

(** [markAsDeleted(payload)] *)
Definition markAsDeleted {S} (payload : Entity) : M (World S) Entity :=
  t <- now ;;
  ret {| id := id payload;
         deleted := Some true;
         dateCreated := dateCreated payload;
         dateUpdated := dateUpdated payload;
         dateDeleted := Some t;
         version := version payload;
         fields := fields payload |}.

(** The same two on an object of the caller, in place. *)
Definition updatePayload_at {S} (r : ref) : M (World S) unit :=
  p <- deref r ;; p' <- updatePayload p ;; assign r p'.

(** [map[key] = item] on the object literal that [unique] fills: the key
    ["__proto__"] reaches the prototype setter and adds no own property. *)
Definition map_assign {A} (key : string) (item : A)
    (map : list (string * A)) : list (string * A) :=
  if decide (key = "__proto__") then map else map_set key item map.

(** [getKey('id', item)] *)
Definition getKey {S} (item : Entity) : M (World S) string :=
  match id item with
  | Some s => if decide (s = "") then generate else ret s
  | None => generate
  end.

Fixpoint unique_loop {S} (items : list Entity) (map : list (string * Entity))
  : M (World S) (list (string * Entity)) :=
  match items with
  | [] => ret map
  | item :: rest =>
      key <- getKey item ;;
      unique_loop rest (map_assign key item map)
  end.

(** [unique(list, ['id'])], the only way the adapters call it.  The result
    is listed in insertion order; [Object.values] moves integer-like keys
    to the front, which the one caller, taking the length, cannot see. *)
Definition unique {S} (items : list Entity) : M (World S) (list Entity) :=
  match items with
  | [] => ret items
  | _ => map <- unique_loop items [] ;; ret (snd <$> map)
  end.

(** [checkForDuplicates(payload, ['id'])] *)
Definition checkForDuplicates {S} (payload : list Entity)
  : M (World S) unit :=
  uniquePayload <- unique payload ;;
  Objects.requireTrue
    (Nat.eqb (length uniquePayload) (length payload))
    InvalidRequestException.

End entityUtils.

(** ** LocalStorageCrudRepository.ts

    The storage item under [storageKey] is kept as the object it parses to:
    [None] is a missing item or the empty string, and what
    [JSON.stringify] writes always parses back to the same object.  A key
    of that object ends in [":false"] or [":true"], so the keys enumerate
    in insertion order. *)
Module LocalStorageCrudRepository.
Import commonUtils entityUtils.

Abbreviation Object := (list (string * Entity)).
Abbreviation Storage := (option (list (string * Entity))).
Local Abbreviation W := (World Storage).

Definition getActiveKey (i : string) : string := i ++ ":false".
Definition getInactiveKey (i : string) : string := i ++ ":true".

Definition createId : M W string := generate.

Definition findById (i : string) : M W (option Entity) :=
  jsonString <- getStore ;;
  match jsonString with
  | None => ret None
  | Some jsonValue => ret (map_get (getActiveKey i) jsonValue)
  end.

(** [item.deleted] as a condition. *)
Definition truthy (b : option bool) : bool := default false b.

Definition findAll (filter : option Filter)
    (queryOptions : option QueryOptions) : M W (list Entity) :=
  let filter := default [] filter in
  jsonString <- getStore ;;
  match jsonString with
  | None => ret []
  | Some jsonValue =>
      ret (flat_map (fun '(key, value) =>
             flat_map (fun '(recordKey, item) =>
               if truthy (deleted item) then []
               else if decide (getField key item = Some value) then [item]
               else []) jsonValue) filter)
  end.

Definition checkDuplicateId (i : string) : M W string :=
  found <- findById i ;;
  match found with
  | Some _ => throw DuplicateRecordException
  | None => ret i
  end.

Definition getId (payload : Entity) : M W string :=
  empty <- isEmpty_string (id payload) ;;
  if (empty : bool) then createId else checkDuplicateId (str (id payload)).

(** [create] from the statement after [await this.getId(payload)]. *)
Definition create_resume (payload : ref) (i : string) : M W Entity :=
  jsonString <- getStore ;;
  let object := default [] jsonString in
  _ <- updatePayload_at payload ;;
  p <- deref payload ;;
  let item := with_id i p in
  let activeKey := getActiveKey i in
  _ <- putStore (Some (map_set activeKey item object)) ;;
  ret item.

Definition create (payload : ref) : M W Entity :=
  p <- deref payload ;;
  i <- getId p ;;
  create_resume payload i.

(** One pass over the started creates: those whose [getId] took the
    branch [idless] resume and write, the others are left alone. *)
Fixpoint resume_pass (idless : bool)
    (started : list (ref * bool * Result string))
  : M W (list (option Entity)) :=
  match started with
  | [] => ret []
  | (r, b, Ok i) :: rest =>
      if Bool.eqb b idless
      then item <- create_resume r i ;;
           items <- resume_pass idless rest ;;
           ret (Some item :: items)
      else items <- resume_pass idless rest ;; ret (None :: items)
  | (_, _, Err _) :: rest =>
      items <- resume_pass idless rest ;; ret (None :: items)
  end.

Definition first_rejection (started : list (ref * bool * Result string))
  : option error :=
  head (omap (fun x => match snd x with Err e => Some e | Ok _ => None end)
             started).

(** [createAll].  Every [create] is started in turn and runs up to its
    [await this.getId]: the lookups all happen before the first write.
    The continuations then run in the order of the promise jobs, the
    entries that got a fresh id ahead of those that awaited a lookup;
    a rejected entry does not stop the others from writing. *)
Definition createAll (payload : list ref) : M W (list Entity) :=
  match payload with
  | [] => ret []
  | _ =>
      entities <- mapM deref payload ;;
      entitiesWithIds <-
        filterM (fun e => b <- isEmpty_string (id e) ;; ret (negb b))
                entities ;;
      _ <- checkForDuplicates entitiesWithIds ;;
      started <- mapM (fun r =>
                   p <- deref r ;;
                   b <- isEmpty_string (id p) ;;
                   res <- settle (getId p) ;;
                   ret (r, b, res)) payload ;;
      fresh <- resume_pass true started ;;
      given <- resume_pass false started ;;
      match first_rejection started with
      | Some e => throw e
      | None =>
          ret (omap (fun x => orElse (fst x) (snd x)) (zip fresh given))
      end
  end.

(** [findExpectedRecord(key)]: the parsed object together with
    [object[key]], which the callers read next. *)
Definition findExpectedRecord (key : string) : M W (Object * Entity) :=
  jsonString <- getStore ;;
  match jsonString with
  | None => throw RecordNotFoundException
  | Some object =>
      match map_get key object with
      | None => throw RecordNotFoundException
      | Some record => ret (object, record)
      end
  end.

Definition performUpdate (payload : Entity) (object : Object) : M W bool :=
  payload <- updatePayload payload ;;
  let activeKey := getActiveKey (str (id payload)) in
  _ <- putStore (Some (map_set activeKey payload object)) ;;
  ret true.

Definition update (i : string) (payload : Entity)
    (queryOptions : option QueryOptions) : M W bool :=
  let activeKey := getActiveKey i in
  found <- findExpectedRecord activeKey ;;
  let '(object, record) := found in
  if is_optimistic queryOptions
     && negb (bool_decide (version record = version payload))
  then throw OptimisticLockException
  else performUpdate (spread record payload) object.

(** [softDelete(record, object)].  [record] is not a copy: it is the entry
    [object[recordKey]] that [remove] read, and [markAsDeleted] and
    [updatePayload] write to that entry.  When the key the record's own id
    gives is another one, the [delete] leaves the entry in place and the
    object that is stored holds the marked record there as well. *)
Definition softDelete (recordKey : string) (record : Entity)
    (object : Object) : M W bool :=
  let object := map_delete (getActiveKey (str (id record))) object in
  record <- markAsDeleted record ;;
  record <- updatePayload record ;;
  let object := match map_get recordKey object with
                | Some _ => map_set recordKey record object
                | None => object
                end in
  _ <- putStore
         (Some (map_set (getInactiveKey (str (id record))) record object)) ;;
  ret true.

Definition hardDelete (key : string) (object : Object) : M W bool :=
  _ <- putStore (Some (map_delete key object)) ;;
  ret true.

Definition remove (i : string) (queryOptions : option QueryOptions)
  : M W bool :=
  let queryOptions := default defaultRemoval queryOptions in
  let activeKey := getActiveKey i in
  found <- findExpectedRecord activeKey ;;
  let '(object, record) := found in
  if wantsSoftDelete queryOptions then softDelete activeKey record object
  else hardDelete activeKey object.

(** [Object.keys(item)] of a stored record: the attributes it carries. *)
Definition ownKeys (item : Entity) : list string :=
  List.filter (fun key => bool_decide (is_Some (getField key item)))
    (["id"; "deleted"; "dateCreated"; "dateUpdated"; "dateDeleted"; "version"]
       ++ (map_to_list (fields item)).*1)%list.

(** [findOneBy]: the scan assigns [result] at every record that is not
    deleted and has an attribute equal to the filter's at the same key. *)
Definition findOneBy (filter : Filter) (queryOptions : option QueryOptions)
  : M W (option Entity) :=
  jsonString <- getStore ;;
  match jsonString with
  | None => ret None
  | Some jsonValue =>
      ret (fold_left
             (fun result '(recordKey, item) =>
                if truthy (deleted item) then result
                else if existsb
                          (fun key => bool_decide (getField key item
                                                   = map_get key filter))
                          (ownKeys item)
                     then Some item
                     else result)
             jsonValue None)
  end.

End LocalStorageCrudRepository.

(** ** Ordering of query results

    A stable sort by a comparator [le x y] ("x may stand before y"), the
    contract of [Array.prototype.sort] and of the drivers' [sort] and
    [orderBy] up to the order of ties. *)
Section Sorting.
Context {A : Type} (le : A -> A -> bool).

Fixpoint insert_sorted (x : A) (l : list A) : list A :=
  match l with
  | [] => [x]
  | y :: l' => if le x y then x :: y :: l' else y :: insert_sorted x l'
  end.

Fixpoint sort_by (l : list A) : list A :=
  match l with
  | [] => []
  | x :: l' => insert_sorted x (sort_by l')
  end.
End Sorting.

(** Descending order on a number that may be missing: a missing value sorts
    after every number. *)
Definition desc_num (a b : option Z) : comparison :=
  match a, b with
  | Some x, Some y => Z.compare y x
  | Some _, None => Lt
  | None, Some _ => Gt
  | None, None => Eq
  end.

(** Descending order on [deleted]: [true], then [false], then missing. *)
Definition rank_bool (b : option bool) : Z :=
  match b with
  | Some true => 2
  | Some false => 1
  | None => 0
  end.

Definition desc_bool (a b : option bool) : comparison :=
  Z.compare (rank_bool b) (rank_bool a).

(** Lexicographic combination of two comparisons. *)
Definition lex (c1 c2 : comparison) : comparison :=
  match c1 with
  | Eq => c2
  | _ => c1
  end.

Definition not_after (c : comparison) : bool :=
  match c with
  | Gt => false
  | _ => true
  end.

(** ** MongoCrudRepository.ts

    The collection is the list of its documents in natural order; a
    document is an entity with its [_id].  The repository is taken as
    initialised and connected, sessions are left to [executeTransaction]
    below, and mongoose's own version key is not part of a document. *)
Module MongoCrudRepository.
Import commonUtils entityUtils.

Record Doc := mkDoc { _id : option string; body : Entity }.

Abbreviation Collection := (list Doc).
Local Abbreviation W := (World Collection).

(** [doc[key]] *)
Definition docField (key : string) (d : Doc) : option value :=
  if decide (key = "_id") then VStr <$> _id d else getField key (body d).

(** [{ ...record, ...payload }] on documents. *)
Definition spreadDoc (record payload : Doc) : Doc :=
  {| _id := orElse (_id payload) (_id record);
     body := spread (body record) (body payload) |}.

(** The two field conditions the adapter writes. *)
Inductive Cond :=
| NeTrue                    (* { $ne: true } *)
| EqExists (v : value).     (* { $eq: v, $exists: true } *)

(** The two shapes of query the adapter builds:
    [{ k1: c1, k2: c2, ... }] and [{ $and: [first, { $op: branches }] }]. *)
Inductive FilterQuery :=
| Plain (conds : list (string * Cond))
| AndOf (first : list (string * Cond)) (operator : LogicalOperator)
        (branches : list (list (string * Cond))).

Definition cond_holds (d : Doc) (kc : string * Cond) : bool :=
  match snd kc with
  | NeTrue => negb (bool_decide (docField (fst kc) d = Some (VBool true)))
  | EqExists v => bool_decide (docField (fst kc) d = Some v)
  end.

Definition all_hold (d : Doc) (conds : list (string * Cond)) : bool :=
  forallb (cond_holds d) conds.

(** Whether the server accepts the query: [$or] and [$nor] want a
    non-empty array. *)
Definition well_formed (q : FilterQuery) : bool :=
  match q with
  | Plain _ => true
  | AndOf _ _ branches => negb (bool_decide (branches = []))
  end.

Definition matches (q : FilterQuery) (d : Doc) : bool :=
  match q with
  | Plain conds => all_hold d conds
  | AndOf first AND branches =>
      all_hold d first && forallb (all_hold d) branches
  | AndOf first OR branches =>
      all_hold d first && existsb (all_hold d) branches
  | AndOf first NOR branches =>
      all_hold d first && negb (existsb (all_hold d) branches)
  end.

(** *** The driver *)

(** [Model.find(q)] *)
Definition find (q : FilterQuery) : M W (list Doc) :=
  if well_formed q
  then coll <- getStore ;; ret (List.filter (matches q) coll)
  else throw DriverError.

(** [Model.findOne(q)] *)
Definition findOne (q : FilterQuery) : M W (option Doc) :=
  found <- find q ;; ret (head found).

(** [new Model(doc).save()]: the [_id] index is unique. *)
Definition save (d : Doc) : M W Doc :=
  coll <- getStore ;;
  if existsb (fun d' => bool_decide (_id d' = _id d)) coll
  then throw DriverError
  else _ <- putStore (coll ++ [d])%list ;; ret d.

(** [Model.insertMany(docs)], ordered. *)
Definition insertMany (docs : list Doc) : M W (list Doc) := mapM save docs.

Fixpoint set_fields (target : option string) (update : Doc)
    (coll : Collection) : Collection :=
  match coll with
  | [] => []
  | d :: rest =>
      if bool_decide (_id d = target)
      then spreadDoc d update :: rest
      else d :: set_fields target update rest
  end.

(** [new Model(record).updateOne(update)]: [$set] of the fields of
    [update] on the document with the [_id] of [record]; [_id] itself
    cannot be changed. *)
Definition updateOne (record update : Doc) : M W unit :=
  if bool_decide (_id update = _id record)
  then coll <- getStore ;; putStore (set_fields (_id record) update coll)
  else throw DriverError.

Fixpoint delete_first (q : FilterQuery) (coll : Collection)
  : Collection * nat :=
  match coll with
  | [] => ([], 0)
  | d :: rest =>
      if matches q d then (rest, 1)
      else let '(rest', n) := delete_first q rest in (d :: rest', n)
  end.

(** [Model.deleteOne(q)], returning [deletedCount]. *)
Definition deleteOne (q : FilterQuery) : M W nat :=
  if well_formed q
  then coll <- getStore ;;
       let '(coll', n) := delete_first q coll in
       _ <- putStore coll' ;; ret n
  else throw DriverError.

(** [.sort({ deleted: -1, dateCreated: -1 })] *)
Definition by_deleted_dateCreated (a b : Doc) : bool :=
  not_after (lex (desc_bool (deleted (body a)) (deleted (body b)))
                 (desc_num (dateCreated (body a)) (dateCreated (body b)))).

(** [.sort({ dateCreated: -1 })] *)
Definition by_dateCreated (a b : Doc) : bool :=
  not_after (desc_num (dateCreated (body a)) (dateCreated (body b))).

(** *** The adapter *)

Definition createId : M W string := generate.

Definition createFilterOnly (filter : Filter) : FilterQuery :=
  Plain (fold_left (fun filterQuery kv =>
                      map_set (fst kv) (EqExists (snd kv)) filterQuery)
                   filter [("deleted", NeTrue)]).

Definition createFilter (filter : Filter)
    (queryOptions : option QueryOptions) : FilterQuery :=
  match queryOptions ≫= logicalOperator with
  | None | Some AND => createFilterOnly filter
  | Some operator =>
      AndOf [("deleted", NeTrue)] operator
            (List.map (fun kv => [(fst kv, EqExists (snd kv))]) filter)
  end.

Definition findById (i : string) : M W (option Doc) :=
  findOne (Plain [("deleted", NeTrue); ("id", EqExists (VStr i))]).

Definition checkDuplicateId (i : string) : M W string :=
  found <- findById i ;;
  match found with
  | Some _ => throw DuplicateRecordException
  | None => ret i
  end.

Definition getId (payload : Entity) : M W string :=
  empty <- isEmpty_string (id payload) ;;
  if (empty : bool) then createId else checkDuplicateId (str (id payload)).

Definition create (payload : ref) : M W Doc :=
  _ <- updatePayload_at payload ;;
  p <- deref payload ;;
  i <- getId p ;;
  let updatedPayload := mkDoc (Some i) (with_id i p) in
  save updatedPayload.

Definition first_rejection {A B} (started : list (A * Result B))
  : option error :=
  head (omap (fun x => match snd x with Err e => Some e | Ok _ => None end)
             started).

(** [createAll].  Every callback stamps its item and calls [getId] before
    anything is awaited; the documents are built from the items once all
    lookups have settled, and go to the server in one [insertMany]. *)
Definition createAll (payload : list ref) : M W (list Doc) :=
  match payload with
  | [] => ret []
  | _ =>
      entities <- mapM deref payload ;;
      entitiesWithIds <-
        filterM (fun e => b <- isEmpty_string (id e) ;; ret (negb b))
                entities ;;
      _ <- checkForDuplicates entitiesWithIds ;;
      started <- mapM (fun item =>
                   _ <- updatePayload_at item ;;
                   p <- deref item ;;
                   res <- settle (getId p) ;;
                   ret (item, res)) payload ;;
      match first_rejection started with
      | Some e => throw e
      | None =>
          newPayload <- mapM (fun x =>
                          p <- deref (fst x) ;;
                          match snd x with
                          | Ok i => ret (mkDoc (Some i) (with_id i p))
                          | Err e => throw e
                          end) started ;;
          insertMany newPayload
      end
  end.

Definition findExpectedRecord (i : string) : M W Doc :=
  record <- findById i ;;
  match record with
  | None => throw RecordNotFoundException
  | Some r => ret r
  end.

Definition performUpdate (record payload : Doc) (markDeleted : bool)
  : M W bool :=
  let updatedRecord := spreadDoc record payload in
  stamped <- updatePayload (body updatedRecord) ;;
  stamped <- (if markDeleted then markAsDeleted stamped else ret stamped) ;;
  _ <- updateOne record (mkDoc (_id updatedRecord) stamped) ;;
  ret true.

Definition hardDelete (i : string) (queryOptions : option QueryOptions)
  : M W bool :=
  let filterQuery := createFilter [("id", VStr i)] queryOptions in
  deletedCount <- deleteOne filterQuery ;;
  ret (Nat.eqb deletedCount 1).

Definition remove (i : string) (queryOptions : option QueryOptions)
  : M W bool :=
  let queryOptions := default defaultRemoval queryOptions in
  record <- findExpectedRecord i ;;
  if wantsSoftDelete queryOptions
  then performUpdate record record true
  else hardDelete i (Some queryOptions).

Definition update (i : string) (payload : Doc)
    (queryOptions : option QueryOptions) : M W bool :=
  record <- findExpectedRecord i ;;
  if is_optimistic queryOptions
     && negb (bool_decide (version (body record) = version (body payload)))
  then throw OptimisticLockException
  else performUpdate record payload false.

Definition _findAll (queryOptions : option QueryOptions)
  : M W (list Doc) :=
  let filter := createFilter [] queryOptions in
  records <- find filter ;;
  ret (sort_by by_deleted_dateCreated records).

Definition findBy (filter : Filter) (queryOptions : option QueryOptions)
  : M W (list Doc) :=
  let filterQuery := createFilter filter queryOptions in
  records <- find filterQuery ;;
  ret (sort_by by_dateCreated records).

Definition findAll (filter : option Filter)
    (queryOptions : option QueryOptions) : M W (list Doc) :=
  match filter with
  | None => _findAll queryOptions
  | Some filter => findBy filter queryOptions
  end.

Definition findOneBy (filter : Filter) (queryOptions : option QueryOptions)
  : M W (option Doc) :=
  let filterQuery := createFilter filter queryOptions in
  findOne filterQuery.

End MongoCrudRepository.

(** ** FirestoreCrudRepository.ts

    The collection maps document ids to document data, kept as a list with
    one entry per id.  A query filters, drops the documents that lack a
    field it orders by, orders (ties by document id), and truncates. *)
Module FirestoreCrudRepository.
Import commonUtils entityUtils.

Abbreviation Collection := (list (string * Entity)).
Local Abbreviation W := (World Collection).

(** [where(key, '==', v)] and [where(key, '!=', true)]. *)
Inductive Constraint :=
| WhereEq (key : string) (v : value)
| WhereNotTrue (key : string).

(** [query(ref, c1, c2, ...)] and [query(ref, and(c, or(...alts)))]. *)
Inductive QueryFilter :=
| Conj (cs : list Constraint)
| AndOr (c : Constraint) (alts : list Constraint).

Record Query := {
  qfilter : QueryFilter;
  ordered : bool;   (* orderBy('deleted','desc'), orderBy('dateCreated','desc') *)
  qlimit : option nat
}.

Definition holds (data : Entity) (c : Constraint) : bool :=
  match c with
  | WhereEq key v => bool_decide (getField key data = Some v)
  | WhereNotTrue key =>
      match getField key data with
      | Some v => negb (bool_decide (v = VBool true))
      | None => false
      end
  end.

(** An [or()] of nothing is dropped from the composite. *)
Definition satisfies (f : QueryFilter) (data : Entity) : bool :=
  match f with
  | Conj cs => forallb (holds data) cs
  | AndOr c [] => holds data c
  | AndOr c alts => holds data c && existsb (holds data) alts
  end.

Definition has_order_fields (data : Entity) : bool :=
  bool_decide (is_Some (deleted data))
  && bool_decide (is_Some (dateCreated data)).

(** The explicit ordering: deleted and dateCreated descending, then the
    document id in the direction of the last key. *)
Definition explicit_order (a b : string * Entity) : bool :=
  not_after
    (lex (desc_bool (deleted (snd a)) (deleted (snd b)))
      (lex (desc_num (dateCreated (snd a)) (dateCreated (snd b)))
           (String.compare (fst b) (fst a)))).

(** The ordering a query with an inequality on [deleted] has when it asks
    for none: that field ascending, then the document id. *)
Definition implicit_order (a b : string * Entity) : bool :=
  not_after
    (lex (desc_bool (deleted (snd b)) (deleted (snd a)))
         (String.compare (fst a) (fst b))).

Definition truncate {A} (n : option nat) (l : list A) : list A :=
  match n with
  | Some k => take k l
  | None => l
  end.

(** *** The driver *)

(** [getDocs(query)]: the documents of the snapshot. *)
Definition getDocs (q : Query) : M W (list (string * Entity)) :=
  coll <- getStore ;;
  let matched := List.filter (fun d => satisfies (qfilter q) (snd d)) coll in
  let sorted :=
    if ordered q
    then sort_by explicit_order
           (List.filter (fun d => has_order_fields (snd d)) matched)
    else sort_by implicit_order matched in
  ret (truncate (qlimit q) sorted).

(** [setDoc(doc(ref, i), data)] *)
Definition setDoc (i : string) (data : Entity) : M W unit :=
  coll <- getStore ;; putStore (map_set i data coll).

(** [updateDoc(doc(ref, i), data)]: the document has to exist. *)
Definition updateDoc (i : string) (data : Entity) : M W unit :=
  coll <- getStore ;;
  match map_get i coll with
  | None => throw DriverError
  | Some old => putStore (map_set i (spread old data) coll)
  end.

(** [deleteDoc(doc(ref, i))] *)
Definition deleteDoc (i : string) : M W unit :=
  coll <- getStore ;;
  putStore (map_delete i coll).

Fixpoint commit (batch : list (string * Entity)) : M W unit :=
  match batch with
  | [] => ret tt
  | (i, data) :: rest => _ <- setDoc i data ;; commit rest
  end.

(** *** The adapter *)

(** [doc(collectionReference).id] *)
Definition createId : M W string := generate.

Definition findById (i : string) : M W (option Entity) :=
  record <- getDocs {| qfilter := Conj [WhereEq "id" (VStr i);
                                        WhereNotTrue "deleted"];
                       ordered := false; qlimit := None |} ;;
  ret (snd <$> head record).

Definition orderAndLimit (f : QueryFilter)
    (queryOptions : option QueryOptions) : Query :=
  {| qfilter := f; ordered := true;
     qlimit := match queryOptions ≫= limit with
               | Some 0 | None => None
               | Some n => Some n
               end |}.

Definition createQuery (filter : Filter)
    (queryOptions : option QueryOptions) : Query :=
  let filterArray := List.map (fun kv => WhereEq (fst kv) (snd kv)) filter in
  let deletionConstraint := WhereNotTrue "deleted" in
  let mainQuery :=
    match queryOptions ≫= logicalOperator with
    | None | Some AND => Conj (deletionConstraint :: filterArray)
    | Some _ => AndOr deletionConstraint filterArray
    end in
  orderAndLimit mainQuery queryOptions.

(** [_findBy]: [None] is [undefined], the empty snapshot. *)
Definition _findBy (filter : Filter) (queryOptions : option QueryOptions)
  : M W (option (list (string * Entity))) :=
  querySnapshot <- getDocs (createQuery filter queryOptions) ;;
  ret (match querySnapshot with
       | [] => None
       | _ => Some querySnapshot
       end).

Definition _findAll (queryOptions : option QueryOptions)
  : M W (list Entity) :=
  records <- _findBy [] queryOptions ;;
  match records with
  | None => ret []
  | Some docs => ret (snd <$> docs)
  end.

(** The comparator [dateB - dateA] of [findAll]; a difference that is
    [NaN] counts as zero. *)
Definition newest_first (a b : string * Entity) : bool :=
  match dateCreated (snd a), dateCreated (snd b) with
  | Some dateA, Some dateB => (dateB - dateA <=? 0)%Z
  | _, _ => true
  end.

Definition findAll (filter : option Filter)
    (queryOptions : option QueryOptions) : M W (list Entity) :=
  match filter with
  | None => _findAll queryOptions
  | Some filter =>
      querySnapShot <- _findBy filter queryOptions ;;
      match querySnapShot with
      | None => ret []
      | Some docs => ret (snd <$> sort_by newest_first docs)
      end
  end.

Definition checkDuplicateId (i : string) : M W string :=
  found <- findById i ;;
  match found with
  | Some _ => throw DuplicateRecordException
  | None => ret i
  end.

Definition getId (payload : Entity) : M W string :=
  empty <- isEmpty_string (id payload) ;;
  if (empty : bool) then createId else checkDuplicateId (str (id payload)).

Definition create (payload : ref) : M W Entity :=
  _ <- updatePayload_at payload ;;
  p <- deref payload ;;
  i <- getId p ;;
  _ <- assign payload (with_id i p) ;;
  p <- deref payload ;;
  _ <- setDoc i p ;;
  ret p.

Definition first_rejection {A B} (started : list (A * Result B))
  : option error :=
  head (omap (fun x => match snd x with Err e => Some e | Ok _ => None end)
             started).

(** [createAll].  Every callback stamps its entity; an entity without id
    is put into the batch at once under a fresh document id, one with an
    id after its lookup has settled.  The batch is committed when no
    lookup was rejected, and the caller's array is returned. *)
Definition createAll (payload : list ref) : M W (list Entity) :=
  match payload with
  | [] => ret []
  | _ =>
      entities <- mapM deref payload ;;
      entitiesWithIds <-
        filterM (fun e => b <- isEmpty_string (id e) ;; ret (negb b))
                entities ;;
      _ <- checkForDuplicates entitiesWithIds ;;
      updated <- mapM (fun entity =>
                   _ <- updatePayload_at entity ;;
                   p <- deref entity ;;
                   b <- isEmpty_string (id p) ;;
                   if (b : bool)
                   then i <- createId ;;
                        ret (true, Ok (i, with_id i p))
                   else res <- settle (checkDuplicateId (str (id p))) ;;
                        ret (false,
                             match res with
                             | Ok i => Ok (i, p)
                             | Err e => Err e
                             end)) payload ;;
      match first_rejection updated with
      | Some e => throw e
      | None =>
          let sets b :=
            omap (fun x => match snd x with
                           | Ok s => if Bool.eqb (fst x) b then Some s
                                     else None
                           | Err _ => None
                           end) updated in
          _ <- commit (sets true ++ sets false)%list ;;
          mapM deref payload
      end
  end.

Definition findExpectedRecord (i : string) : M W Entity :=
  record <- findById i ;;
  match record with
  | None => throw RecordNotFoundException
  | Some r => ret r
  end.

(** [performUpdate(record, payload)].  [payload = None] is the call
    [performUpdate(record, record)]: both names are then one object, and
    the stamp put on [record] is seen through [payload] as well. *)
Definition performUpdate (record : Entity) (payload : option Entity)
  : M W bool :=
  let documentReference := str (id record) in
  record <- updatePayload record ;;
  let payload := default record payload in
  _ <- updateDoc documentReference (spread record payload) ;;
  ret true.

Definition softDelete (record : Entity) : M W bool :=
  record <- markAsDeleted record ;;
  performUpdate record None.

Definition hardDelete (i : string) : M W bool :=
  _ <- deleteDoc i ;; ret true.

Definition update (i : string) (payload : Entity)
    (queryOptions : option QueryOptions) : M W bool :=
  record <- findExpectedRecord i ;;
  if is_optimistic queryOptions
     && negb (bool_decide (version record = version payload))
  then throw OptimisticLockException
  else performUpdate record (Some payload).

Definition remove (i : string) (queryOptions : option QueryOptions)
  : M W bool :=
  let queryOptions := default defaultRemoval queryOptions in
  record <- findExpectedRecord i ;;
  if wantsSoftDelete queryOptions then softDelete record
  else hardDelete (str (id record)).

Definition findOneBy (filter : Filter) (queryOptions : option QueryOptions)
  : M W (option Entity) :=
  querySnapShot <- _findBy filter queryOptions ;;
  match querySnapShot with
  | None => ret None
  | Some docs => ret (snd <$> head docs)
  end.

End FirestoreCrudRepository.

(** ** MongoCrudRepository.executeTransaction

    The session is modelled by the calls made on it and by the data they
    act on: [committed] is what readers outside the transaction see,
    [working] what the operations carrying the session see while the
    transaction is open.  Values thrown are of an arbitrary type [E]; the
    driver's calls may each fail with one. *)
Module Transaction.

Inductive call :=
| StartSession
| StartTransaction
| RunExecutor
| CommitTransaction
| AbortTransaction
| EndSession.

#[global] Instance call_eq_dec : EqDecision call.
Proof. solve_decision. Defined.

Section Session.
Context {S R E : Type}.

(** What a rejected promise carries. *)
Inductive thrown :=
| NoExecutor        (* InternalServerException, no executor provided *)
| Raised (e : E).

Inductive completion :=
| Returned (result : R)
| Thrown (t : thrown).

(** The failures of the driver, [None] when the call goes through. *)
Record Driver := {
  startSession_fails : option E;
  commitTransaction_fails : option E;
  abortTransaction_fails : option E;
  endSession_fails : option E
}.

Record State := mkState {
  committed : S;
  working : option S;
  calls : list call
}.

(** [TransactionExecution.mongoExecutor]: the body, acting on the data
    of the transaction. *)
Definition Executor := S -> (R + E) * S.

Definition record (c : call) (st : State) : State :=
  mkState (committed st) (working st) (calls st ++ [c]).

(** The [catch] block. *)
Definition on_catch (driver : Driver) (error : E) (st : State)
  : completion * State :=
  let st := record AbortTransaction st in
  match abortTransaction_fails driver with
  | Some e => (Thrown (Raised e), st)
  | None =>
      (Thrown (Raised error), mkState (committed st) None (calls st))
  end.

(** The [try] block with its [catch]. *)
Definition try_catch (driver : Driver) (mongoExecutor : Executor)
    (st : State) : completion * State :=
  let st := record RunExecutor st in
  let '(result, data) :=
    mongoExecutor (default (committed st) (working st)) in
  let st := mkState (committed st) (Some data) (calls st) in
  match result with
  | inl result =>
      let st := record CommitTransaction st in
      match commitTransaction_fails driver with
      | Some e => on_catch driver e st
      | None => (Returned result, mkState data None (calls st))
      end
  | inr error => on_catch driver error st
  end.

(** The [finally] block: a failure of [endSession] replaces the
    completion of the [try]. *)
Definition on_finally (driver : Driver) (c : completion) (st : State)
  : completion * State :=
  let st := record EndSession st in
  match endSession_fails driver with
  | Some e => (Thrown (Raised e), st)
  | None => (c, mkState (committed st) None (calls st))
  end.

Definition executeTransaction (driver : Driver)
    (mongoExecutor : option Executor) (st : State)
  : completion * State :=
  match startSession_fails driver with
  | Some e => (Thrown (Raised e), st)
  | None =>
      let st := record StartSession st in
      let st := mkState (committed st) (Some (committed st))
                        (calls st ++ [StartTransaction]) in
      match mongoExecutor with
      | None => (Thrown NoExecutor, st)
      | Some mongoExecutor =>
          let '(c, st) := try_catch driver mongoExecutor st in
          on_finally driver c st
      end
  end.
End Session.

Arguments thrown : clear implicits.
Arguments completion : clear implicits.
Arguments Driver : clear implicits.
Arguments State : clear implicits.
Arguments Executor : clear implicits.
End Transaction.

(** * More of the code

    ** entity-utils.ts: the list helpers *)
Module entityLists.

Inductive SortOrder := ASC | DESC.

(** The comparator of [sort].  [a.dateCreated && b.dateCreated] holds for
    two numbers that are not 0. *)
Definition compareFn (order : SortOrder) (a b : Entity) : Z :=
  match dateCreated a, dateCreated b with
  | Some x, Some y =>
      if ((x =? 0) || (y =? 0))%Z then 0
      else if (y <? x)%Z then match order with DESC => -1 | ASC => 1 end
      else if (x <? y)%Z then match order with DESC => 1 | ASC => -1 end
      else 0
  | _, _ => 0
  end%Z.

(** [sort(list, order)].  [Array.prototype.sort] is stable, so its result
    is determined wherever the comparator orders the list consistently:
    among records that all carry a date, and among records none of which
    does.  The statements below stay within these two cases. *)
Definition sort (items : list Entity) (order : SortOrder) : list Entity :=
  sort_by (fun a b => (compareFn order a b <=? 0)%Z) items.

(** [list.findIndex(i => i.id === item.id)] followed by
    [list.splice(index, 1)] when the index is not -1. *)
Fixpoint splice_out (i : option string) (items : list Entity) : list Entity :=
  match items with
  | [] => []
  | x :: rest =>
      if decide (id x = i) then rest else x :: splice_out i rest
  end.

(** [addToListUniqueSorted(list, item, sortOrder)]: the caller's list after
    the call, and the array returned. *)
Definition addToListUniqueSorted (items : list Entity) (item : Entity)
    (sortOrder : SortOrder) : list Entity * list Entity :=
  let items := splice_out (id item) items in
  (items, sort (items ++ [item])%list sortOrder).

(** [list.splice(index, 1, { ...list[index], ...item })] at the same
    index. *)
Fixpoint splice_merge (item : Entity) (items : list Entity) : list Entity :=
  match items with
  | [] => []
  | x :: rest =>
      if decide (id x = id item) then spread x item :: rest
      else x :: splice_merge item rest
  end.

(** [updateListItem(list, item, sortOrder)]: the caller's list after the
    call, and the array returned. *)
Definition updateListItem (items : list Entity) (item : Entity)
    (sortOrder : SortOrder) : list Entity * list Entity :=
  let items := splice_merge item items in
  (items, sort items sortOrder).

End entityLists.

(** ** common-utils.ts: the emptiness tests on any argument

    An argument is [undefined] or a string, a number or a boolean. *)
Module commonValues.
Import commonUtils.

(** [isEmpty(arg)].  A boolean reaches the last test, where
    [JSON.parse(arg)] gives the boolean back and [Object.keys] of it is
    empty on both sides. *)
Definition isEmpty {S} (arg : option value) : M (World S) bool :=
  match arg with
  | None => ret true
  | Some (VNum n) => ret (n =? 0)%Z
  | Some (VStr s) => isEmpty_string (Some s)
  | Some (VBool _) => ret true
  end.

Fixpoint none_is_empty {S} (args : list (option value)) : M (World S) bool :=
  match args with
  | [] => ret true
  | arg :: rest =>
      empty <- isEmpty arg ;;
      if (empty : bool) then ret false else none_is_empty rest
  end.

(** [isNoneEmpty(...args)] *)
Definition isNoneEmpty {S} (args : list (option value)) : M (World S) bool :=
  match args with
  | [] => ret false
  | _ => none_is_empty args
  end.

Fixpoint any_is_empty {S} (args : list (option value)) : M (World S) bool :=
  match args with
  | [] => ret false
  | arg :: rest =>
      empty <- isEmpty arg ;;
      if (empty : bool) then ret true else any_is_empty rest
  end.

(** [isAnyEmpty(...args)] *)
Definition isAnyEmpty {S} (args : list (option value)) : M (World S) bool :=
  match args with
  | [] => ret true
  | _ => any_is_empty args
  end.

(** [firstNonNull(...args)]; [None] is [null]. *)
Fixpoint firstNonNull {S} (args : list (option value))
  : M (World S) (option value) :=
  match args with
  | [] => ret None
  | arg :: rest =>
      filled <- isNoneEmpty [arg] ;;
      if (filled : bool) then ret arg else firstNonNull rest
  end.

End commonValues.

(** ** Optional.ts

    [value] is [T | null]: [None] stands for [null].  A method either
    returns or throws; what it throws is [new Error(message)] or the error
    object the caller passed in.  A function argument may be [null] at run
    time, which the methods check. *)
Module Optional.

Inductive thrown (E : Type) :=
| Error (message : string)
| Given (error : E).
Arguments Error {E} message.
Arguments Given {E} error.

Inductive outcome (E A : Type) :=
| Return (a : A)
| Throw (t : thrown E).
Arguments Return {E A} a.
Arguments Throw {E A} t.

Record Optional (T : Type) := mk { value : option T }.
Arguments mk {T} value.
Arguments value {T} o.

Section Methods.
Context {E : Type}.

Definition empty {T} : Optional T := mk None.

(** [Optional.of(value)] *)
Definition of_ {T} (v : option T) : outcome E (Optional T) :=
  match v with
  | None => Throw (Error "Value cannot be null")
  | Some _ => Return (mk v)
  end.

Definition ofNullable {T} (v : option T) : Optional T :=
  match v with
  | None => empty
  | Some _ => mk v
  end.

Definition isPresent {T} (this : Optional T) : bool :=
  match value this with
  | Some _ => true
  | None => false
  end.

Definition get {T} (this : Optional T) : outcome E T :=
  match value this with
  | None => Throw (Error "Value is not present")
  | Some v => Return v
  end.

Definition isEmpty {T} (this : Optional T) : bool := negb (isPresent this).

Definition filter {T} (predicate : option (T -> bool)) (this : Optional T)
  : outcome E (Optional T) :=
  match predicate with
  | None => Throw (Error "Predicate cannot be null")
  | Some predicate =>
      match value this with
      | None => Return this
      | Some v => Return (if predicate v then this else empty)
      end
  end.

Definition map {T U} (mapper : option (T -> option U)) (this : Optional T)
  : outcome E (Optional U) :=
  match mapper with
  | None => Throw (Error "Mapper cannot be null")
  | Some mapper =>
      match value this with
      | None => Return empty
      | Some v => Return (ofNullable (mapper v))
      end
  end.

Definition flatMap {T U} (mapper : option (T -> Optional U))
    (this : Optional T) : outcome E (Optional U) :=
  match mapper with
  | None => Throw (Error "Mapper cannot be null")
  | Some mapper =>
      match value this with
      | None => Return empty
      | Some v =>
          let result := mapper v in
          if isPresent result then Return result
          else Throw (Error "Mapper result cannot be null")
      end
  end.

Definition ifPresentThrow {T} (error : E) (this : Optional T)
  : outcome E unit :=
  if isPresent this then Throw (Given error) else Return tt.

Definition orElseThrow {T} (error : E) (this : Optional T) : outcome E T :=
  match value this with
  | None => Throw (Given error)
  | Some v => Return v
  end.

Definition orElseGet {T} (supplier : unit -> T) (this : Optional T) : T :=
  match value this with
  | Some v => v
  | None => supplier tt
  end.

Definition orElse {T} (defaultValue : T) (this : Optional T) : T :=
  match value this with
  | Some v => v
  | None => defaultValue
  end.

Definition or {T} (supplier : option (unit -> Optional T))
    (this : Optional T) : outcome E (Optional T) :=
  match supplier with
  | None => Throw (Error "Supplier cannot be null")
  | Some supplier =>
      if isPresent this then Return this
      else let result := supplier tt in
           if isPresent result then Return result
           else Throw (Error "Supplier result cannot be null")
  end.

End Methods.
End Optional.

(** * The vocabulary of the statements *)

(** The world after [n] more readings of the clock. *)
Definition advance {S} (n : nat) (w : World S) : World S :=
  mkWorld (store w) (heap w) (n + tick w) (nid w) (env w).

(** What [updatePayload] makes of [p] when the next reading of the clock has
    index [t], and how many readings it takes. *)
Definition stamp_ticks (p : Entity) : nat :=
  if commonUtils.isAnyEmpty_number (dateCreated p) then 2 else 1.

Definition stamp (c : nat -> Z) (t : nat) (p : Entity) : Entity :=
  {| id := id p;
     deleted := Some (default false (deleted p));
     dateCreated := if commonUtils.isAnyEmpty_number (dateCreated p)
                    then Some (c t) else dateCreated p;
     dateUpdated := Some (c (if commonUtils.isAnyEmpty_number (dateCreated p)
                             then Datatypes.S t else t));
     dateDeleted := dateDeleted p;
     version := Some (entityUtils.getNextVersion (version p));
     fields := fields p |}.

(** What [markAsDeleted] makes of [p]. *)
Definition mark (c : nat -> Z) (t : nat) (p : Entity) : Entity :=
  {| id := id p; deleted := Some true; dateCreated := dateCreated p;
     dateUpdated := dateUpdated p; dateDeleted := Some (c t);
     version := version p; fields := fields p |}.

(** An id that [isEmpty] reads without throwing and does not find empty. *)
Definition usable_id (e : Env) (k : string) : bool :=
  if commonUtils.has_brace k then json_parses e k
  else negb (commonUtils.all_space k).

(** An id that [isEmpty] finds empty: absent, or blank. *)
Definition omits_id (i : option string) : bool :=
  match i with
  | None => true
  | Some s => negb (commonUtils.has_brace s) && commonUtils.all_space s
  end.

(** An id that [isEmpty] reads without throwing. *)
Definition readable_id (e : Env) (i : option string) : bool :=
  match i with
  | None => true
  | Some s => if commonUtils.has_brace s then json_parses e s else true
  end.

(** The object of the caller behind a reference. *)
Definition obj {S} (w : World S) (r : ref) : Entity :=
  default emptyEntity (heap w !! r).

(** The loop of [unique] on items that all carry an id. *)
Definition assign_all (items : list Entity) (map : list (string * Entity))
  : list (string * Entity) :=
  fold_left (fun m e => entityUtils.map_assign (str (id e)) e m) items map.

(** A key that another assignment cannot make the map grow with. *)
Definition settled (k : string) (map : list (string * Entity)) : Prop :=
  k = "__proto__" \/ In k (fst <$> map).

(** The collections as [create] leaves them: a record is filed under its
    id.  Document database: [_id] is unique and equals [id].  Cloud store:
    one document per document id, which is the [id] of its data. *)
Definition keyed_mongo (coll : list MongoCrudRepository.Doc) : Prop :=
  NoDup (MongoCrudRepository._id <$> coll)
  /\ Forall (fun d => MongoCrudRepository._id d
                      = id (MongoCrudRepository.body d)) coll.

Definition keyed_fs (coll : list (string * Entity)) : Prop :=
  NoDup (fst <$> coll)
  /\ Forall (fun d => id (snd d) = Some (fst d)) coll.

(** [{ deletionOptions: { softDelete: false } }] *)
Definition hardRemoval : QueryOptions :=
  {| logicalOperator := None;
     deletionOptions := Some {| softDelete := Some false |};
     limit := None; locking := None |}.

(** [{ locking: 'optimistic' }] and [{ logicalOperator: LogicalOperator.OR }] *)
Definition optimisticLocking : QueryOptions :=
  {| logicalOperator := None; deletionOptions := None;
     limit := None; locking := Some optimistic |}.

Definition anyOf : QueryOptions :=
  {| logicalOperator := Some OR; deletionOptions := None;
     limit := None; locking := None |}.

(** The queries of the two [findById]. *)
Definition byId (k : string) : MongoCrudRepository.FilterQuery :=
  MongoCrudRepository.Plain
    [("deleted", MongoCrudRepository.NeTrue);
     ("id", MongoCrudRepository.EqExists (VStr k))].

Definition byIdQ (k : string) : FirestoreCrudRepository.Query :=
  {| FirestoreCrudRepository.qfilter :=
       FirestoreCrudRepository.Conj
         [FirestoreCrudRepository.WhereEq "id" (VStr k);
          FirestoreCrudRepository.WhereNotTrue "deleted"];
     FirestoreCrudRepository.ordered := false;
     FirestoreCrudRepository.qlimit := None |}.

(** A record that equals the filter at one of its fields at least. *)
Definition or_match {E} (get : string -> E -> option value) (flt : Filter)
    (e : E) : bool :=
  existsb (fun kv => bool_decide (get (fst kv) e = Some (snd kv))) flt.

(** A record that is not soft-deleted. *)
Definition live (e : Entity) : bool :=
  negb (bool_decide (deleted e = Some true)).

(** [a] may stand before [b] in descending order of [dateCreated]. *)
Definition newer_or_same (a b : Entity) : Prop :=
  not_after (desc_num (dateCreated a) (dateCreated b)) = true.

(** A record that went through [updatePayload]. *)
Definition stamped_entity (e : Entity) : Prop :=
  is_Some (deleted e) /\ is_Some (dateCreated e).


(** The session once [startSession] and [startTransaction] went through. *)
Definition opened {S} (st : Transaction.State S) : Transaction.State S :=
  Transaction.mkState (Transaction.committed st)
    (Some (Transaction.committed st))
    ((Transaction.calls st ++ [Transaction.StartSession])
       ++ [Transaction.StartTransaction]).

(** * A scenario for the examples

    A clock that advances with every reading, two stored users, and the
    objects a caller hands to [create] and [update]. *)

Definition demoEnv : Env :=
  {| clock := fun n => (1000 + Z.of_nat n)%Z;
     uuid := fun n => String (ascii_of_nat (97 + n)) "-generated";
     json_parses := fun _ => false |}.

Definition person (i : option string) (name email : string)
    (created v : option Z) : Entity :=
  {| id := i; deleted := Some false; dateCreated := created;
     dateUpdated := created; dateDeleted := None; version := v;
     fields := {[ "name" := VStr name; "email" := VStr email ]} |}.

Definition partial (created v : option Z) (name : option string) : Entity :=
  {| id := None; deleted := None; dateCreated := created;
     dateUpdated := None; dateDeleted := None; version := v;
     fields := match name with
               | Some s => {[ "name" := VStr s ]}
               | None => ∅
               end |}.

Definition alice : Entity := person (Some "k1") "A" "a@x" (Some 5%Z) (Some 1%Z).
Definition bob : Entity := person (Some "k2") "A" "b@x" (Some 6%Z) (Some 1%Z).

(** [{ name: 'C' }], and a payload that asks for the id of alice. *)
Definition newcomer : Entity := partial None None (Some "C").
Definition again : Entity := with_id "k1" (partial None None (Some "A")).

(** Payloads of [update]: a version that is not the stored one, the stored
    version, another date of creation, no lifecycle attribute at all. *)
Definition stale : Entity := partial None (Some 6%Z) None.
Definition rename : Entity := partial None (Some 1%Z) (Some "B").
Definition touch : Entity := partial None None (Some "Z").

Definition demoHeap : list Entity := [newcomer; again; again; newcomer].

Definition localDemo : World (option (list (string * Entity))) :=
  mkWorld (Some [("k1:false", alice); ("k2:false", bob)]) demoHeap 0 0 demoEnv.

Definition mongoDemo : World (list MongoCrudRepository.Doc) :=
  mkWorld [MongoCrudRepository.mkDoc (Some "k1") alice;
           MongoCrudRepository.mkDoc (Some "k2") bob] demoHeap 0 0 demoEnv.

Definition firestoreDemo : World (list (string * Entity)) :=
  mkWorld [("k1", alice); ("k2", bob)] demoHeap 0 0 demoEnv.

(** The three creates of the ordering scenario, dates 100, 101 and 99. *)
Definition scenarioHeap : list Entity :=
  [partial (Some 100%Z) None (Some "A");
   partial (Some 101%Z) None (Some "B");
   partial (Some 99%Z) None (Some "C")].

Definition after {S A} (m : M (World S) A) (w : World S) : World S :=
  snd (m w).

Definition localScenario : World (option (list (string * Entity))) :=
  after (LocalStorageCrudRepository.create 2)
    (after (LocalStorageCrudRepository.create 1)
       (after (LocalStorageCrudRepository.create 0)
          (mkWorld None scenarioHeap 0 0 demoEnv))).

Definition mongoScenario : World (list MongoCrudRepository.Doc) :=
  after (MongoCrudRepository.create 2)
    (after (MongoCrudRepository.create 1)
       (after (MongoCrudRepository.create 0)
          (mkWorld [] scenarioHeap 0 0 demoEnv))).

Definition firestoreScenario : World (list (string * Entity)) :=
  after (FirestoreCrudRepository.create 2)
    (after (FirestoreCrudRepository.create 1)
       (after (FirestoreCrudRepository.create 0)
          (mkWorld [] scenarioHeap 0 0 demoEnv))).

Definition names (l : list Entity) : list (option value) :=
  (fun e => fields e !! "name") <$> l.

Definition emailOrName : Filter := [("email", VStr "a@x"); ("name", VStr "A")].

(** A driver without failures, and two executors: one that stores a number
    and returns it, one that stores it and throws. *)
Definition soundDriver : Transaction.Driver string :=
  {| Transaction.startSession_fails := None;
     Transaction.commitTransaction_fails := None;
     Transaction.abortTransaction_fails := None;
     Transaction.endSession_fails := None |}.

Definition storing (n : nat) : Transaction.Executor (list nat) nat string :=
  fun data => (inl n, n :: data).

Definition failing (n : nat) : Transaction.Executor (list nat) nat string :=
  fun data => (inr "duplicate", n :: data).

Definition idle : Transaction.State (list nat) :=
  Transaction.mkState [7] None [].







(** The collections after [update('k2', { id: 'k1', name: 'A' })]: two
    records answer to the id [k1].  And a local storage whose entry under
    ["k1:false"] carries another id. *)
Definition mongoShared : World (list MongoCrudRepository.Doc) :=
  after (MongoCrudRepository.update "k2"
           (MongoCrudRepository.mkDoc None again) None) mongoDemo.

Definition firestoreShared : World (list (string * Entity)) :=
  after (FirestoreCrudRepository.update "k2" again None) firestoreDemo.

Definition localMisfiled : World (option (list (string * Entity))) :=
  mkWorld (Some [("k1:false", bob)]) demoHeap 0 0 demoEnv.

(** A string given by its UTF-8 bytes, and the white space of ECMAScript
    beyond ASCII: U+00A0, U+1680, U+2000 to U+200A, U+2028, U+2029, U+202F,
    U+205F, U+3000 and U+FEFF. *)
Definition utf8 (bytes : list nat) : string :=
  fold_right (fun b s => String (ascii_of_nat b) s) EmptyString bytes.

Definition unicode_spaces : list string :=
  utf8 <$> [[194; 160]; [225; 154; 128];
            [226; 128; 128]; [226; 128; 129]; [226; 128; 130];
            [226; 128; 131]; [226; 128; 132]; [226; 128; 133];
            [226; 128; 134]; [226; 128; 135]; [226; 128; 136];
            [226; 128; 137]; [226; 128; 138];
            [226; 128; 168]; [226; 128; 169]; [226; 128; 175];
            [226; 129; 159]; [227; 128; 128]; [239; 187; 191]].

(** Characters that [trim] leaves in place: U+0085, U+180E, U+200B. *)
Definition unicode_marks : list string :=
  utf8 <$> [[194; 133]; [225; 160; 142]; [226; 128; 139]].

(** ** Further scenarios *)

(** Drivers on which one call fails. *)
Definition abortFailing : Transaction.Driver string :=
  {| Transaction.startSession_fails := None;
     Transaction.commitTransaction_fails := None;
     Transaction.abortTransaction_fails := Some "abort failed";
     Transaction.endSession_fails := None |}.

Definition endFailing : Transaction.Driver string :=
  {| Transaction.startSession_fails := None;
     Transaction.commitTransaction_fails := None;
     Transaction.abortTransaction_fails := None;
     Transaction.endSession_fails := Some "end failed" |}.

(** A record that carries a date of creation [sort] can compare. *)
Definition dated (e : Entity) : bool :=
  match dateCreated e with
  | Some x => negb (x =? 0)%Z
  | None => false
  end.

(** [a] may stand before [b] in the given order of [dateCreated]. *)
Definition in_order (order : entityLists.SortOrder) (a b : Entity) : Prop :=
  match order with
  | entityLists.DESC => newer_or_same a b
  | entityLists.ASC => newer_or_same b a
  end.

(** Three dated records, two of them of the same date. *)
Definition early : Entity := person (Some "e") "E" "e@x" (Some 3%Z) (Some 1%Z).
Definition late : Entity := person (Some "l") "L" "l@x" (Some 9%Z) (Some 1%Z).
Definition late' : Entity := person (Some "m") "M" "m@x" (Some 9%Z) (Some 1%Z).

(** The comparator of [sort] as a test: [a] need not move behind [b]. *)
Definition le_of (order : entityLists.SortOrder) (a b : Entity) : bool :=
  (entityLists.compareFn order a b <=? 0)%Z.

(** [x] stands in [items] with no record of its id after it. *)
Definition last_of_its_id (items : list Entity) (x : Entity) : Prop :=
  exists l1 l2, items = (l1 ++ x :: l2)%list
                /\ Forall (fun y => id y <> id x) l2.

(** An id that names a record and is not the key of the prototype. *)
Definition plain_id (e : Entity) : Prop :=
  omits_id (id e) = false /\ id e <> Some "__proto__".

(** One payload, whose id is the key of the prototype. *)
Definition protoHeap : list Entity := [with_id "__proto__" newcomer].

(** A record that equals the filter at every one of its fields. *)
Definition and_match {E} (get : string -> E -> option value) (flt : Filter)
    (e : E) : bool :=
  forallb (fun kv => bool_decide (get (fst kv) e = Some (snd kv))) flt.

(** Options that ask for the conjunction of the filter's fields, the
    default, and for no limit. *)
Definition conjunctive (o : option QueryOptions) : Prop :=
  (o ≫= logicalOperator = None \/ o ≫= logicalOperator = Some AND)
  /\ (o ≫= limit = None \/ o ≫= limit = Some 0).

(** The step of the loop of [createFilterOnly]. *)
Definition filter_step (filterQuery : list (string * MongoCrudRepository.Cond))
    (kv : string * value) : list (string * MongoCrudRepository.Cond) :=
  map_set (fst kv) (MongoCrudRepository.EqExists (snd kv)) filterQuery.

(** [{ name: 'A' }] and [{ deleted: true }] *)
Definition namedA : Filter := [("name", VStr "A")].
Definition deletedOnes : Filter := [("deleted", VBool true)].

(** [{}], and [{ logicalOperator: LogicalOperator.NOR,
    deletionOptions: { softDelete: false } }]. *)
Definition noOptions : QueryOptions :=
  {| logicalOperator := None; deletionOptions := None;
     limit := None; locking := None |}.

Definition norRemoval : QueryOptions :=
  {| logicalOperator := Some NOR;
     deletionOptions := Some {| softDelete := Some false |};
     limit := None; locking := None |}.

(** The query [hardDelete] builds under [NOR]. *)
Definition notId (k : string) : MongoCrudRepository.FilterQuery :=
  MongoCrudRepository.AndOf [("deleted", MongoCrudRepository.NeTrue)] NOR
    [[("id", MongoCrudRepository.EqExists (VStr k))]].

(** * Lemmas *)

Import commonUtils entityUtils.

Ltac mrun :=
  unfold bind, ret, throw, getStore, putStore, settle, deref, assign, now;
  simpl.

Lemma updatePayload_spec {S} (p : Entity) (w : World S) :
  updatePayload p w
  = (Ok (stamp (clock (env w)) (tick w) p), advance (stamp_ticks p) w).
Proof.
  unfold updatePayload, stamp, stamp_ticks, advance. mrun.
  destruct (isAnyEmpty_number (dateCreated p)); reflexivity.
Qed.

Lemma markAsDeleted_spec {S} (p : Entity) (w : World S) :
  markAsDeleted p w = (Ok (mark (clock (env w)) (tick w) p), advance 1 w).
Proof. reflexivity. Qed.

Lemma isEmpty_usable {S} (w : World S) k :
  usable_id (env w) k = true -> isEmpty_string (Some k) w = (Ok false, w).
Proof.
  unfold usable_id, isEmpty_string. destruct (has_brace k).
  - intros ->. reflexivity.
  - intros H. apply negb_true_iff in H. rewrite H. reflexivity.
Qed.


Lemma getNextVersion_succ v : getNextVersion (Some v) = (v + 1)%Z.
Proof. reflexivity. Qed.

(** strings *)
Lemma append_inj_l (a b c : string) : a ++ b = a ++ c -> b = c.
Proof. induction a as [|x a IH]; simpl; [auto|]. intros [= H]. auto. Qed.

Lemma active_neq_inactive (k : string) :
  LocalStorageCrudRepository.getActiveKey k
  <> LocalStorageCrudRepository.getInactiveKey k.
Proof.
  unfold LocalStorageCrudRepository.getActiveKey,
    LocalStorageCrudRepository.getInactiveKey.
  intros H. apply append_inj_l in H. discriminate.
Qed.

Section LocalFacts.
Import LocalStorageCrudRepository.

Lemma map_get_set_eq {A} key (item : A) (object : list (string * A)) :
  map_get key (map_set key item object) = Some item.
Proof.
  induction object as [|[k x] rest IH]; simpl.
  - rewrite decide_True by done. reflexivity.
  - destruct (decide (k = key)) as [->|Hne]; simpl.
    + rewrite decide_True by done. reflexivity.
    + rewrite decide_False by done. exact IH.
Qed.

Lemma map_get_set_ne {A} key key' (item : A) (object : list (string * A)) :
  key <> key' -> map_get key (map_set key' item object) = map_get key object.
Proof.
  intros Hne.
  induction object as [|[k x] rest IH]; simpl.
  - rewrite decide_False by congruence. reflexivity.
  - destruct (decide (k = key')) as [->|Hk]; simpl.
    + rewrite !decide_False by congruence. reflexivity.
    + destruct (decide (k = key)); [reflexivity | exact IH].
Qed.

Lemma map_get_delete_eq {A} key (object : list (string * A)) :
  map_get key (map_delete key object) = None.
Proof.
  induction object as [|[k x] rest IH]; simpl; [reflexivity|].
  destruct (decide (k = key)); simpl; [exact IH|].
  rewrite decide_False by done. exact IH.
Qed.


Lemma map_delete_not_in {A} key (x : A) (object : list (string * A)) :
  ~ In (key, x) (map_delete key object).
Proof.
  induction object as [|[k y] rest IH]; simpl; [tauto|].
  destruct (decide (k = key)); simpl; [exact IH|].
  intros [H|H]; [congruence | exact (IH H)].
Qed.

Lemma local_findById_spec (w : World Storage) k :
  findById k w = (Ok (store w ≫= map_get (getActiveKey k)), w).
Proof. unfold findById. mrun. destruct (store w); reflexivity. Qed.

Lemma local_findExpectedRecord_found (w : World Storage) k r :
  findById k w = (Ok (Some r), w) ->
  exists object, store w = Some object
    /\ map_get (getActiveKey k) object = Some r
    /\ findExpectedRecord (getActiveKey k) w = (Ok (object, r), w).
Proof.
  rewrite local_findById_spec. intros [= H].
  destruct (store w) as [object|] eqn:Hs; simpl in H; [|discriminate].
  exists object. split; [reflexivity|]. split; [exact H|].
  unfold findExpectedRecord. mrun. rewrite Hs, H. reflexivity.
Qed.

Lemma local_update_locked (w : World Storage) k r payload o :
  findById k w = (Ok (Some r), w) ->
  locking o = Some optimistic ->
  version payload <> version r ->
  update k payload (Some o) w = (Err OptimisticLockException, w).
Proof.
  intros Hf Hl Hv.
  destruct (local_findExpectedRecord_found _ _ _ Hf) as (object & _ & _ & He).
  unfold update. unfold bind at 1. rewrite He. simpl.
  rewrite Hl, bool_decide_eq_true_2 by done.
  rewrite bool_decide_eq_false_2 by congruence. reflexivity.
Qed.

Lemma local_create_duplicate (w : World Storage) r p k rec :
  heap w !! r = Some p -> id p = Some k -> usable_id (env w) k = true ->
  findById k w = (Ok (Some rec), w) ->
  create r w = (Err DuplicateRecordException, w).
Proof.
  intros Hh Hi Hu Hf. unfold create, getId, checkDuplicateId.
  unfold bind, deref. rewrite Hh. simpl. rewrite Hi, (isEmpty_usable _ _ Hu).
  simpl. rewrite Hf. reflexivity.
Qed.


Lemma local_getId_given (w : World Storage) p k :
  id p = Some k -> usable_id (env w) k = true ->
  findById k w = (Ok None, w) ->
  getId p w = (Ok k, w).
Proof.
  intros Hi Hu Hf. unfold getId, checkDuplicateId, bind.
  rewrite Hi, (isEmpty_usable _ _ Hu). simpl. rewrite Hf. reflexivity.
Qed.

Lemma local_create_resume_spec (w : World Storage) r p i :
  heap w !! r = Some p ->
  let item := with_id i (stamp (clock (env w)) (tick w) p) in
  create_resume r i w
  = (Ok item,
     mkWorld (Some (map_set (getActiveKey i) item (default [] (store w))))
             (<[r := stamp (clock (env w)) (tick w) p]> (heap w))
             (stamp_ticks p + tick w) (nid w) (env w)).
Proof.
  intros Hh item. unfold create_resume, updatePayload_at.
  unfold bind, getStore, deref at 1. simpl. rewrite Hh. simpl.
  rewrite updatePayload_spec. unfold assign, deref, putStore, ret, advance.
  simpl. rewrite list_lookup_insert_eq by (eapply lookup_lt_Some; eauto).
  reflexivity.
Qed.


Lemma local_remove_soft_any (w : World Storage) k r o :
  findById k w = (Ok (Some r), w) ->
  wantsSoftDelete (default defaultRemoval o) = true ->
  exists object, store w = Some object /\
  let marked := mark (clock (env w)) (tick w) r in
  let stored := stamp (clock (env w)) (Datatypes.S (tick w)) marked in
  let rest := map_delete (getActiveKey (str (id r))) object in
  remove k o w
  = (Ok true,
     mkWorld (Some (map_set (getInactiveKey (str (id r))) stored
                      (match map_get (getActiveKey k) rest with
                       | Some _ => map_set (getActiveKey k) stored rest
                       | None => rest
                       end)))
             (heap w) (stamp_ticks marked + Datatypes.S (tick w))
             (nid w) (env w)).
Proof.
  intros Hf Ho.
  destruct (local_findExpectedRecord_found _ _ _ Hf) as (object & Hs & _ & He).
  exists object. split; [exact Hs|]. intros marked stored rest.
  unfold remove. unfold bind at 1. rewrite He. simpl. rewrite Ho.
  unfold softDelete, bind. rewrite markAsDeleted_spec, updatePayload_spec.
  unfold putStore, ret, advance, set_store. simpl. reflexivity.
Qed.

Lemma local_remove_soft_spec (w : World Storage) k r o :
  findById k w = (Ok (Some r), w) -> id r = Some k ->
  wantsSoftDelete (default defaultRemoval o) = true ->
  exists object, store w = Some object /\
  let marked := mark (clock (env w)) (tick w) r in
  let stored := stamp (clock (env w)) (Datatypes.S (tick w)) marked in
  remove k o w
  = (Ok true,
     mkWorld (Some (map_set (getInactiveKey (str (id r))) stored
                      (map_delete (getActiveKey (str (id r))) object)))
             (heap w) (stamp_ticks marked + Datatypes.S (tick w))
             (nid w) (env w)).
Proof.
  intros Hf Hi Ho.
  destruct (local_remove_soft_any w k r o Hf Ho) as (object & Hs & Hu).
  exists object. split; [exact Hs|]. cbv zeta in Hu |- *. rewrite Hu.
  rewrite Hi. cbn [str]. rewrite map_get_delete_eq. reflexivity.
Qed.

Lemma local_remove_hard_spec (w : World Storage) k r o :
  findById k w = (Ok (Some r), w) ->
  wantsSoftDelete (default defaultRemoval o) = false ->
  exists object, store w = Some object /\
  remove k o w
  = (Ok true, set_store (Some (map_delete (getActiveKey k) object)) w).
Proof.
  intros Hf Ho.
  destruct (local_findExpectedRecord_found _ _ _ Hf) as (object & Hs & _ & He).
  exists object. split; [exact Hs|].
  unfold remove. unfold bind at 1. rewrite He. simpl. rewrite Ho.
  reflexivity.
Qed.

Lemma local_findAll_no_filter (w : World Storage) o :
  findAll None o w = (Ok [], w).
Proof. unfold findAll. mrun. destruct (store w); reflexivity. Qed.

Lemma local_findAll_In (w : World Storage) (flt : Filter) o res x :
  findAll (Some flt) o w = (Ok res, w) ->
  In x res <->
  exists object key, store w = Some object /\ In (key, x) object
    /\ deleted x <> Some true
    /\ exists kv, In kv flt /\ getField (fst kv) x = Some (snd kv).
Proof.
  unfold findAll. mrun. destruct (store w) as [object|]; simpl.
  - intros [= <-]. rewrite in_flat_map. split.
    + intros ([key v] & Hkv & Hx). apply in_flat_map in Hx.
      destruct Hx as ([rk item] & Hin & Hx).
      destruct (truthy (deleted item)) eqn:Ht; [destruct Hx|].
      destruct (decide (getField key item = Some v)) as [Hg|]; [|destruct Hx].
      destruct Hx as [<-|[]]. exists object, rk. repeat split; auto.
      * intros Hd. rewrite Hd in Ht. discriminate.
      * exists (key, v). auto.
    + intros (object' & rk & [= <-] & Hin & Hd & [key v] & Hkv & Hg).
      exists (key, v). split; [exact Hkv|]. apply in_flat_map.
      exists (rk, x). split; [exact Hin|]. simpl in Hg.
      assert (truthy (deleted x) = false) as ->.
      { destruct (deleted x) as [[]|]; simpl; congruence. }
      rewrite decide_True by exact Hg. left. reflexivity.
  - intros [= <-]. split; [intros []|].
    intros (object & _ & [=] & _).
Qed.

Lemma local_findAll_ok (w : World Storage) flt o :
  exists res, findAll flt o w = (Ok res, w).
Proof. unfold findAll. mrun. destruct (store w); eauto. Qed.

End LocalFacts.

(** sorting *)
Section SortFacts.
Context {A : Type} (le : A -> A -> bool).

Lemma insert_sorted_perm x l : Permutation (insert_sorted le x l) (x :: l).
Proof.
  induction l as [|y l IH]; simpl; [reflexivity|].
  destruct (le x y); [reflexivity|].
  rewrite IH. apply perm_swap.
Qed.

Lemma sort_by_perm l : Permutation (sort_by le l) l.
Proof.
  induction l as [|x l IH]; simpl; [reflexivity|].
  rewrite insert_sorted_perm. constructor. exact IH.
Qed.

Hypothesis le_total : forall a b, le a b = true \/ le b a = true.

Lemma insert_sorted_sorted x l :
  Sorted (fun a b => le a b = true) l ->
  Sorted (fun a b => le a b = true) (insert_sorted le x l).
Proof.
  induction 1 as [|y l Hs IH Hd]; simpl.
  - repeat constructor.
  - destruct (le x y) eqn:Hxy.
    + constructor; [constructor; assumption|]. constructor. exact Hxy.
    + constructor; [exact IH|].
      destruct l as [|z l]; simpl.
      * constructor. destruct (le_total x y); congruence.
      * destruct (le x z); constructor.
        -- destruct (le_total x y); congruence.
        -- inversion Hd; assumption.
Qed.

Lemma sort_by_sorted l : Sorted (fun a b => le a b = true) (sort_by le l).
Proof.
  induction l as [|x l IH]; simpl; [constructor|].
  apply insert_sorted_sorted. exact IH.
Qed.
End SortFacts.

Lemma head_sort_by_In {A} (le : A -> A -> bool) l x :
  head (sort_by le l) = Some x -> In x l.
Proof.
  intros H. apply (Permutation_in x (sort_by_perm le l)).
  destruct (sort_by le l); [discriminate|]. injection H as ->. left; reflexivity.
Qed.

Lemma head_sort_by_None {A} (le : A -> A -> bool) l :
  head (sort_by le l) = None -> l = [].
Proof.
  intros H. destruct (sort_by le l) eqn:E; [|discriminate].
  apply Permutation_nil. rewrite <- E. apply sort_by_perm.
Qed.

Lemma desc_num_total a b : not_after (desc_num a b) = true \/ not_after (desc_num b a) = true.
Proof.
  destruct a as [x|], b as [y|]; simpl; auto.
  destruct (Z.compare_spec y x), (Z.compare_spec x y); simpl; auto; lia.
Qed.

Section MongoFacts.
Import MongoCrudRepository.
Arguments findById : simpl never.
Arguments isEmpty_string : simpl never.

Lemma matches_byId d k :
  matches (byId k) d = true
  <-> deleted (body d) <> Some true /\ id (body d) = Some k.
Proof.
  unfold byId, matches, all_hold, cond_holds, docField, getField. simpl.
  rewrite andb_true_r, andb_true_iff, negb_true_iff.
  rewrite bool_decide_eq_false, bool_decide_eq_true.
  destruct (deleted (body d)) as [[]|], (id (body d)); simpl;
    split; intros [H1 H2]; split; congruence.
Qed.

Lemma mongo_find_spec q (w : World Collection) :
  well_formed q = true ->
  find q w = (Ok (List.filter (matches q) (store w)), w).
Proof. intros H. unfold find. rewrite H. reflexivity. Qed.

Lemma mongo_findById_spec (w : World Collection) k :
  findById k w = (Ok (head (List.filter (matches (byId k)) (store w))), w).
Proof. reflexivity. Qed.

Lemma head_filter_Some {A} (f : A -> bool) l x :
  head (List.filter f l) = Some x ->
  exists l1 l2, l = (l1 ++ x :: l2)%list /\ f x = true
    /\ Forall (fun y => f y = false) l1.
Proof.
  induction l as [|y l IH]; simpl; [discriminate|].
  destruct (f y) eqn:Hy; simpl.
  - intros [= ->]. exists [], l. auto.
  - intros H. destruct (IH H) as (l1 & l2 & -> & Hx & Hl1).
    exists (y :: l1), l2. auto.
Qed.

Lemma head_filter_None {A} (f : A -> bool) l :
  head (List.filter f l) = None <-> forall x, In x l -> f x = false.
Proof.
  induction l as [|y l IH]; simpl; [split; [intros _ x []|reflexivity]|].
  destruct (f y) eqn:Hy; simpl.
  - split; [discriminate|]. intros H. specialize (H y (or_introl eq_refl)).
    congruence.
  - rewrite IH. split.
    + intros H x [<-|Hx]; auto.
    + intros H x Hx. apply H. auto.
Qed.

Lemma mongo_findById_Some (w : World Collection) k r :
  findById k w = (Ok (Some r), w) ->
  In r (store w) /\ deleted (body r) <> Some true /\ id (body r) = Some k.
Proof.
  rewrite mongo_findById_spec. intros [= H].
  destruct (head_filter_Some _ _ _ H) as (l1 & l2 & Hs & Hm & _).
  split; [rewrite Hs; apply in_elt|]. apply matches_byId. exact Hm.
Qed.

Lemma mongo_findById_None (w : World Collection) k :
  findById k w = (Ok None, w)
  <-> forall d, In d (store w) ->
        ~ (deleted (body d) <> Some true /\ id (body d) = Some k).
Proof.
  rewrite mongo_findById_spec. split.
  - intros [= H] d Hd Hm. apply matches_byId in Hm.
    rewrite (proj1 (head_filter_None _ _) H d Hd) in Hm. discriminate.
  - intros H. f_equal. f_equal. apply head_filter_None. intros d Hd.
    destruct (matches (byId k) d) eqn:Hm; [|reflexivity].
    exfalso. apply (H d Hd). apply matches_byId. exact Hm.
Qed.

Lemma mongo_findById_frame (w w' : World Collection) k x :
  store w' = store w -> findById k w = (Ok x, w) -> findById k w' = (Ok x, w').
Proof.
  rewrite !mongo_findById_spec. intros -> [= ->]. reflexivity.
Qed.

Lemma mongo_update_locked (w : World Collection) k r payload o :
  findById k w = (Ok (Some r), w) ->
  locking o = Some optimistic ->
  version (body payload) <> version (body r) ->
  update k payload (Some o) w = (Err OptimisticLockException, w).
Proof.
  intros Hf Hl Hv. unfold update, findExpectedRecord.
  unfold bind. rewrite Hf. simpl.
  rewrite Hl, bool_decide_eq_true_2 by done.
  rewrite bool_decide_eq_false_2 by congruence. reflexivity.
Qed.

Lemma mongo_getId_duplicate (w : World Collection) p k rec :
  id p = Some k -> usable_id (env w) k = true ->
  findById k w = (Ok (Some rec), w) ->
  getId p w = (Err DuplicateRecordException, w).
Proof.
  intros Hi Hu Hf. unfold getId, checkDuplicateId, bind.
  rewrite Hi, (isEmpty_usable _ _ Hu). cbn [str].
  rewrite Hf. reflexivity.
Qed.

Lemma mongo_getId_given (w : World Collection) p k :
  id p = Some k -> usable_id (env w) k = true ->
  findById k w = (Ok None, w) ->
  getId p w = (Ok k, w).
Proof.
  intros Hi Hu Hf. unfold getId, checkDuplicateId, bind.
  rewrite Hi, (isEmpty_usable _ _ Hu). cbn [str].
  rewrite Hf. reflexivity.
Qed.


Lemma updatePayload_at_spec {S} (w : World S) r p :
  heap w !! r = Some p ->
  let w' := mkWorld (store w) (<[r := stamp (clock (env w)) (tick w) p]> (heap w))
                    (stamp_ticks p + tick w) (nid w) (env w) in
  updatePayload_at r w = (Ok tt, w')
  /\ deref r w' = (Ok (stamp (clock (env w)) (tick w) p), w').
Proof.
  intros Hh w'. unfold updatePayload_at, bind, deref. rewrite Hh.
  cbn [default]. rewrite updatePayload_spec. unfold assign, advance.
  cbn [store heap tick nid env]. split; [reflexivity|]. unfold w'.
  cbn [heap]. rewrite list_lookup_insert_eq by (eapply lookup_lt_Some; eauto).
  reflexivity.
Qed.

Lemma mongo_create_duplicate (w : World Collection) r p k rec :
  heap w !! r = Some p -> id p = Some k -> usable_id (env w) k = true ->
  findById k w = (Ok (Some rec), w) ->
  create r w
  = (Err DuplicateRecordException,
     mkWorld (store w) (<[r := stamp (clock (env w)) (tick w) p]> (heap w))
             (stamp_ticks p + tick w) (nid w) (env w)).
Proof.
  intros Hh Hi Hu Hf. unfold create.
  destruct (updatePayload_at_spec w r p Hh) as [H1 H2].
  unfold bind. rewrite H1, H2.
  erewrite mongo_getId_duplicate; [reflexivity| exact Hi | exact Hu |].
  eapply mongo_findById_frame; [|exact Hf]. reflexivity.
Qed.


Lemma mongo_performUpdate_spec (w : World Collection) r payload (md : bool) :
  orElse (_id payload) (_id r) = _id r ->
  let merged := spread (body r) (body payload) in
  let stamped := stamp (clock (env w)) (tick w) merged in
  let final := if md then mark (clock (env w)) (stamp_ticks merged + tick w) stamped
               else stamped in
  performUpdate r payload md w
  = (Ok true,
     mkWorld (set_fields (_id r) (mkDoc (_id r) final) (store w)) (heap w)
             ((if md then 1 else 0) + (stamp_ticks merged + tick w))
             (nid w) (env w)).
Proof.
  intros Hid merged stamped final. unfold performUpdate, bind.
  simpl. rewrite updatePayload_spec. fold merged. fold stamped.
  destruct md; simpl.
  - unfold updateOne. simpl. rewrite Hid, bool_decide_eq_true_2 by done.
    reflexivity.
  - unfold updateOne. simpl. rewrite Hid, bool_decide_eq_true_2 by done.
    reflexivity.
Qed.

Lemma orElse_idemp {A} (a : option A) : orElse a a = a.
Proof. destruct a; reflexivity. Qed.

Lemma spread_idemp e : spread e e = e.
Proof.
  destruct e. unfold spread. simpl. rewrite !orElse_idemp.
  f_equal. apply (idemp_L (∪)).
Qed.

Lemma spreadDoc_idemp d : spreadDoc d d = d.
Proof. destruct d. unfold spreadDoc. simpl. rewrite orElse_idemp, spread_idemp. reflexivity. Qed.


Lemma mongo_remove_soft_eq (w : World Collection) k r o :
  findById k w = (Ok (Some r), w) ->
  wantsSoftDelete (default defaultRemoval o) = true ->
  remove k o w = performUpdate r r true w.
Proof.
  intros Hf Ho. unfold remove, findExpectedRecord, bind. rewrite Hf.
  cbn [ret]. rewrite Ho. reflexivity.
Qed.

Lemma NoDup_fmap_split {A B} (f : A -> B) (l : list A) x :
  NoDup (f <$> l) -> In x l ->
  exists l1 l2, l = (l1 ++ x :: l2)%list
    /\ forall y, In y (l1 ++ l2)%list -> f y <> f x.
Proof.
  intros Hnd Hin. apply in_split in Hin as (l1 & l2 & ->).
  exists l1, l2. split; [reflexivity|].
  rewrite fmap_app, fmap_cons in Hnd.
  apply NoDup_app in Hnd as (_ & Hd & Hnd2).
  apply NoDup_cons in Hnd2 as [Hx _].
  intros y Hy. apply in_app_or in Hy as [Hy|Hy].
  - intros E. apply (Hd (f y)).
    + apply list_elem_of_fmap. exists y. split; [reflexivity|].
      apply list_elem_of_In. exact Hy.
    + rewrite E. left.
  - intros E. apply Hx. rewrite <- E. apply list_elem_of_fmap.
    exists y. split; [reflexivity|]. apply list_elem_of_In. exact Hy.
Qed.

Lemma set_fields_split t u (l1 l2 : list Doc) r :
  _id r = t -> (forall y, In y l1 -> _id y <> t) ->
  set_fields t u (l1 ++ r :: l2) = (l1 ++ spreadDoc r u :: l2)%list.
Proof.
  intros Hr. induction l1 as [|y l1 IH]; intros Hl1; simpl.
  - rewrite bool_decide_eq_true_2 by exact Hr. reflexivity.
  - rewrite bool_decide_eq_false_2 by (apply Hl1; left; reflexivity).
    f_equal. apply IH. intros z Hz. apply Hl1. right. exact Hz.
Qed.

Lemma delete_first_split q (l1 l2 : list Doc) r :
  matches q r = true -> Forall (fun y => matches q y = false) l1 ->
  delete_first q (l1 ++ r :: l2) = ((l1 ++ l2)%list, 1).
Proof.
  intros Hr. induction 1 as [|y l1 Hy _ IH]; simpl.
  - rewrite Hr. reflexivity.
  - rewrite Hy, IH. reflexivity.
Qed.

Lemma keyed_mongo_spec (coll : list Doc) :
  keyed_mongo coll ->
  NoDup (_id <$> coll) /\ forall d, In d coll -> _id d = id (body d).
Proof.
  intros [Hnd Hk]. split; [exact Hnd|]. intros d Hd.
  rewrite Forall_forall in Hk. apply Hk, list_elem_of_In. exact Hd.
Qed.

Lemma keyed_mongo_other (coll : list Doc) l1 l2 r k :
  keyed_mongo coll -> coll = (l1 ++ r :: l2)%list -> id (body r) = Some k ->
  forall d, In d (l1 ++ l2)%list -> id (body d) <> Some k /\ d <> r.
Proof.
  intros Hk0 -> Hr d Hd. destruct (keyed_mongo_spec _ Hk0) as [Hnd Hk].
  destruct (NoDup_fmap_split _id (l1 ++ r :: l2) r Hnd (in_elt _ _ _))
    as (l1' & l2' & Heq & Hneq).
  assert (Hin : In d (l1 ++ r :: l2)).
  { apply in_app_or in Hd as [?|?]; apply in_or_app; [left|right; right]; auto. }
  assert (Hdr : _id d <> _id r).
  { rewrite fmap_app, fmap_cons in Hnd.
    apply NoDup_app in Hnd as (Hn1 & Hd1 & Hn2).
    apply NoDup_cons in Hn2 as [Hx Hn2].
    apply in_app_or in Hd as [Hd|Hd]; intros E.
    - apply (Hd1 (_id d)).
      + apply list_elem_of_fmap. exists d. split; [reflexivity|].
        apply list_elem_of_In. exact Hd.
      + rewrite E. left.
    - apply Hx. rewrite <- E. apply list_elem_of_fmap. exists d.
      split; [reflexivity|]. apply list_elem_of_In. exact Hd. }
  split.
  - rewrite <- Hr, <- (Hk r (in_elt _ _ _)), <- (Hk d Hin). exact Hdr.
  - intros ->. apply Hdr. reflexivity.
Qed.

Lemma mongo_findAll_default_active (w : World Collection) res x :
  findAll None None w = (Ok res, w) -> In x res ->
  In x (store w) /\ deleted (body x) <> Some true.
Proof.
  unfold findAll, _findAll, bind. cbn [createFilter mbind option_bind].
  rewrite mongo_find_spec by reflexivity. cbn [ret].
  intros [= <-] Hx.
  apply (Permutation_in x (sort_by_perm _ _)) in Hx.
  apply filter_In in Hx as [Hin Hm]. split; [exact Hin|].
  unfold matches, createFilterOnly in Hm. cbn in Hm.
  rewrite andb_true_r, negb_true_iff, bool_decide_eq_false in Hm.
  intros E. apply Hm. unfold docField, getField. cbn. rewrite E. reflexivity.
Qed.

Lemma mongo_findAll_default_ok (w : World Collection) :
  exists res, findAll None None w = (Ok res, w).
Proof.
  unfold findAll, _findAll, bind. cbn [createFilter mbind option_bind].
  rewrite mongo_find_spec by reflexivity. eexists. reflexivity.
Qed.

Lemma mongo_soft_remove (w : World Collection) k r :
  keyed_mongo (store w) -> findById k w = (Ok (Some r), w) ->
  exists w' r',
    remove k None w = (Ok true, w')
    /\ findById k w' = (Ok None, w')
    /\ (exists res, findAll None None w' = (Ok res, w') /\ ~ In r' res)
    /\ In r' (store w')
    /\ _id r' = _id r
    /\ deleted (body r') = Some true
    /\ version (body r') = Some (getNextVersion (version (body r)))
    /\ (isAnyEmpty_number (dateCreated (body r)) = false ->
        dateCreated (body r') = dateCreated (body r)).
Proof.
  intros Hk Hf. pose proof (mongo_findById_Some _ _ _ Hf) as (Hin & Hdel & Hid).
  rewrite (mongo_remove_soft_eq _ _ _ None Hf eq_refl).
  rewrite mongo_performUpdate_spec by apply orElse_idemp.
  rewrite spread_idemp. cbv zeta.
  set (final := mark _ _ _). set (w' := mkWorld _ _ _ _ _).
  destruct (NoDup_fmap_split _id _ r (proj1 Hk) Hin) as (l1 & l2 & Hs & Hne).
  assert (Hst : store w' = (l1 ++ spreadDoc r (mkDoc (_id r) final) :: l2)%list).
  { unfold w'. cbn [store]. rewrite Hs. apply set_fields_split; [reflexivity|].
    intros y Hy. apply Hne. apply in_or_app. left. exact Hy. }
  set (r' := spreadDoc r (mkDoc (_id r) final)) in *.
  assert (Hd' : deleted (body r') = Some true) by reflexivity.
  exists w', r'. split; [reflexivity|]. split; [|split; [|split; [|split; [|split; [|split]]]]].
  - apply mongo_findById_None. rewrite Hst. intros d Hd [Ha Hi].
    apply in_app_or in Hd as [Hd|[<-|Hd]].
    + refine (proj1 (keyed_mongo_other _ _ _ _ _ Hk Hs Hid d _) Hi).
      apply in_or_app. left. exact Hd.
    + apply Ha. exact Hd'.
    + refine (proj1 (keyed_mongo_other _ _ _ _ _ Hk Hs Hid d _) Hi).
      apply in_or_app. right. exact Hd.
  - destruct (mongo_findAll_default_ok w') as [res Hres]. exists res.
    split; [exact Hres|]. intros Hx.
    apply (mongo_findAll_default_active _ _ _ Hres) in Hx as [_ Hx].
    apply Hx. exact Hd'.
  - rewrite Hst. apply in_elt.
  - unfold r', spreadDoc. cbn. apply orElse_idemp.
  - exact Hd'.
  - reflexivity.
  - intros He. unfold r', final, spreadDoc, spread, mark, stamp. cbn.
    rewrite He. destruct (dateCreated (body r)); reflexivity.
Qed.

Lemma mongo_hard_remove (w : World Collection) k r :
  keyed_mongo (store w) -> findById k w = (Ok (Some r), w) ->
  exists w',
    remove k (Some hardRemoval) w = (Ok true, w')
    /\ findById k w' = (Ok None, w')
    /\ ~ In r (store w').
Proof.
  intros Hk Hf. pose proof (mongo_findById_Some _ _ _ Hf) as (Hin & Hdel & Hid).
  rewrite mongo_findById_spec in Hf. injection Hf as Hf.
  destruct (head_filter_Some _ _ _ Hf) as (l1 & l2 & Hs & Hm & Hl1).
  unfold remove, findExpectedRecord, bind. rewrite mongo_findById_spec, Hf.
  cbn [ret from_option Datatypes.id].
  change (wantsSoftDelete hardRemoval) with false. cbv iota.
  unfold hardDelete, bind, deleteOne.
  change (createFilter [("id", VStr k)] (Some hardRemoval)) with (byId k).
  change (well_formed (byId k)) with true. cbv iota.
  assert (Hdf : delete_first (byId k) (store w) = ((l1 ++ l2)%list, 1)).
  { rewrite Hs. apply delete_first_split; assumption. }
  unfold bind, getStore. cbv beta. rewrite Hdf.
  unfold putStore, ret, set_store. cbn [Nat.eqb].
  eexists. split; [reflexivity|]. split.
  - apply mongo_findById_None. cbn [store]. intros d Hd [Ha Hi].
    exact (proj1 (keyed_mongo_other _ _ _ _ _ Hk Hs Hid d Hd) Hi).
  - cbn [store]. intros Hd.
    exact (proj2 (keyed_mongo_other _ _ _ _ _ Hk Hs Hid r Hd) eq_refl).
Qed.

End MongoFacts.

Lemma map_get_In {A} (l : list (string * A)) k x :
  NoDup (fst <$> l) -> In (k, x) l -> map_get k l = Some x.
Proof.
  induction l as [|[k' y] l IH]; simpl; [intros _ []|].
  rewrite NoDup_cons. intros [Hk Hnd] [[= -> ->]|Hin].
  - rewrite decide_True by done. reflexivity.
  - destruct (decide (k' = k)) as [->|Hne]; [|auto].
    exfalso. apply Hk. apply list_elem_of_fmap. exists (k, x).
    split; [reflexivity|]. apply list_elem_of_In. exact Hin.
Qed.

Lemma map_get_Some_In {A} (l : list (string * A)) k x :
  map_get k l = Some x -> In (k, x) l.
Proof.
  induction l as [|[k' y] l IH]; simpl; [discriminate|].
  destruct (decide (k' = k)) as [->|Hne].
  - intros [= ->]. left. reflexivity.
  - intros H. right. auto.
Qed.

Lemma In_map_set {A} (l : list (string * A)) k x i e :
  NoDup (fst <$> l) -> In (i, e) (map_set k x l) ->
  (i = k /\ e = x) \/ (In (i, e) l /\ i <> k).
Proof.
  induction l as [|[k' y] l IH]; simpl.
  - intros _ [[= <- <-]|[]]. left. auto.
  - rewrite NoDup_cons. intros [Hk Hnd].
    destruct (decide (k' = k)) as [->|Hne]; simpl.
    + intros [[= <- <-]|Hin]; [left; auto|]. right. split; [right; exact Hin|].
      intros ->. apply Hk. apply list_elem_of_fmap. exists (k, e).
      split; [reflexivity|]. apply list_elem_of_In. exact Hin.
    + intros [[= <- <-]|Hin]; [right; split; [left; reflexivity|exact Hne]|].
      destruct (IH Hnd Hin) as [?|[? ?]]; [left; assumption|right; auto].
Qed.

Lemma In_map_delete {A} (l : list (string * A)) k i (e : A) :
  In (i, e) (map_delete k l) -> In (i, e) l /\ i <> k.
Proof.
  induction l as [|[k' y] l IH]; simpl; [intros []|].
  destruct (decide (k' = k)) as [->|Hne]; simpl.
  - intros H. destruct (IH H). auto.
  - intros [[= <- <-]|H]; [auto|]. destruct (IH H). auto.
Qed.

Section FirestoreFacts.
Import FirestoreCrudRepository.

Lemma holds_notTrue e :
  holds e (WhereNotTrue "deleted") = true <-> deleted e = Some false.
Proof.
  unfold holds, getField. simpl.
  destruct (deleted e) as [[]|]; simpl; split; congruence.
Qed.

Lemma holds_eq_id e k :
  holds e (WhereEq "id" (VStr k)) = true <-> id e = Some k.
Proof.
  unfold holds, getField. simpl. rewrite bool_decide_eq_true.
  destruct (id e); simpl; split; congruence.
Qed.

Lemma satisfies_byId e k :
  satisfies (qfilter (byIdQ k)) e = true
  <-> id e = Some k /\ deleted e = Some false.
Proof.
  unfold byIdQ, satisfies, qfilter, forallb.
  rewrite andb_true_r, andb_true_iff, holds_notTrue, holds_eq_id. tauto.
Qed.

Lemma fs_findById_spec (w : World Collection) k :
  findById k w
  = (Ok (snd <$> head (sort_by implicit_order
           (List.filter (fun d => satisfies (qfilter (byIdQ k)) (snd d))
                        (store w)))), w).
Proof. reflexivity. Qed.

Lemma fs_findById_Some (w : World Collection) k r :
  findById k w = (Ok (Some r), w) ->
  exists i, In (i, r) (store w) /\ id r = Some k /\ deleted r = Some false.
Proof.
  rewrite fs_findById_spec. intros [= H].
  destruct (head _) as [[i e]|] eqn:Hh; [|discriminate].
  simpl in H. injection H as ->.
  apply head_sort_by_In in Hh. apply filter_In in Hh as [Hin Hs].
  exists i. split; [exact Hin|]. apply satisfies_byId. exact Hs.
Qed.

Lemma fs_findById_None (w : World Collection) k :
  findById k w = (Ok None, w)
  <-> forall i e, In (i, e) (store w) ->
        ~ (id e = Some k /\ deleted e = Some false).
Proof.
  rewrite fs_findById_spec.
  set (l := List.filter (fun d => satisfies (qfilter (byIdQ k)) (snd d))
                        (store w)).
  assert (Hl : forall i e, In (i, e) l
            <-> In (i, e) (store w) /\ id e = Some k /\ deleted e = Some false).
  { intros i e. unfold l. rewrite filter_In. cbn [snd].
    rewrite satisfies_byId. tauto. }
  clearbody l. split.
  - intros H i e Hin Hs.
    assert (Hh : head (sort_by implicit_order l) = None).
    { destruct (head (sort_by implicit_order l)); [discriminate|reflexivity]. }
    apply head_sort_by_None in Hh. subst l.
    apply (proj2 (Hl i e)). auto.
  - intros H. destruct l as [|[i e] l]; [reflexivity|]. exfalso.
    destruct (proj1 (Hl i e) (or_introl eq_refl)) as [Hin Hs].
    exact (H i e Hin Hs).
Qed.

Lemma fs_findById_frame (w w' : World Collection) k x :
  store w' = store w -> findById k w = (Ok x, w) -> findById k w' = (Ok x, w').
Proof.
  rewrite !fs_findById_spec. intros Hs H. rewrite Hs.
  f_equal. apply (f_equal fst) in H. exact H.
Qed.

Lemma keyed_fs_spec (coll : list (string * Entity)) :
  keyed_fs coll ->
  NoDup (fst <$> coll) /\ forall i e, In (i, e) coll -> id e = Some i.
Proof.
  intros [Hnd Hk]. split; [exact Hnd|]. intros i e Hd.
  rewrite Forall_forall in Hk. apply (Hk (i, e)), list_elem_of_In. exact Hd.
Qed.

Lemma fs_found_keyed (w : World Collection) k r :
  keyed_fs (store w) -> findById k w = (Ok (Some r), w) ->
  map_get k (store w) = Some r /\ id r = Some k /\ deleted r = Some false.
Proof.
  intros Hk0 Hf. destruct (keyed_fs_spec _ Hk0) as [Hnd Hk].
  destruct (fs_findById_Some _ _ _ Hf) as (i & Hin & Hi & Hd).
  pose proof (Hk i r Hin) as E. rewrite Hi in E. injection E as ->.
  split; [apply map_get_In; assumption|]. auto.
Qed.

Lemma fs_update_locked (w : World Collection) k r payload o :
  findById k w = (Ok (Some r), w) ->
  locking o = Some optimistic ->
  version payload <> version r ->
  update k payload (Some o) w = (Err OptimisticLockException, w).
Proof.
  intros Hf Hl Hv. unfold update, findExpectedRecord, bind. rewrite Hf.
  cbn [ret is_optimistic]. rewrite Hl, bool_decide_eq_true_2 by done.
  rewrite bool_decide_eq_false_2 by congruence. reflexivity.
Qed.

Lemma fs_getId_duplicate (w : World Collection) p k rec :
  id p = Some k -> usable_id (env w) k = true ->
  findById k w = (Ok (Some rec), w) ->
  getId p w = (Err DuplicateRecordException, w).
Proof.
  intros Hi Hu Hf. unfold getId, checkDuplicateId, bind.
  rewrite Hi, (isEmpty_usable _ _ Hu). cbn [str].
  rewrite Hf. reflexivity.
Qed.

Lemma fs_getId_given (w : World Collection) p k :
  id p = Some k -> usable_id (env w) k = true ->
  findById k w = (Ok None, w) ->
  getId p w = (Ok k, w).
Proof.
  intros Hi Hu Hf. unfold getId, checkDuplicateId, bind.
  rewrite Hi, (isEmpty_usable _ _ Hu). cbn [str].
  rewrite Hf. reflexivity.
Qed.


Lemma fs_create_duplicate (w : World Collection) r p k rec :
  heap w !! r = Some p -> id p = Some k -> usable_id (env w) k = true ->
  findById k w = (Ok (Some rec), w) ->
  create r w
  = (Err DuplicateRecordException,
     mkWorld (store w) (<[r := stamp (clock (env w)) (tick w) p]> (heap w))
             (stamp_ticks p + tick w) (nid w) (env w)).
Proof.
  intros Hh Hi Hu Hf. unfold create.
  destruct (updatePayload_at_spec w r p Hh) as [H1 H2].
  unfold bind. rewrite H1, H2.
  erewrite fs_getId_duplicate; [reflexivity| exact Hi | exact Hu |].
  eapply fs_findById_frame; [|exact Hf]. reflexivity.
Qed.

Lemma fs_create_with (w : World Collection) r p i w1 :
  heap w !! r = Some p ->
  getId (stamp (clock (env w)) (tick w) p)
        (mkWorld (store w) (<[r := stamp (clock (env w)) (tick w) p]> (heap w))
                 (stamp_ticks p + tick w) (nid w) (env w))
  = (Ok i, w1) ->
  heap w1 = <[r := stamp (clock (env w)) (tick w) p]> (heap w) ->
  let item := with_id i (stamp (clock (env w)) (tick w) p) in
  create r w
  = (Ok item,
     mkWorld (map_set i item (store w1)) (<[r := item]> (heap w))
             (tick w1) (nid w1) (env w1)).
Proof.
  intros Hh Hg Hheap item. unfold create.
  destruct (updatePayload_at_spec w r p Hh) as [H1 H2].
  unfold bind. rewrite H1, H2, Hg. unfold assign, deref, setDoc, bind, getStore, putStore, ret, set_store.
  cbn [store heap tick nid env]. rewrite Hheap.
  rewrite list_insert_insert_eq.
  rewrite list_lookup_insert_eq by (eapply lookup_lt_Some; eauto).
  reflexivity.
Qed.

Lemma fs_performUpdate_spec (w : World Collection) r payload old :
  map_get (str (id r)) (store w) = Some old ->
  let r' := stamp (clock (env w)) (tick w) r in
  let data := spread r' (default r' payload) in
  performUpdate r payload w
  = (Ok true,
     mkWorld (map_set (str (id r)) (spread old data) (store w)) (heap w)
             (stamp_ticks r + tick w) (nid w) (env w)).
Proof.
  intros Hg r' data. unfold performUpdate, bind.
  rewrite updatePayload_spec. unfold updateDoc, bind, getStore.
  cbn [advance store]. rewrite Hg. reflexivity.
Qed.


Lemma fs_findAll_default_active (w : World Collection) res x :
  findAll None None w = (Ok res, w) -> In x res -> deleted x = Some false.
Proof.
  unfold findAll, _findAll, _findBy, bind, getDocs, bind, getStore, ret.
  cbn [createQuery orderAndLimit mbind option_bind qfilter ordered qlimit
       List.map truncate].
  set (l := sort_by explicit_order _).
  assert (Hl : forall d, In d l -> deleted (snd d) = Some false).
  { intros d Hd. unfold l in Hd.
    apply (Permutation_in d (sort_by_perm _ _)) in Hd.
    apply filter_In in Hd as [Hd _]. apply filter_In in Hd as [_ Hd].
    cbn [satisfies forallb] in Hd. rewrite andb_true_r in Hd.
    apply holds_notTrue. exact Hd. }
  clearbody l. intros H Hx.
  assert (E : res = snd <$> l) by (destruct l; injection H as <-; reflexivity).
  subst res. apply list_elem_of_In, list_elem_of_fmap in Hx as (d & -> & Hd).
  apply Hl, list_elem_of_In. exact Hd.
Qed.

Lemma fs_findAll_default_ok (w : World Collection) :
  exists res, findAll None None w = (Ok res, w).
Proof.
  unfold findAll, _findAll, _findBy, bind, getDocs, bind, getStore, ret.
  destruct (truncate _ _); eexists; reflexivity.
Qed.

Lemma fs_soft_remove (w : World Collection) k r :
  keyed_fs (store w) -> findById k w = (Ok (Some r), w) ->
  exists w' r',
    remove k None w = (Ok true, w')
    /\ findById k w' = (Ok None, w')
    /\ (exists res, findAll None None w' = (Ok res, w') /\ ~ In r' res)
    /\ map_get k (store w') = Some r'
    /\ deleted r' = Some true
    /\ version r' = Some (getNextVersion (version r))
    /\ (isAnyEmpty_number (dateCreated r) = false ->
        dateCreated r' = dateCreated r).
Proof.
  intros Hk Hf. destruct (fs_found_keyed _ _ _ Hk Hf) as (Hg & Hi & Hd).
  unfold remove, findExpectedRecord, bind. rewrite Hf.
  cbn [ret from_option Datatypes.id].
  change (wantsSoftDelete defaultRemoval) with true. cbv iota.
  unfold softDelete, bind. rewrite markAsDeleted_spec.
  erewrite fs_performUpdate_spec
    by (cbn [mark id advance store]; rewrite Hi; exact Hg).
  cbn [mark id advance store heap tick nid env from_option Datatypes.id].
  rewrite Hi. cbn [str]. rewrite spread_idemp.
  set (r' := spread r _). eexists. exists r'.
  assert (Hd' : deleted r' = Some true) by reflexivity.
  split; [reflexivity|]. split; [|split; [|split; [|split; [|split]]]].
  - apply fs_findById_None. cbn [store]. intros i e Hin [Hie Hde].
    apply (In_map_set _ _ _ _ _ (proj1 Hk)) in Hin as [[-> ->]|[Hin Hne]].
    + congruence.
    + apply Hne. pose proof (proj2 (keyed_fs_spec _ Hk) i e Hin). congruence.
  - match goal with |- context [findAll None None ?w'] =>
      destruct (fs_findAll_default_ok w') as [res Hres] end.
    exists res. split; [exact Hres|]. intros Hx.
    apply (fs_findAll_default_active _ _ _ Hres) in Hx. congruence.
  - cbn [store]. apply map_get_set_eq.
  - exact Hd'.
  - reflexivity.
  - intros He. unfold r', spread, mark, stamp. cbn. rewrite He.
    destruct (dateCreated r); reflexivity.
Qed.

Lemma fs_hard_remove (w : World Collection) k r :
  keyed_fs (store w) -> findById k w = (Ok (Some r), w) ->
  exists w',
    remove k (Some hardRemoval) w = (Ok true, w')
    /\ findById k w' = (Ok None, w')
    /\ map_get k (store w') = None
    /\ forall x, ~ In (k, x) (store w').
Proof.
  intros Hk Hf. destruct (fs_found_keyed _ _ _ Hk Hf) as (Hg & Hi & Hd).
  unfold remove, findExpectedRecord, bind. rewrite Hf.
  cbn [ret from_option Datatypes.id].
  change (wantsSoftDelete hardRemoval) with false. cbv iota.
  unfold hardDelete, deleteDoc, bind, getStore, putStore, ret, set_store.
  rewrite Hi. cbn [str]. eexists. split; [reflexivity|]. cbn [store].
  split; [|split].
  - apply fs_findById_None. cbn [store]. intros i e Hin [Hie Hde].
    apply In_map_delete in Hin as [Hin Hne].
    apply Hne. pose proof (proj2 (keyed_fs_spec _ Hk) i e Hin). congruence.
  - apply map_get_delete_eq.
  - intros x. apply map_delete_not_in.
Qed.

End FirestoreFacts.

Section LocalFacts2.
Import LocalStorageCrudRepository.

Lemma local_soft_remove (w : World Storage) k r :
  findById k w = (Ok (Some r), w) -> id r = Some k ->
  exists w' object' r',
    remove k None w = (Ok true, w')
    /\ findById k w' = (Ok None, w')
    /\ (forall flt o, exists res,
          findAll flt o w' = (Ok res, w') /\ ~ In r' res)
    /\ store w' = Some object'
    /\ map_get (getInactiveKey k) object' = Some r'
    /\ deleted r' = Some true
    /\ id r' = Some k
    /\ fields r' = fields r
    /\ version r' = Some (getNextVersion (version r))
    /\ (isAnyEmpty_number (dateCreated r) = false ->
        dateCreated r' = dateCreated r).
Proof.
  intros Hf Hi.
  destruct (local_findExpectedRecord_found _ _ _ Hf) as (object & Hs & Hg & _).
  destruct (local_remove_soft_spec w k r None Hf Hi eq_refl)
    as (object0 & Hs0 & Hrm).
  rewrite Hs in Hs0. injection Hs0 as <-. cbv zeta in Hrm.
  rewrite Hi in Hrm. cbn [str] in Hrm.
  set (r' := stamp _ _ (mark _ _ r)) in Hrm.
  eexists. exists (map_set (getInactiveKey k) r' (map_delete (getActiveKey k) object)), r'.
  split; [exact Hrm|].
  assert (Hd' : deleted r' = Some true) by reflexivity.
  split; [|split; [|split; [|split; [|split; [|split; [|split; [|split]]]]]]].
  - rewrite local_findById_spec. cbn [store mbind option_bind].
    rewrite map_get_set_ne by apply active_neq_inactive.
    rewrite map_get_delete_eq. reflexivity.
  - intros flt o. match goal with |- context [findAll flt o ?w'] =>
      destruct (local_findAll_ok w' flt o) as [res Hres] end.
    exists res. split; [exact Hres|]. intros Hx.
    destruct flt as [flt|].
    + apply (local_findAll_In _ _ _ _ _ Hres) in Hx
        as (_ & _ & _ & _ & Hnd & _). congruence.
    + rewrite local_findAll_no_filter in Hres. injection Hres as <-.
      destruct Hx.
  - reflexivity.
  - apply map_get_set_eq.
  - exact Hd'.
  - exact Hi.
  - reflexivity.
  - reflexivity.
  - intros He. unfold r', mark, stamp. cbn. rewrite He. reflexivity.
Qed.

Lemma local_hard_remove (w : World Storage) k r :
  findById k w = (Ok (Some r), w) ->
  exists w' object',
    remove k (Some hardRemoval) w = (Ok true, w')
    /\ findById k w' = (Ok None, w')
    /\ store w' = Some object'
    /\ map_get (getActiveKey k) object' = None
    /\ forall x, ~ In (getActiveKey k, x) object'.
Proof.
  intros Hf.
  destruct (local_remove_hard_spec w k r (Some hardRemoval) Hf eq_refl)
    as (object & Hs & Hrm).
  eexists. exists (map_delete (getActiveKey k) object).
  split; [exact Hrm|]. split; [|split; [|split]].
  - rewrite local_findById_spec. cbn [store set_store mbind option_bind].
    rewrite map_get_delete_eq. reflexivity.
  - reflexivity.
  - apply map_get_delete_eq.
  - intros x. apply map_delete_not_in.
Qed.


Lemma local_getId_frame (w w1 : World Storage) p i :
  getId p w = (Ok i, w1) ->
  store w1 = store w /\ heap w1 = heap w /\ tick w1 = tick w
  /\ env w1 = env w.
Proof.
  unfold getId, checkDuplicateId, bind, isEmpty_string.
  destruct (id p) as [s|]; [destruct (has_brace s);
    [destruct (json_parses (env w) s)|destruct (all_space s)]|];
    cbn [str]; try rewrite local_findById_spec;
    try (destruct (store w ≫= map_get (getActiveKey s)));
    unfold createId, generate, ret, throw; intros [= <- <-] || intros [=];
    auto.
Qed.

Lemma local_create_returns (w w' : World Storage) r p e :
  heap w !! r = Some p -> create r w = (Ok e, w') ->
  exists i, e = with_id i (stamp (clock (env w)) (tick w) p)
    /\ findById i w' = (Ok (Some e), w').
Proof.
  intros Hh. unfold create, bind, deref at 1. rewrite Hh. cbn [from_option Datatypes.id].
  destruct (getId p w) as [[i|err] w1] eqn:Hg; [|discriminate].
  destruct (local_getId_frame _ _ _ _ Hg) as (Hs1 & Hh1 & Ht1 & He1).
  rewrite local_create_resume_spec with (p := p) by (rewrite Hh1; exact Hh).
  cbv zeta. rewrite Ht1, He1. intros [= <- <-]. exists i.
  split; [reflexivity|]. rewrite local_findById_spec.
  cbn [store mbind option_bind]. rewrite map_get_set_eq. reflexivity.
Qed.

End LocalFacts2.

Section MongoFacts2.
Import MongoCrudRepository.


Lemma mongo_getId_frame (w w1 : World Collection) p i :
  getId p w = (Ok i, w1) ->
  store w1 = store w /\ heap w1 = heap w /\ tick w1 = tick w
  /\ env w1 = env w.
Proof.
  unfold getId, checkDuplicateId, bind, isEmpty_string.
  destruct (id p) as [s|]; [destruct (has_brace s);
    [destruct (json_parses (env w) s)|destruct (all_space s)]|];
    cbn [str]; try rewrite mongo_findById_spec;
    try (destruct (head _));
    unfold createId, generate, ret, throw; intros [= <- <-] || intros [=];
    auto.
Qed.



End MongoFacts2.

Section FirestoreFacts2.
Import FirestoreCrudRepository.


Lemma fs_getId_frame (w w1 : World Collection) p i :
  getId p w = (Ok i, w1) ->
  store w1 = store w /\ heap w1 = heap w /\ tick w1 = tick w
  /\ env w1 = env w.
Proof.
  unfold getId, checkDuplicateId, bind, isEmpty_string.
  destruct (id p) as [s|]; [destruct (has_brace s);
    [destruct (json_parses (env w) s)|destruct (all_space s)]|];
    cbn [str]; try rewrite fs_findById_spec;
    try (destruct (head _));
    unfold createId, generate, ret, throw; intros [= <- <-] || intros [=];
    auto.
Qed.


End FirestoreFacts2.

(** batch guard *)
Section Guard.
Context {S : Type}.
Implicit Types (w : World S).

Lemma isEmpty_readable w i :
  readable_id (env w) i = true -> isEmpty_string i w = (Ok (omits_id i), w).
Proof.
  unfold readable_id, isEmpty_string, omits_id. destruct i as [s|]; [|reflexivity].
  destruct (has_brace s); [intros ->|]; reflexivity.
Qed.

Lemma mapM_deref w (l : list ref) : mapM deref l w = (Ok (obj w <$> l), w).
Proof.
  induction l as [|r l IH]; [reflexivity|].
  cbn [mapM]. unfold bind at 1. unfold deref at 1.
  unfold bind at 1. rewrite IH. reflexivity.
Qed.

Lemma filterM_pure {A} (f : A -> M (World S) bool) (g : A -> bool) l w :
  (forall x, In x l -> f x w = (Ok (g x), w)) ->
  filterM f l w = (Ok (List.filter g l), w).
Proof.
  induction l as [|x l IH]; intros H; [reflexivity|].
  cbn [filterM List.filter]. unfold bind at 1.
  rewrite (H x (or_introl eq_refl)). unfold bind at 1.
  rewrite IH by (intros y Hy; apply H; right; exact Hy).
  destruct (g x); reflexivity.
Qed.

Lemma filter_ids w (entities : list Entity) :
  Forall (fun e => readable_id (env w) (id e) = true) entities ->
  filterM (fun e => b <- isEmpty_string (id e) ;; ret (negb b)) entities w
  = (Ok (List.filter (fun e => negb (omits_id (id e))) entities), w).
Proof.
  intros H. apply filterM_pure. intros e He.
  rewrite Forall_forall in H. unfold bind.
  rewrite isEmpty_readable by (apply H, list_elem_of_In; exact He).
  reflexivity.
Qed.

Lemma getKey_given w e :
  omits_id (id e) = false -> getKey e w = (Ok (str (id e)), w).
Proof.
  unfold getKey, omits_id. destruct (id e) as [s|]; [|discriminate].
  destruct (decide (s = "")) as [->|]; [discriminate|reflexivity].
Qed.

Lemma unique_loop_pure w items map :
  Forall (fun e => omits_id (id e) = false) items ->
  unique_loop items map w = (Ok (assign_all items map), w).
Proof.
  revert map. induction items as [|e items IH]; intros map H; [reflexivity|].
  apply Forall_cons in H as [He H].
  cbn [unique_loop]. unfold bind. rewrite getKey_given by exact He.
  apply IH. exact H.
Qed.

Lemma length_map_set {A} k (x : A) m :
  length (map_set k x m) <= Datatypes.S (length m).
Proof.
  induction m as [|[k' y] m IH]; simpl; [lia|].
  destruct (decide (k' = k)); simpl; lia.
Qed.

Lemma length_map_set_in {A} k (x : A) m :
  In k (fst <$> m) -> length (map_set k x m) = length m.
Proof.
  induction m as [|[k' y] m IH]; simpl; [intros []|].
  destruct (decide (k' = k)); simpl; [reflexivity|].
  intros [?|H]; [congruence|]. rewrite IH by exact H. reflexivity.
Qed.

Lemma keys_map_set {A} k k' (x : A) m :
  In k (fst <$> m) -> In k (fst <$> map_set k' x m).
Proof.
  induction m as [|[k0 y] m IH]; simpl; [intros []|].
  destruct (decide (k0 = k')); simpl; intros [?|H]; auto.
Qed.

Lemma keys_map_set_self {A} k (x : A) m : In k (fst <$> map_set k x m).
Proof.
  induction m as [|[k0 y] m IH]; simpl; [auto|].
  destruct (decide (k0 = k)); simpl; auto.
Qed.

Lemma length_map_assign k (x : Entity) m :
  length (map_assign k x m) <= Datatypes.S (length m).
Proof.
  unfold map_assign. destruct (decide _); [lia|apply length_map_set].
Qed.

Lemma length_map_assign_settled k (x : Entity) m :
  settled k m -> length (map_assign k x m) = length m.
Proof.
  unfold map_assign, settled. destruct (decide _); [reflexivity|].
  intros [?|H]; [congruence|]. apply length_map_set_in. exact H.
Qed.

Lemma settled_map_assign k k' (x : Entity) m :
  settled k m -> settled k (map_assign k' x m).
Proof.
  unfold settled, map_assign. intros [?|H]; [left; assumption|].
  right. destruct (decide _); [exact H|]. apply keys_map_set. exact H.
Qed.

Lemma settled_map_assign_self k (x : Entity) m : settled k (map_assign k x m).
Proof.
  unfold settled, map_assign. destruct (decide _); [left; assumption|].
  right. apply keys_map_set_self.
Qed.

Lemma assign_all_app l1 l2 m :
  assign_all (l1 ++ l2) m = assign_all l2 (assign_all l1 m).
Proof. unfold assign_all. apply fold_left_app. Qed.

Lemma length_assign_all items m :
  length (assign_all items m) <= length m + length items.
Proof.
  revert m. induction items as [|e items IH]; intros m; simpl; [lia|].
  specialize (IH (map_assign (str (id e)) e m)).
  pose proof (length_map_assign (str (id e)) e m). unfold assign_all in *.
  lia.
Qed.

Lemma settled_assign_all k items m :
  settled k m -> settled k (assign_all items m).
Proof.
  revert m. induction items as [|e items IH]; intros m H; simpl; [exact H|].
  apply IH. apply settled_map_assign. exact H.
Qed.

Lemma length_assign_all_dup l1 a l2 b l3 m :
  str (id a) = str (id b) ->
  length (assign_all (l1 ++ a :: l2 ++ b :: l3) m)
  < length m + length (l1 ++ a :: l2 ++ b :: l3).
Proof.
  intros Hk. rewrite assign_all_app.
  change (a :: l2 ++ b :: l3)%list with ([a] ++ l2 ++ [b] ++ l3)%list.
  rewrite !assign_all_app. rewrite !length_app. cbn [length].
  set (m1 := assign_all l1 m).
  set (m2 := assign_all [a] m1).
  set (m3 := assign_all l2 m2).
  set (m4 := assign_all [b] m3).
  pose proof (length_assign_all l1 m) as H1. fold m1 in H1.
  pose proof (length_map_assign (str (id a)) a m1) as H2.
  change (map_assign (str (id a)) a m1) with m2 in H2.
  pose proof (length_assign_all l2 m2) as H3. fold m3 in H3.
  assert (H4 : length m4 = length m3).
  { apply length_map_assign_settled. rewrite <- Hk.
    apply settled_assign_all. apply settled_map_assign_self. }
  pose proof (length_assign_all l3 m4) as H5. lia.
Qed.

Lemma checkForDuplicates_rejects w (l1 : list Entity) a l2 b l3 :
  Forall (fun e => omits_id (id e) = false) (l1 ++ a :: l2 ++ b :: l3) ->
  str (id a) = str (id b) ->
  checkForDuplicates (l1 ++ a :: l2 ++ b :: l3) w
  = (Err InvalidRequestException, w).
Proof.
  intros Hf Hk. unfold checkForDuplicates, unique, bind.
  destruct (l1 ++ a :: l2 ++ b :: l3)%list as [|e0 rest] eqn:E.
  { destruct l1; discriminate. }
  rewrite <- E in *. rewrite unique_loop_pure by exact Hf.
  unfold ret. rewrite length_fmap.
  pose proof (length_assign_all_dup l1 a l2 b l3 [] Hk) as Hlt.
  cbn [length] in Hlt.
  destruct (Nat.eqb_spec (length (assign_all (l1 ++ a :: l2 ++ b :: l3) []))
                         (length (l1 ++ a :: l2 ++ b :: l3))) as [Heq|Hne];
    [lia|reflexivity].
Qed.



End Guard.

(** error avoidance *)
Section Avoid.
Context {W : Type} (bad : error).







End Avoid.

Section AvoidWorld.
Context {S : Type} (bad : error).




End AvoidWorld.



Section LocalBatch.
Import LocalStorageCrudRepository.








End LocalBatch.


Section MongoBatch.
Import MongoCrudRepository.





End MongoBatch.

Section FirestoreBatch.
Import FirestoreCrudRepository.





End FirestoreBatch.

(** query results *)
Lemma Sorted_fmap_impl {A B} (R1 : A -> A -> Prop) (R2 : B -> B -> Prop)
    (Q : A -> Prop) (f : A -> B) l :
  (forall a b, Q a -> Q b -> R1 a b -> R2 (f a) (f b)) ->
  Forall Q l -> Sorted R1 l -> Sorted R2 (f <$> l).
Proof.
  intros H HQ Hs. induction Hs as [|a l Hs IH Hd]; cbn; [constructor|].
  apply Forall_cons in HQ as [Ha HQ]. constructor; [apply IH; exact HQ|].
  destruct Hd as [|b l Hab]; cbn; constructor.
  apply Forall_cons in HQ as [Hb _]. apply H; assumption.
Qed.

Lemma filter_twice {A} (f g : A -> bool) l :
  List.filter f (List.filter g l) = List.filter (fun x => g x && f x) l.
Proof.
  induction l as [|x l IH]; [reflexivity|]. cbn [List.filter].
  destruct (g x); cbn [List.filter andb]; [|exact IH].
  destruct (f x); rewrite IH; reflexivity.
Qed.

Section MongoQuery.
Import MongoCrudRepository.

Lemma by_dateCreated_total a b :
  by_dateCreated a b = true \/ by_dateCreated b a = true.
Proof. apply desc_num_total. Qed.

Lemma mongo_or_matches flt d :
  matches (AndOf [("deleted", NeTrue)] OR
             (List.map (fun kv => [(fst kv, EqExists (snd kv))]) flt)) d
  = live (body d) && or_match docField flt d.
Proof.
  unfold matches, all_hold, live, or_match. cbn [forallb cond_holds fst snd].
  rewrite andb_true_r. f_equal.
  - unfold docField, getField. cbn.
    destruct (deleted (body d)) as [[]|]; reflexivity.
  - induction flt as [|kv flt IH]; [reflexivity|].
    cbn [List.map existsb forallb cond_holds fst snd].
    rewrite andb_true_r, IH. reflexivity.
Qed.

Lemma mongo_findAll_or (w : World Collection) (flt : Filter) o :
  logicalOperator o = Some OR -> flt <> [] ->
  exists res,
    findAll (Some flt) (Some o) w = (Ok res, w)
    /\ Permutation res
         (List.filter (fun d => live (body d) && or_match docField flt d)
                      (store w))
    /\ Sorted (fun a b => newer_or_same (body a) (body b)) res.
Proof.
  intros Ho Hne. unfold findAll, findBy, createFilter.
  cbn [mbind option_bind]. rewrite Ho. unfold bind.
  rewrite mongo_find_spec.
  2:{ cbn [well_formed]. apply negb_true_iff, bool_decide_eq_false.
      destruct flt; [congruence|discriminate]. }
  eexists. split; [reflexivity|]. split.
  - rewrite sort_by_perm.
    erewrite filter_ext; [reflexivity|]. intros d. apply mongo_or_matches.
  - apply (sort_by_sorted by_dateCreated by_dateCreated_total).
Qed.
End MongoQuery.

Section FirestoreQuery.
Import FirestoreCrudRepository.

Lemma newest_first_total a b :
  newest_first a b = true \/ newest_first b a = true.
Proof.
  unfold newest_first.
  destruct (dateCreated (snd a)) as [x|], (dateCreated (snd b)) as [y|]; auto.
  destruct (Z.leb_spec (y - x) 0), (Z.leb_spec (x - y) 0); auto; lia.
Qed.

Lemma newest_first_newer a b :
  is_Some (dateCreated (snd a)) -> is_Some (dateCreated (snd b)) ->
  newest_first a b = true -> newer_or_same (snd a) (snd b).
Proof.
  unfold newest_first, newer_or_same. intros [x ->] [y ->]. cbn.
  intros H. apply Z.leb_le in H.
  destruct (Z.compare_spec y x); cbn; auto; lia.
Qed.

Lemma fs_or_satisfies flt e :
  flt <> [] -> stamped_entity e ->
  satisfies (AndOr (WhereNotTrue "deleted")
               (List.map (fun kv => WhereEq (fst kv) (snd kv)) flt)) e
  && has_order_fields e
  = live e && or_match getField flt e.
Proof.
  intros Hne [[dl Hd] [dc Hc]]. unfold satisfies, has_order_fields.
  rewrite Hd, Hc. rewrite !bool_decide_eq_true_2 by eauto.
  rewrite andb_true_r.
  destruct (List.map _ flt) as [|c cs] eqn:E.
  { destruct flt; [congruence|discriminate]. }
  rewrite <- E. f_equal.
  - unfold holds, getField, live. cbn. rewrite Hd. destruct dl; reflexivity.
  - unfold or_match. clear. induction flt as [|kv flt IH]; [reflexivity|].
    cbn [List.map existsb holds]. rewrite IH. reflexivity.
Qed.

Lemma fs_findAll_or (w : World Collection) (flt : Filter) o :
  logicalOperator o = Some OR -> flt <> [] ->
  limit o = None \/ limit o = Some 0 ->
  Forall (fun d => stamped_entity (snd d)) (store w) ->
  exists res,
    findAll (Some flt) (Some o) w = (Ok res, w)
    /\ Permutation res
         (snd <$> List.filter
                    (fun d => live (snd d) && or_match getField flt (snd d))
                    (store w))
    /\ Sorted newer_or_same res.
Proof.
  intros Ho Hne Hl Hst.
  unfold findAll, _findBy, bind, getDocs, bind, getStore, ret.
  unfold createQuery, orderAndLimit. cbn [mbind option_bind].
  rewrite Ho. cbn [qfilter ordered qlimit].
  assert (match limit o with Some 0 | None => None | Some n => Some n end
          = @None nat) as -> by (destruct Hl as [-> | ->]; reflexivity).
  cbn [truncate].
  set (L := sort_by explicit_order _).
  assert (HL : Permutation L
            (List.filter
               (fun d => live (snd d) && or_match getField flt (snd d))
               (store w))).
  { unfold L. rewrite sort_by_perm. rewrite filter_twice.
    erewrite filter_ext_in; [reflexivity|]. intros d Hd. cbn beta.
    apply fs_or_satisfies; [exact Hne|].
    rewrite Forall_forall in Hst. apply Hst, list_elem_of_In. exact Hd. }
  assert (HQ : Forall (fun d => is_Some (dateCreated (snd d))) L).
  { apply Forall_forall. intros d Hd. apply list_elem_of_In in Hd.
    apply (Permutation_in d HL) in Hd. apply filter_In in Hd as [Hd _].
    rewrite Forall_forall in Hst. apply Hst, list_elem_of_In. exact Hd. }
  clearbody L. exists (snd <$> sort_by newest_first L). split; [|split].
  - destruct L; reflexivity.
  - rewrite <- HL. apply fmap_Permutation. apply sort_by_perm.
  - eapply Sorted_fmap_impl
      with (Q := fun d => is_Some (dateCreated (snd d)));
      [| |apply (sort_by_sorted newest_first newest_first_total)].
    + intros a b Ha Hb. apply newest_first_newer; assumption.
    + apply Forall_forall. intros d Hd. rewrite Forall_forall in HQ.
      apply HQ. apply list_elem_of_In. apply list_elem_of_In in Hd.
      apply (Permutation_in d (sort_by_perm newest_first L)). exact Hd.
Qed.
End FirestoreQuery.

Section TransactionFacts.
Import Transaction.
Context {S R E : Type}.
Implicit Types (driver : Driver E) (st : State S).

Lemma executeTransaction_started driver (body : Executor S R E) st :
  startSession_fails driver = None ->
  executeTransaction driver (Some body) st
  = let '(c, st1) := try_catch driver body (opened st) in
    on_finally driver c st1.
Proof. intros H. unfold executeTransaction. rewrite H. reflexivity. Qed.

Lemma on_finally_calls driver (c : completion R E) st :
  calls (snd (on_finally driver c st)) = (calls st ++ [EndSession])%list.
Proof.
  unfold on_finally. destruct (endSession_fails driver); reflexivity.
Qed.

Lemma try_catch_calls driver (body : Executor S R E) st :
  exists l, calls (snd (try_catch driver body st)) = (calls st ++ l)%list.
Proof.
  unfold try_catch, on_catch, record.
  destruct (body _) as [[r|e] data]; cbn [calls committed working];
    [destruct (commitTransaction_fails driver)|];
    destruct (abortTransaction_fails driver); cbn [snd calls];
    rewrite <- ?app_assoc; eexists; reflexivity.
Qed.

Lemma executeTransaction_ends driver (body : Executor S R E) st :
  startSession_fails driver = None ->
  exists l,
    calls (snd (executeTransaction driver (Some body) st))
    = (calls st ++ StartSession :: StartTransaction :: l ++ [EndSession])%list.
Proof.
  intros H. rewrite executeTransaction_started by exact H.
  destruct (try_catch_calls driver body (opened st)) as [l Hl].
  destruct (try_catch driver body (opened st)) as [c st1].
  rewrite on_finally_calls. cbn [snd] in Hl. rewrite Hl.
  exists l. unfold opened. cbn [calls]. rewrite <- !app_assoc. reflexivity.
Qed.

Lemma executeTransaction_success driver (body : Executor S R E) st r data :
  startSession_fails driver = None ->
  commitTransaction_fails driver = None ->
  endSession_fails driver = None ->
  body (committed st) = (inl r, data) ->
  executeTransaction driver (Some body) st
  = (Returned r,
     mkState data None
       (calls st ++ [StartSession; StartTransaction; RunExecutor;
                     CommitTransaction; EndSession])).
Proof.
  intros H1 H2 H3 Hb. rewrite executeTransaction_started by exact H1.
  unfold try_catch, opened, record, on_finally, record.
  cbn [committed working calls from_option Datatypes.id].
  rewrite Hb, H2, H3. cbn [committed working calls].
  rewrite <- !app_assoc. reflexivity.
Qed.

Lemma executeTransaction_failure driver (body : Executor S R E) st e data :
  startSession_fails driver = None ->
  abortTransaction_fails driver = None ->
  endSession_fails driver = None ->
  body (committed st) = (inr e, data) ->
  executeTransaction driver (Some body) st
  = (Thrown (Raised e),
     mkState (committed st) None
       (calls st ++ [StartSession; StartTransaction; RunExecutor;
                     AbortTransaction; EndSession])).
Proof.
  intros H1 H2 H3 Hb. rewrite executeTransaction_started by exact H1.
  unfold try_catch, opened, record, on_finally, on_catch, record.
  cbn [committed working calls from_option Datatypes.id].
  rewrite Hb, H2, H3. cbn [committed working calls].
  rewrite <- !app_assoc. reflexivity.
Qed.

End TransactionFacts.

(** ** From what a collection holds to what a lookup finds *)


Lemma fs_findById_exists (w : World (list (string * Entity))) k i d :
  In (i, d) (store w) -> deleted d = Some false -> id d = Some k ->
  exists rec, FirestoreCrudRepository.findById k w = (Ok (Some rec), w).
Proof.
  intros Hin Hd Hi. rewrite fs_findById_spec.
  destruct (head _) as [[j rec]|] eqn:Hh; [eexists; reflexivity|]. exfalso.
  assert (Hn : FirestoreCrudRepository.findById k w = (Ok None, w)).
  { rewrite fs_findById_spec, Hh. reflexivity. }
  apply (proj1 (fs_findById_None w k) Hn i d Hin). auto.
Qed.

Lemma stamp_changes c t p : stamp c t p <> p.
Proof.
  intros H. apply (f_equal version) in H. cbn in H.
  destruct (version p) as [v|]; cbn in H; [|discriminate].
  injection H as H. lia.
Qed.

(** ** A payload without an id gets the next generated id *)




(** ** What a duplicate-record rejection tells *)

Section Rejected.

Lemma local_getId_rejected (w w' : World (option (list (string * Entity)))) p e :
  LocalStorageCrudRepository.getId p w = (Err e, w') -> w' = w.
Proof.
  unfold LocalStorageCrudRepository.getId,
    LocalStorageCrudRepository.checkDuplicateId,
    LocalStorageCrudRepository.createId, bind, isEmpty_string, generate.
  destruct (id p) as [s|]; [|discriminate].
  destruct (has_brace s).
  - destruct (json_parses (env w) s); [|intros [= _ <-]; reflexivity].
    rewrite local_findById_spec.
    destruct (store w ≫= _); intros [= _ <-]; reflexivity.
  - destruct (all_space s); [discriminate|].
    rewrite local_findById_spec.
    destruct (store w ≫= _); intros [= _ <-]; reflexivity.
Qed.

Lemma mongo_getId_rejected (w w' : World (list MongoCrudRepository.Doc)) p e :
  MongoCrudRepository.getId p w = (Err e, w') -> w' = w.
Proof.
  unfold MongoCrudRepository.getId, MongoCrudRepository.checkDuplicateId,
    MongoCrudRepository.createId, bind, isEmpty_string, generate.
  destruct (id p) as [s|]; [|discriminate].
  destruct (has_brace s).
  - destruct (json_parses (env w) s); [|intros [= _ <-]; reflexivity].
    rewrite mongo_findById_spec.
    destruct (head _); intros [= _ <-]; reflexivity.
  - destruct (all_space s); [discriminate|].
    rewrite mongo_findById_spec.
    destruct (head _); intros [= _ <-]; reflexivity.
Qed.

Lemma fs_getId_rejected (w w' : World (list (string * Entity))) p e :
  FirestoreCrudRepository.getId p w = (Err e, w') -> w' = w.
Proof.
  unfold FirestoreCrudRepository.getId,
    FirestoreCrudRepository.checkDuplicateId,
    FirestoreCrudRepository.createId, bind, isEmpty_string, generate.
  destruct (id p) as [s|]; [|discriminate].
  destruct (has_brace s).
  - destruct (json_parses (env w) s); [|intros [= _ <-]; reflexivity].
    rewrite fs_findById_spec.
    destruct (head _); intros [= _ <-]; reflexivity.
  - destruct (all_space s); [discriminate|].
    rewrite fs_findById_spec.
    destruct (head _); intros [= _ <-]; reflexivity.
Qed.

Lemma local_create_rejected
    (w w' : World (option (list (string * Entity)))) r p :
  heap w !! r = Some p ->
  LocalStorageCrudRepository.create r w = (Err DuplicateRecordException, w') ->
  w' = w.
Proof.
  intros Hh. unfold LocalStorageCrudRepository.create, bind, deref at 1.
  rewrite Hh. cbn [default from_option Datatypes.id].
  destruct (LocalStorageCrudRepository.getId p w) as [[i|e] w1] eqn:Hg.
  - destruct (local_getId_frame w w1 p i Hg) as (_ & Hheap & _).
    rewrite (local_create_resume_spec w1 r p i) by (rewrite Hheap; exact Hh).
    discriminate.
  - intros [= _ <-]. exact (local_getId_rejected _ _ _ _ Hg).
Qed.

Lemma mongo_create_rejected
    (w w' : World (list MongoCrudRepository.Doc)) r p :
  heap w !! r = Some p ->
  MongoCrudRepository.create r w = (Err DuplicateRecordException, w') ->
  w' = mkWorld (store w) (<[r := stamp (clock (env w)) (tick w) p]> (heap w))
               (stamp_ticks p + tick w) (nid w) (env w).
Proof.
  intros Hh. unfold MongoCrudRepository.create.
  destruct (updatePayload_at_spec w r p Hh) as [H1 H2].
  unfold bind. rewrite H1, H2.
  destruct (MongoCrudRepository.getId _ _) as [[i|e] w1] eqn:Hg.
  - unfold MongoCrudRepository.save, bind, getStore, putStore, throw, ret.
    destruct (existsb _ _); discriminate.
  - intros [= _ <-]. exact (mongo_getId_rejected _ _ _ _ Hg).
Qed.

Lemma fs_create_rejected (w w' : World (list (string * Entity))) r p :
  heap w !! r = Some p ->
  FirestoreCrudRepository.create r w = (Err DuplicateRecordException, w') ->
  w' = mkWorld (store w) (<[r := stamp (clock (env w)) (tick w) p]> (heap w))
               (stamp_ticks p + tick w) (nid w) (env w).
Proof.
  intros Hh. unfold FirestoreCrudRepository.create.
  destruct (updatePayload_at_spec w r p Hh) as [H1 H2].
  unfold bind. rewrite H1, H2.
  destruct (FirestoreCrudRepository.getId _ _) as [[i|e] w1] eqn:Hg.
  - unfold FirestoreCrudRepository.setDoc, assign, deref, bind, getStore,
      putStore, ret. discriminate.
  - intros [= _ <-]. exact (fs_getId_rejected _ _ _ _ Hg).
Qed.

End Rejected.

(** ** The ids that [isEmpty] reads as filled *)

Lemma usable_id_isEmpty {S} (w : World S) k :
  usable_id (env w) k = true <-> isEmpty_string (Some k) w = (Ok false, w).
Proof.
  unfold usable_id, isEmpty_string. destruct (has_brace k).
  - destruct (json_parses (env w) k); split; (reflexivity || discriminate).
  - destruct (all_space k); split; (reflexivity || discriminate).
Qed.

Lemma omits_id_isEmpty {S} (w : World S) i :
  omits_id i = true <-> isEmpty_string i w = (Ok true, w).
Proof.
  unfold omits_id, isEmpty_string. destruct i as [s|]; [|split; reflexivity].
  destruct (has_brace s); cbn [negb andb].
  - destruct (json_parses (env w) s); split; discriminate.
  - destruct (all_space s); split; (reflexivity || discriminate).
Qed.

(** White space beyond ASCII is white space to [isEmpty], alone and among
    blanks, so an id made of it counts as no id; the characters [trim]
    leaves in place make an id. *)
Lemma all_space_unicode_spaces :
  Forall (fun s => all_space s = true
                   /\ all_space (" " ++ s ++ " ") = true
                   /\ omits_id (Some s) = true
                   /\ forall e, usable_id e s = false) unicode_spaces
  /\ Forall (fun s => all_space s = false
                      /\ forall e, usable_id e s = true) unicode_marks.
Proof.
  split; repeat constructor.
Qed.

(** * The claims *)

(** C1 (the code departs from the claim).  The stored version is to grow by
    one on every successful update.  On the cloud document store an update
    under optimistic locking, whose payload has to carry the stored version,
    returns [true] and leaves the stored version where it was: the record is
    stamped first and the payload is spread over the stamp.  The same call
    on the document database and on local storage stores the next
    version. *)
Theorem C1_firestore_update_keeps_the_callers_version :
  let opts := Some optimisticLocking in
  fst (FirestoreCrudRepository.update "k1" rename opts firestoreDemo) = Ok true
  /\ version <$> map_get "k1" (store firestoreDemo) = Some (Some 1%Z)
  /\ version <$> map_get "k1"
       (store (after (FirestoreCrudRepository.update "k1" rename opts)
                     firestoreDemo))
     = Some (Some 1%Z)
  /\ (fun d => version (MongoCrudRepository.body d))
       <$> head (store (after (MongoCrudRepository.update "k1"
                                 (MongoCrudRepository.mkDoc None rename) opts)
                              mongoDemo))
     = Some (Some 2%Z)
  /\ version <$> (store (after (LocalStorageCrudRepository.update "k1" rename
                                  opts) localDemo)
                  ≫= map_get "k1:false")
     = Some (Some 2%Z).
Proof. vm_compute. repeat split. Qed.

(** C2 (the code departs from the claim).  [findAll] without a filter is to
    return every record that is not deleted, newest first.  On local storage
    it returns the empty list whatever the storage holds: the filter
    defaults to [{}], and the scan runs once per key of the filter.  After
    the three creates of the scenario the document database and the cloud
    store answer B, A, C; local storage holds the three records and answers
    nothing. *)
Theorem C2_local_findAll_without_filter_returns_nothing :
  (forall (w : World (option (list (string * Entity)))) o,
      LocalStorageCrudRepository.findAll None o w = (Ok [], w))
  /\ names (snd <$> default [] (store localScenario))
     = [Some (VStr "A"); Some (VStr "B"); Some (VStr "C")]
  /\ fst (LocalStorageCrudRepository.findAll None None localScenario) = Ok []
  /\ names (MongoCrudRepository.body
              <$> match fst (MongoCrudRepository.findAll None None
                               mongoScenario) with
                  | Ok l => l
                  | Err _ => []
                  end)
     = [Some (VStr "B"); Some (VStr "A"); Some (VStr "C")]
  /\ names match fst (FirestoreCrudRepository.findAll None None
                        firestoreScenario) with
           | Ok l => l
           | Err _ => []
           end
     = [Some (VStr "B"); Some (VStr "A"); Some (VStr "C")].
Proof.
  split; [exact local_findAll_no_filter|]. vm_compute. repeat split.
Qed.

(** C3 as stated fails on local storage: with the filter
    [{ email: 'a@x', name: 'A' }] and [OR], alice, who matches both fields,
    is listed twice, and she stands before bob, who was created later. *)
Lemma C3_local_or_lists_a_record_twice_in_storage_order :
  exists res,
    fst (LocalStorageCrudRepository.findAll (Some emailOrName) (Some anyOf)
           localDemo) = Ok res
    /\ res = [alice; alice; bob]
    /\ ~ NoDup res
    /\ ~ Sorted newer_or_same res.
Proof.
  exists [alice; alice; bob]. split; [vm_compute; reflexivity|].
  split; [reflexivity|]. split.
  - intros H. apply NoDup_cons in H as [H _]. apply H. left.
  - intros H. inversion H as [|? ? H1 _]. subst.
    inversion H1 as [|? ? _ H2]. subst.
    inversion H2 as [|? ? H3]. subst. vm_compute in H3. discriminate.
Qed.

(** C3 (amended).  With a filter that is not empty and [logicalOperator]
    [OR], [findAll] on the document database and on the cloud document store
    returns the records that are not deleted and equal the filter at one of
    its fields at least, each as often as the collection holds it, newest
    first (on the cloud store for stamped documents and without a limit).
    On local storage the result has exactly these records as members. *)
Theorem C3_or_filter_results
    (flt : Filter) (o : QueryOptions)
    (wm : World (list MongoCrudRepository.Doc))
    (wf : World (list (string * Entity)))
    (wl : World (option (list (string * Entity)))) :
  logicalOperator o = Some OR -> flt <> [] ->
  limit o = None \/ limit o = Some 0 ->
  Forall (fun d => stamped_entity (snd d)) (store wf) ->
  (exists res,
      MongoCrudRepository.findAll (Some flt) (Some o) wm = (Ok res, wm)
      /\ Permutation res
           (List.filter
              (fun d => live (MongoCrudRepository.body d)
                        && or_match MongoCrudRepository.docField flt d)
              (store wm))
      /\ Sorted (fun a b => newer_or_same (MongoCrudRepository.body a)
                                          (MongoCrudRepository.body b)) res)
  /\ (exists res,
      FirestoreCrudRepository.findAll (Some flt) (Some o) wf = (Ok res, wf)
      /\ Permutation res
           (snd <$> List.filter
                      (fun d => live (snd d)
                                && or_match getField flt (snd d))
                      (store wf))
      /\ Sorted newer_or_same res)
  /\ (exists res,
      LocalStorageCrudRepository.findAll (Some flt) (Some o) wl
      = (Ok res, wl)
      /\ forall x, In x res <->
           exists object key, store wl = Some object /\ In (key, x) object
             /\ live x = true /\ or_match getField flt x = true).
Proof.
  intros Ho Hne Hl Hst. split; [|split].
  - apply mongo_findAll_or; assumption.
  - apply fs_findAll_or; assumption.
  - destruct (local_findAll_ok wl (Some flt) (Some o)) as [res Hres].
    exists res. split; [exact Hres|]. intros x.
    rewrite (local_findAll_In _ _ _ _ x Hres). unfold live, or_match.
    split.
    + intros (object & key & Hs & Hin & Hd & kv & Hkv & Hg).
      exists object, key. repeat split; try assumption.
      * apply negb_true_iff, bool_decide_eq_false. exact Hd.
      * apply existsb_exists. exists kv. split; [exact Hkv|].
        apply bool_decide_eq_true. exact Hg.
    + intros (object & key & Hs & Hin & Hd & Hm).
      exists object, key. repeat split; try assumption.
      * apply negb_true_iff, bool_decide_eq_false in Hd. exact Hd.
      * apply existsb_exists in Hm as (kv & Hkv & Hg). exists kv.
        split; [exact Hkv|]. apply bool_decide_eq_true in Hg. exact Hg.
Qed.

Lemma C3_or_filter_results_witness :
  (exists res,
      MongoCrudRepository.findAll (Some emailOrName) (Some anyOf) mongoDemo
      = (Ok res, mongoDemo)
      /\ Permutation res
           (List.filter
              (fun d => live (MongoCrudRepository.body d)
                        && or_match MongoCrudRepository.docField
                                    emailOrName d)
              (store mongoDemo))
      /\ Sorted (fun a b => newer_or_same (MongoCrudRepository.body a)
                                          (MongoCrudRepository.body b)) res)
  /\ (exists res,
      FirestoreCrudRepository.findAll (Some emailOrName) (Some anyOf)
        firestoreDemo = (Ok res, firestoreDemo)
      /\ Permutation res
           (snd <$> List.filter
                      (fun d => live (snd d)
                                && or_match getField emailOrName (snd d))
                      (store firestoreDemo))
      /\ Sorted newer_or_same res)
  /\ (exists res,
      LocalStorageCrudRepository.findAll (Some emailOrName) (Some anyOf)
        localDemo = (Ok res, localDemo)
      /\ forall x, In x res <->
           exists object key,
             store localDemo = Some object /\ In (key, x) object
             /\ live x = true /\ or_match getField emailOrName x = true).
Proof.
  apply (C3_or_filter_results emailOrName anyOf mongoDemo firestoreDemo
           localDemo).
  - reflexivity.
  - discriminate.
  - left. reflexivity.
  - repeat constructor; vm_compute; eauto.
Defined.

(** C4.  On each adapter, when [findById] resolves the id to a record at
    one version and the payload carries another (or none), [update] with
    optimistic locking rejects with the optimistic-lock error and leaves
    the world, the collection included, as it was. *)
Theorem C4_optimistic_lock_mismatch_rejects_without_write
    (k : string) (o : QueryOptions)
    (wl : World (option (list (string * Entity)))) (rl pl : Entity)
    (wm : World (list MongoCrudRepository.Doc))
    (rm pm : MongoCrudRepository.Doc)
    (wf : World (list (string * Entity))) (rf pf : Entity) :
  locking o = Some optimistic ->
  LocalStorageCrudRepository.findById k wl = (Ok (Some rl), wl) ->
  version pl <> version rl ->
  MongoCrudRepository.findById k wm = (Ok (Some rm), wm) ->
  version (MongoCrudRepository.body pm)
    <> version (MongoCrudRepository.body rm) ->
  FirestoreCrudRepository.findById k wf = (Ok (Some rf), wf) ->
  version pf <> version rf ->
  LocalStorageCrudRepository.update k pl (Some o) wl
    = (Err OptimisticLockException, wl)
  /\ MongoCrudRepository.update k pm (Some o) wm
     = (Err OptimisticLockException, wm)
  /\ FirestoreCrudRepository.update k pf (Some o) wf
     = (Err OptimisticLockException, wf).
Proof.
  intros Ho Hl Hvl Hm Hvm Hf Hvf. split; [|split].
  - eapply local_update_locked; eassumption.
  - eapply mongo_update_locked; eassumption.
  - eapply fs_update_locked; eassumption.
Qed.

Lemma C4_optimistic_lock_mismatch_witness :
  LocalStorageCrudRepository.update "k1" stale (Some optimisticLocking)
    localDemo = (Err OptimisticLockException, localDemo)
  /\ MongoCrudRepository.update "k1" (MongoCrudRepository.mkDoc None stale)
       (Some optimisticLocking) mongoDemo
     = (Err OptimisticLockException, mongoDemo)
  /\ FirestoreCrudRepository.update "k1" stale (Some optimisticLocking)
       firestoreDemo = (Err OptimisticLockException, firestoreDemo).
Proof.
  apply (C4_optimistic_lock_mismatch_rejects_without_write
           "k1" optimisticLocking localDemo alice stale
           mongoDemo (MongoCrudRepository.mkDoc (Some "k1") alice)
           (MongoCrudRepository.mkDoc None stale)
           firestoreDemo alice stale);
    try reflexivity; discriminate.
Defined.







(** C7, as the claim reads, fails where two records answer to one id.
    [update('k2', { id: 'k1', name: 'A' })] returns true on the document
    database and on the cloud store and leaves a second record with the id
    [k1].  After that [remove('k1')] returns true, with the default options
    and with [softDelete: false] alike, and [findById('k1')] is not empty:
    it finds the other record, which is not deleted.  On the local adapter
    an entry under ["k1:false"] that carries another id is marked where it
    is: [remove('k1')] returns true, [findById('k1')] still finds the
    record, now deleted, and nothing is stored under ["k1:true"]. *)
Lemma C7_remove_leaves_a_second_record_with_the_id :
  (MongoCrudRepository.update "k2" (MongoCrudRepository.mkDoc None again)
     None mongoDemo = (Ok true, mongoShared)
   /\ (exists w' r',
         MongoCrudRepository.remove "k1" None mongoShared = (Ok true, w')
         /\ MongoCrudRepository.findById "k1" w' = (Ok (Some r'), w')
         /\ deleted (MongoCrudRepository.body r') = Some false)
   /\ (exists w' r',
         MongoCrudRepository.remove "k1" (Some hardRemoval) mongoShared
         = (Ok true, w')
         /\ MongoCrudRepository.findById "k1" w' = (Ok (Some r'), w')))
  /\ (FirestoreCrudRepository.update "k2" again None firestoreDemo
      = (Ok true, firestoreShared)
      /\ (exists w' r',
            FirestoreCrudRepository.remove "k1" None firestoreShared
            = (Ok true, w')
            /\ FirestoreCrudRepository.findById "k1" w' = (Ok (Some r'), w')
            /\ deleted r' = Some false)
      /\ (exists w' r',
            FirestoreCrudRepository.remove "k1" (Some hardRemoval)
              firestoreShared = (Ok true, w')
            /\ FirestoreCrudRepository.findById "k1" w'
               = (Ok (Some r'), w')))
  /\ (LocalStorageCrudRepository.findById "k1" localMisfiled
      = (Ok (Some bob), localMisfiled)
      /\ id bob = Some "k2"
      /\ exists w' object' r',
           LocalStorageCrudRepository.remove "k1" None localMisfiled
           = (Ok true, w')
           /\ LocalStorageCrudRepository.findById "k1" w' = (Ok (Some r'), w')
           /\ deleted r' = Some true
           /\ store w' = Some object'
           /\ map_get "k1:true" object' = None).
Proof.
  split; [|split].
  - split; [vm_compute; reflexivity|]. split.
    + eexists. eexists. split; [vm_compute; reflexivity|].
      split; vm_compute; reflexivity.
    + eexists. eexists. split; vm_compute; reflexivity.
  - split; [vm_compute; reflexivity|]. split.
    + eexists. eexists. split; [vm_compute; reflexivity|].
      split; vm_compute; reflexivity.
    + eexists. eexists. split; vm_compute; reflexivity.
  - split; [reflexivity|]. split; [reflexivity|].
    eexists. eexists. eexists. split; [vm_compute; reflexivity|].
    split; [vm_compute; reflexivity|]. split; [reflexivity|].
    split; reflexivity.
Qed.

(** C7, amended.  The record with the id [k] is found on each adapter, in a
    collection that files each record under its own id: on the document
    database every [_id] is held once and is the [id] of its document, on
    the cloud store every document id is held once and is the [id] of its
    data, and on the local adapter the record found carries the id [k].
    [remove k] without options returns true; afterwards [findById k] is
    empty and [findAll] without filter and options (on the local adapter
    with any filter and options) does not list the record, yet the store
    still holds it, marked as deleted (on the local adapter under the key
    [k ++ ":true"]).  [remove k] with [softDelete: false] returns true;
    afterwards [findById k] is empty and the store holds nothing for the
    record. *)
Theorem C7_soft_remove_hides_and_hard_remove_erases
    (k : string)
    (wl : World (option (list (string * Entity)))) (rl : Entity)
    (wm : World (list MongoCrudRepository.Doc)) (rm : MongoCrudRepository.Doc)
    (wf : World (list (string * Entity))) (rf : Entity) :
  LocalStorageCrudRepository.findById k wl = (Ok (Some rl), wl) ->
  id rl = Some k ->
  keyed_mongo (store wm) ->
  MongoCrudRepository.findById k wm = (Ok (Some rm), wm) ->
  keyed_fs (store wf) ->
  FirestoreCrudRepository.findById k wf = (Ok (Some rf), wf) ->
  (exists w' object' r',
     LocalStorageCrudRepository.remove k None wl = (Ok true, w')
     /\ LocalStorageCrudRepository.findById k w' = (Ok None, w')
     /\ (forall flt o, exists res,
           LocalStorageCrudRepository.findAll flt o w' = (Ok res, w')
           /\ ~ In r' res)
     /\ store w' = Some object'
     /\ map_get (k ++ ":true") object' = Some r'
     /\ deleted r' = Some true /\ id r' = Some k /\ fields r' = fields rl)
  /\ (exists w' r',
        MongoCrudRepository.remove k None wm = (Ok true, w')
        /\ MongoCrudRepository.findById k w' = (Ok None, w')
        /\ (exists res,
              MongoCrudRepository.findAll None None w' = (Ok res, w')
              /\ ~ In r' res)
        /\ In r' (store w')
        /\ MongoCrudRepository._id r' = MongoCrudRepository._id rm
        /\ deleted (MongoCrudRepository.body r') = Some true)
  /\ (exists w' r',
        FirestoreCrudRepository.remove k None wf = (Ok true, w')
        /\ FirestoreCrudRepository.findById k w' = (Ok None, w')
        /\ (exists res,
              FirestoreCrudRepository.findAll None None w' = (Ok res, w')
              /\ ~ In r' res)
        /\ map_get k (store w') = Some r'
        /\ deleted r' = Some true)
  /\ (exists w' object',
        LocalStorageCrudRepository.remove k (Some hardRemoval) wl
        = (Ok true, w')
        /\ LocalStorageCrudRepository.findById k w' = (Ok None, w')
        /\ store w' = Some object'
        /\ forall x, ~ In (k ++ ":false", x) object')
  /\ (exists w',
        MongoCrudRepository.remove k (Some hardRemoval) wm = (Ok true, w')
        /\ MongoCrudRepository.findById k w' = (Ok None, w')
        /\ ~ In rm (store w'))
  /\ (exists w',
        FirestoreCrudRepository.remove k (Some hardRemoval) wf = (Ok true, w')
        /\ FirestoreCrudRepository.findById k w' = (Ok None, w')
        /\ forall x, ~ In (k, x) (store w')).
Proof.
  intros Hl Hil Hkm Hm Hkf Hf.
  split; [|split; [|split; [|split; [|split]]]].
  - destruct (local_soft_remove wl k rl Hl Hil)
      as (w' & object' & r' & H1 & H2 & H3 & H4 & H5 & H6 & H7 & H8 & _).
    exists w', object', r'. auto 10.
  - destruct (mongo_soft_remove wm k rm Hkm Hm)
      as (w' & r' & H1 & H2 & H3 & H4 & H5 & H6 & _).
    exists w', r'. auto 10.
  - destruct (fs_soft_remove wf k rf Hkf Hf)
      as (w' & r' & H1 & H2 & H3 & H4 & H5 & _).
    exists w', r'. auto 10.
  - destruct (local_hard_remove wl k rl Hl)
      as (w' & object' & H1 & H2 & H3 & _ & H5).
    exists w', object'. auto 10.
  - destruct (mongo_hard_remove wm k rm Hkm Hm) as (w' & H1 & H2 & H3).
    exists w'. auto.
  - destruct (fs_hard_remove wf k rf Hkf Hf) as (w' & H1 & H2 & _ & H4).
    exists w'. auto.
Qed.

Lemma C7_soft_remove_hides_and_hard_remove_erases_witness :
  (exists w' object' r',
     LocalStorageCrudRepository.remove "k1" None localDemo = (Ok true, w')
     /\ LocalStorageCrudRepository.findById "k1" w' = (Ok None, w')
     /\ store w' = Some object'
     /\ map_get "k1:true" object' = Some r'
     /\ deleted r' = Some true)
  /\ (exists w' r',
        MongoCrudRepository.remove "k1" None mongoDemo = (Ok true, w')
        /\ MongoCrudRepository.findById "k1" w' = (Ok None, w')
        /\ In r' (store w')
        /\ deleted (MongoCrudRepository.body r') = Some true)
  /\ (exists w' r',
        FirestoreCrudRepository.remove "k1" None firestoreDemo = (Ok true, w')
        /\ FirestoreCrudRepository.findById "k1" w' = (Ok None, w')
        /\ map_get "k1" (store w') = Some r'
        /\ deleted r' = Some true)
  /\ (exists w',
        LocalStorageCrudRepository.remove "k1" (Some hardRemoval) localDemo
        = (Ok true, w')
        /\ LocalStorageCrudRepository.findById "k1" w' = (Ok None, w'))
  /\ (exists w',
        MongoCrudRepository.remove "k1" (Some hardRemoval) mongoDemo
        = (Ok true, w')
        /\ MongoCrudRepository.findById "k1" w' = (Ok None, w'))
  /\ (exists w',
        FirestoreCrudRepository.remove "k1" (Some hardRemoval) firestoreDemo
        = (Ok true, w')
        /\ FirestoreCrudRepository.findById "k1" w' = (Ok None, w')).
Proof.
  destruct (C7_soft_remove_hides_and_hard_remove_erases "k1"
              localDemo alice mongoDemo
              (MongoCrudRepository.mkDoc (Some "k1") alice)
              firestoreDemo alice)
    as (A & B & C & D & E & F).
  - reflexivity.
  - reflexivity.
  - split; [|repeat constructor].
    apply (bool_decide_unpack _). vm_compute. exact I.
  - reflexivity.
  - split; [|repeat constructor].
    apply (bool_decide_unpack _). vm_compute. exact I.
  - reflexivity.
  - destruct A as (w' & object' & r' & H1 & H2 & _ & H4 & H5 & H6 & _).
    destruct B as (wb & rb & B1 & B2 & _ & B4 & _ & B6).
    destruct C as (wc & rc & C1 & C2 & _ & C4 & C5).
    destruct D as (wd & od & D1 & D2 & _).
    destruct E as (we & E1 & E2 & _).
    destruct F as (wg & F1 & F2 & _).
    split; [exists w', object', r'; auto|].
    split; [exists wb, rb; auto|].
    split; [exists wc, rc; auto|].
    split; [exists wd; auto|].
    split; [exists we; auto|exists wg; auto].
Defined.

(** C8.  A session that starts.  On every path [endSession] is the last
    call of [executeTransaction], whatever fails in between.  When the
    executor returns, and the driver commits and ends the session,
    [executeTransaction] returns the executor's result with the executor's
    writes committed; when the executor throws, and the driver aborts and
    ends the session, [executeTransaction] throws that same error with the
    data as they were, having called [abortTransaction]. *)
Theorem C8_executeTransaction_commits_aborts_and_ends_the_session
    {S R E : Type} (driver : Transaction.Driver E)
    (body : Transaction.Executor S R E) (st : Transaction.State S) :
  Transaction.startSession_fails driver = None ->
  (exists l,
     Transaction.calls
       (snd (Transaction.executeTransaction driver (Some body) st))
     = (Transaction.calls st
          ++ Transaction.StartSession :: Transaction.StartTransaction
             :: l ++ [Transaction.EndSession])%list)
  /\ (forall r data,
        Transaction.commitTransaction_fails driver = None ->
        Transaction.endSession_fails driver = None ->
        body (Transaction.committed st) = (inl r, data) ->
        Transaction.executeTransaction driver (Some body) st
        = (Transaction.Returned r,
           Transaction.mkState data None
             (Transaction.calls st
                ++ [Transaction.StartSession; Transaction.StartTransaction;
                    Transaction.RunExecutor; Transaction.CommitTransaction;
                    Transaction.EndSession])))
  /\ (forall e data,
        Transaction.abortTransaction_fails driver = None ->
        Transaction.endSession_fails driver = None ->
        body (Transaction.committed st) = (inr e, data) ->
        Transaction.executeTransaction driver (Some body) st
        = (Transaction.Thrown (Transaction.Raised e),
           Transaction.mkState (Transaction.committed st) None
             (Transaction.calls st
                ++ [Transaction.StartSession; Transaction.StartTransaction;
                    Transaction.RunExecutor; Transaction.AbortTransaction;
                    Transaction.EndSession]))).
Proof.
  intros Hs. split; [|split].
  - apply executeTransaction_ends. exact Hs.
  - intros r data Hc He Hb. apply executeTransaction_success; assumption.
  - intros e data Ha He Hb. apply executeTransaction_failure with (data := data);
      assumption.
Qed.

Lemma C8_executeTransaction_witness :
  Transaction.executeTransaction soundDriver (Some (storing 3)) idle
  = (Transaction.Returned 3,
     Transaction.mkState [3; 7] None
       [Transaction.StartSession; Transaction.StartTransaction;
        Transaction.RunExecutor; Transaction.CommitTransaction;
        Transaction.EndSession])
  /\ Transaction.executeTransaction soundDriver (Some (failing 3)) idle
     = (Transaction.Thrown (Transaction.Raised "duplicate"),
        Transaction.mkState [7] None
          [Transaction.StartSession; Transaction.StartTransaction;
           Transaction.RunExecutor; Transaction.AbortTransaction;
           Transaction.EndSession]).
Proof.
  split.
  - exact (proj1 (proj2
      (C8_executeTransaction_commits_aborts_and_ends_the_session
         soundDriver (storing 3) idle eq_refl))
      3 [3; 7] eq_refl eq_refl eq_refl).
  - exact (proj2 (proj2
      (C8_executeTransaction_commits_aborts_and_ends_the_session
         soundDriver (failing 3) idle eq_refl))
      "duplicate" [3; 7] eq_refl eq_refl eq_refl).
Defined.




(** C10.  An object of the caller is handed to [create].  Whenever
    [create] rejects with the duplicate-record error on the document
    database or on the cloud store, the collection is the one there was and
    the caller's object is not: it now carries the stamp of
    [updatePayload].  Whenever [create] rejects with that error on the
    local adapter, nothing changed, the caller's object included.  And
    [create] does reject with that error on each adapter when the object
    carries an id that [isEmpty] reads as filled and [findById] finds a
    record under that id. *)
Theorem C10_create_stamps_before_the_duplicate_check
    (h : list Entity) (e : Env) (t n : nat)
    (sl : option (list (string * Entity)))
    (sm : list MongoCrudRepository.Doc) (sf : list (string * Entity))
    (r : ref) (p : Entity) :
  let wl := mkWorld sl h t n e in
  let wm := mkWorld sm h t n e in
  let wf := mkWorld sf h t n e in
  h !! r = Some p ->
  (forall w',
     MongoCrudRepository.create r wm = (Err DuplicateRecordException, w') ->
     store w' = sm
     /\ heap w' !! r = Some (stamp (clock e) t p)
     /\ heap w' !! r <> h !! r)
  /\ (forall w',
        FirestoreCrudRepository.create r wf
        = (Err DuplicateRecordException, w') ->
        store w' = sf
        /\ heap w' !! r = Some (stamp (clock e) t p)
        /\ heap w' !! r <> h !! r)
  /\ (forall w',
        LocalStorageCrudRepository.create r wl
        = (Err DuplicateRecordException, w') ->
        w' = wl)
  /\ (forall k, id p = Some k -> usable_id e k = true ->
        (forall rm, MongoCrudRepository.findById k wm = (Ok (Some rm), wm) ->
           fst (MongoCrudRepository.create r wm)
           = Err DuplicateRecordException)
        /\ (forall rf,
              FirestoreCrudRepository.findById k wf = (Ok (Some rf), wf) ->
              fst (FirestoreCrudRepository.create r wf)
              = Err DuplicateRecordException)
        /\ (forall rl,
              LocalStorageCrudRepository.findById k wl = (Ok (Some rl), wl) ->
              fst (LocalStorageCrudRepository.create r wl)
              = Err DuplicateRecordException)).
Proof.
  intros wl wm wf Hh.
  assert (Hnew : <[r := stamp (clock e) t p]> h !! r
                 = Some (stamp (clock e) t p)).
  { apply list_lookup_insert_eq. eapply lookup_lt_Some. exact Hh. }
  assert (Hne : <[r := stamp (clock e) t p]> h !! r <> h !! r).
  { rewrite Hnew, Hh. intros [= Heq]. exact (stamp_changes _ _ _ Heq). }
  split; [|split; [|split]].
  - intros w' Hc. rewrite (mongo_create_rejected wm w' r p Hh Hc).
    cbn [store heap wm env tick]. auto.
  - intros w' Hc. rewrite (fs_create_rejected wf w' r p Hh Hc).
    cbn [store heap wf env tick]. auto.
  - intros w' Hc. exact (local_create_rejected wl w' r p Hh Hc).
  - intros k Hi Hu. split; [|split].
    + intros rm Hm.
      rewrite (mongo_create_duplicate wm r p k rm Hh Hi Hu Hm). reflexivity.
    + intros rf Hf.
      rewrite (fs_create_duplicate wf r p k rf Hh Hi Hu Hf). reflexivity.
    + intros rl Hl.
      rewrite (local_create_duplicate wl r p k rl Hh Hi Hu Hl). reflexivity.
Qed.

Lemma C10_create_stamps_before_the_duplicate_check_witness :
  (exists w',
     MongoCrudRepository.create 1 mongoDemo
     = (Err DuplicateRecordException, w')
     /\ store w' = store mongoDemo
     /\ heap w' !! 1 = Some (stamp (clock demoEnv) 0 again)
     /\ heap w' !! 1 <> demoHeap !! 1)
  /\ (exists w',
        FirestoreCrudRepository.create 1 firestoreDemo
        = (Err DuplicateRecordException, w')
        /\ store w' = store firestoreDemo
        /\ heap w' !! 1 = Some (stamp (clock demoEnv) 0 again)
        /\ heap w' !! 1 <> demoHeap !! 1)
  /\ LocalStorageCrudRepository.create 1 localDemo
     = (Err DuplicateRecordException, localDemo).
Proof.
  destruct (C10_create_stamps_before_the_duplicate_check demoHeap demoEnv 0 0
              (store localDemo) (store mongoDemo) (store firestoreDemo)
              1 again eq_refl)
    as (A & B & C & D).
  destruct (D "k1" eq_refl eq_refl) as (Dm & Df & Dl).
  specialize (Dm (MongoCrudRepository.mkDoc (Some "k1") alice) eq_refl).
  specialize (Df alice eq_refl). specialize (Dl alice eq_refl).
  split; [|split].
  - destruct (MongoCrudRepository.create 1 _) as [res w'] eqn:Hc.
    cbn [fst] in Dm. subst res. exists w'. split; [reflexivity|].
    exact (A w' eq_refl).
  - destruct (FirestoreCrudRepository.create 1 _) as [res w'] eqn:Hc.
    cbn [fst] in Df. subst res. exists w'. split; [reflexivity|].
    exact (B w' eq_refl).
  - destruct (LocalStorageCrudRepository.create 1 _) as [res w'] eqn:Hc.
    cbn [fst] in Dl. subst res. rewrite (C w' eq_refl). reflexivity.
Defined.

(** * Further properties of the code *)

(** ** Records that are not there *)

Lemma local_findExpectedRecord_missing
    (w : World (option (list (string * Entity)))) k :
  LocalStorageCrudRepository.findById k w = (Ok None, w) ->
  LocalStorageCrudRepository.findExpectedRecord
    (LocalStorageCrudRepository.getActiveKey k) w
  = (Err RecordNotFoundException, w).
Proof.
  rewrite local_findById_spec. intros [= H].
  unfold LocalStorageCrudRepository.findExpectedRecord, bind, getStore.
  destruct (store w) as [object|]; [|reflexivity].
  cbn [mbind option_bind] in H. rewrite H. reflexivity.
Qed.

(** X1.  An id that [findById] does not find.  On each adapter [update]
    and [remove] with that id, whatever the payload and the options, reject
    with the record-not-found error and leave the world as it was. *)
Theorem X1_update_and_remove_of_a_missing_id
    (k : string) (o o' : option QueryOptions)
    (wl : World (option (list (string * Entity)))) (pl : Entity)
    (wm : World (list MongoCrudRepository.Doc)) (pm : MongoCrudRepository.Doc)
    (wf : World (list (string * Entity))) (pf : Entity) :
  LocalStorageCrudRepository.findById k wl = (Ok None, wl) ->
  MongoCrudRepository.findById k wm = (Ok None, wm) ->
  FirestoreCrudRepository.findById k wf = (Ok None, wf) ->
  (LocalStorageCrudRepository.update k pl o wl
     = (Err RecordNotFoundException, wl)
   /\ LocalStorageCrudRepository.remove k o' wl
      = (Err RecordNotFoundException, wl))
  /\ (MongoCrudRepository.update k pm o wm
        = (Err RecordNotFoundException, wm)
      /\ MongoCrudRepository.remove k o' wm
         = (Err RecordNotFoundException, wm))
  /\ (FirestoreCrudRepository.update k pf o wf
        = (Err RecordNotFoundException, wf)
      /\ FirestoreCrudRepository.remove k o' wf
         = (Err RecordNotFoundException, wf)).
Proof.
  intros Hl Hm Hf. split; [|split]; split.
  - unfold LocalStorageCrudRepository.update, bind.
    rewrite (local_findExpectedRecord_missing wl k Hl). reflexivity.
  - unfold LocalStorageCrudRepository.remove, bind.
    rewrite (local_findExpectedRecord_missing wl k Hl). reflexivity.
  - unfold MongoCrudRepository.update,
      MongoCrudRepository.findExpectedRecord, bind.
    rewrite Hm. reflexivity.
  - unfold MongoCrudRepository.remove,
      MongoCrudRepository.findExpectedRecord, bind.
    rewrite Hm. reflexivity.
  - unfold FirestoreCrudRepository.update,
      FirestoreCrudRepository.findExpectedRecord, bind.
    rewrite Hf. reflexivity.
  - unfold FirestoreCrudRepository.remove,
      FirestoreCrudRepository.findExpectedRecord, bind.
    rewrite Hf. reflexivity.
Qed.

Lemma X1_update_and_remove_of_a_missing_id_witness :
  (LocalStorageCrudRepository.update "k9" rename (Some optimisticLocking)
     localDemo = (Err RecordNotFoundException, localDemo)
   /\ LocalStorageCrudRepository.remove "k9" (Some hardRemoval) localDemo
      = (Err RecordNotFoundException, localDemo))
  /\ (MongoCrudRepository.update "k9"
        (MongoCrudRepository.mkDoc None rename) (Some optimisticLocking)
        mongoDemo = (Err RecordNotFoundException, mongoDemo)
      /\ MongoCrudRepository.remove "k9" (Some hardRemoval) mongoDemo
         = (Err RecordNotFoundException, mongoDemo))
  /\ (FirestoreCrudRepository.update "k9" rename (Some optimisticLocking)
        firestoreDemo = (Err RecordNotFoundException, firestoreDemo)
      /\ FirestoreCrudRepository.remove "k9" (Some hardRemoval) firestoreDemo
         = (Err RecordNotFoundException, firestoreDemo)).
Proof.
  apply (X1_update_and_remove_of_a_missing_id "k9"
           (Some optimisticLocking) (Some hardRemoval)
           localDemo rename mongoDemo (MongoCrudRepository.mkDoc None rename)
           firestoreDemo rename); reflexivity.
Defined.

(** ** What [create] stores *)

Lemma stamp_live c t p :
  deleted p <> Some true -> deleted (stamp c t p) = Some false.
Proof.
  intros H. unfold stamp. cbn [deleted].
  destruct (deleted p) as [[|]|]; [congruence|reflexivity|reflexivity].
Qed.

Lemma keys_map_set_fmap {A} k (x : A) (m : list (string * A)) i :
  In i (fst <$> map_set k x m) -> i = k \/ In i (fst <$> m).
Proof.
  induction m as [|[k' y] m IH]; cbn [map_set fmap list_fmap].
  - intros [<-|[]]. left. reflexivity.
  - destruct (decide (k' = k)) as [->|Hne]; cbn [fmap list_fmap fst].
    + intros H. right. exact H.
    + intros [<-|H]; [right; left; reflexivity|].
      destruct (IH H) as [->|H']; [left; reflexivity|right; right; exact H'].
Qed.

Lemma NoDup_map_set {A} k (x : A) (m : list (string * A)) :
  NoDup (fst <$> m) -> NoDup (fst <$> map_set k x m).
Proof.
  induction m as [|[k' y] m IH]; cbn [map_set fmap list_fmap fst].
  - intros _. apply NoDup_singleton.
  - intros H. apply NoDup_cons in H as [Hn Hd].
    destruct (decide (k' = k)) as [->|Hne]; cbn [fmap list_fmap fst].
    + apply NoDup_cons. split; assumption.
    + apply NoDup_cons. split; [|apply IH; exact Hd].
      intros Hin. apply list_elem_of_In, keys_map_set_fmap in Hin.
      destruct Hin as [->|Hin]; [congruence|].
      apply Hn, list_elem_of_In. exact Hin.
Qed.

Lemma keyed_fs_map_set coll i e :
  keyed_fs coll -> id e = Some i -> keyed_fs (map_set i e coll).
Proof.
  intros [Hn Hf] Hi. split; [apply NoDup_map_set; exact Hn|].
  clear Hn. induction coll as [|[k y] coll IH]; cbn [map_set].
  - repeat constructor. exact Hi.
  - apply Forall_cons in Hf as [Hy Hf].
    destruct (decide (k = i)) as [->|Hne].
    + constructor; [exact Hi|exact Hf].
    + constructor; [exact Hy|apply IH; exact Hf].
Qed.

Lemma mongo_create_store (w w' : World (list MongoCrudRepository.Doc)) r p d :
  heap w !! r = Some p -> MongoCrudRepository.create r w = (Ok d, w') ->
  exists i,
    d = MongoCrudRepository.mkDoc (Some i)
          (with_id i (stamp (clock (env w)) (tick w) p))
    /\ store w' = (store w ++ [d])%list
    /\ Forall (fun d' => MongoCrudRepository._id d' <> Some i) (store w).
Proof.
  intros Hh. unfold MongoCrudRepository.create.
  destruct (updatePayload_at_spec w r p Hh) as [H1 H2].
  unfold bind at 1. rewrite H1. unfold bind at 1. rewrite H2.
  unfold bind at 1.
  destruct (MongoCrudRepository.getId _ _) as [[i|err] w1] eqn:Hg;
    [|discriminate].
  destruct (mongo_getId_frame _ _ _ _ Hg) as (Hs1 & _).
  cbn [store] in Hs1.
  unfold MongoCrudRepository.save, bind, getStore.
  destruct (existsb _ (store w1)) eqn:Hex; [discriminate|].
  unfold putStore, ret, set_store. intros [= <- <-]. exists i.
  cbn [store]. rewrite Hs1. split; [reflexivity|]. split; [reflexivity|].
  rewrite Hs1 in Hex. apply Forall_forall. intros d' Hin Heq.
  apply list_elem_of_In in Hin.
  assert (existsb (fun d'0 => bool_decide
            (MongoCrudRepository._id d'0 = Some i)) (store w) = true) as Ht.
  { apply existsb_exists. exists d'. split; [exact Hin|].
    apply bool_decide_eq_true. exact Heq. }
  cbn [MongoCrudRepository._id] in Hex. congruence.
Qed.

Lemma keyed_mongo_snoc coll d :
  keyed_mongo coll ->
  MongoCrudRepository._id d = id (MongoCrudRepository.body d) ->
  Forall (fun d' => MongoCrudRepository._id d' <> MongoCrudRepository._id d)
         coll ->
  keyed_mongo (coll ++ [d]).
Proof.
  intros [Hn Hf] Hd Hfresh. split.
  - rewrite fmap_app. apply NoDup_app. split; [exact Hn|].
    split; [|apply NoDup_singleton].
    intros x Hx Hx'. apply list_elem_of_singleton in Hx'. subst x.
    apply list_elem_of_fmap in Hx as (d' & Heq & Hin).
    rewrite Forall_forall in Hfresh. apply (Hfresh d' Hin). congruence.
  - apply Forall_app. split; [exact Hf|]. repeat constructor. exact Hd.
Qed.

(** X2.  A payload that is not marked deleted is handed to [create].
    What [create] returns is what [findById] then finds under the id of
    the returned record: on the local adapter whatever the storage holds;
    on the document database and the cloud store when the collection files
    each record under its own id, which it still does afterwards. *)
Theorem X2_create_then_findById
    (h : list Entity) (e : Env) (t n : nat)
    (sl : option (list (string * Entity)))
    (sm : list MongoCrudRepository.Doc) (sf : list (string * Entity))
    (r : ref) (p : Entity) :
  let wl := mkWorld sl h t n e in
  let wm := mkWorld sm h t n e in
  let wf := mkWorld sf h t n e in
  h !! r = Some p -> deleted p <> Some true ->
  keyed_mongo sm -> keyed_fs sf ->
  (forall item w',
     LocalStorageCrudRepository.create r wl = (Ok item, w') ->
     exists i, id item = Some i
       /\ LocalStorageCrudRepository.findById i w' = (Ok (Some item), w'))
  /\ (forall d w',
        MongoCrudRepository.create r wm = (Ok d, w') ->
        exists i, id (MongoCrudRepository.body d) = Some i
          /\ MongoCrudRepository.findById i w' = (Ok (Some d), w')
          /\ keyed_mongo (store w'))
  /\ (forall item w',
        FirestoreCrudRepository.create r wf = (Ok item, w') ->
        exists i, id item = Some i
          /\ FirestoreCrudRepository.findById i w' = (Ok (Some item), w')
          /\ keyed_fs (store w')).
Proof.
  intros wl wm wf Hh Hd Hkm Hkf. split; [|split].
  - intros item w' Hc.
    destruct (local_create_returns wl w' r p item Hh Hc) as (i & -> & Hf).
    exists i. split; [reflexivity|exact Hf].
  - intros d w' Hc.
    destruct (mongo_create_store wm w' r p d Hh Hc) as (i & -> & Hs & Hfresh).
    cbn [store wm] in Hs, Hfresh.
    set (d := MongoCrudRepository.mkDoc (Some i)
                (with_id i (stamp (clock (env wm)) (tick wm) p))) in *.
    assert (Hk' : keyed_mongo (store w')).
    { rewrite Hs. apply keyed_mongo_snoc; [exact Hkm|reflexivity|exact Hfresh]. }
    exists i. split; [reflexivity|]. split; [|exact Hk'].
    rewrite mongo_findById_spec, Hs, List.filter_app.
    assert (Hnone : List.filter (MongoCrudRepository.matches (byId i)) sm = []).
    { destruct (List.filter _ sm) as [|x l] eqn:Hfl; [reflexivity|].
      exfalso. assert (Hin : In x (List.filter
                               (MongoCrudRepository.matches (byId i)) sm))
        by (rewrite Hfl; left; reflexivity).
      apply filter_In in Hin as [Hin Hm].
      apply matches_byId in Hm as [_ Hid].
      destruct (keyed_mongo_spec sm Hkm) as [_ Hkey].
      rewrite Forall_forall in Hfresh.
      apply (Hfresh x); [apply list_elem_of_In; exact Hin|].
      rewrite (Hkey x Hin). exact Hid. }
    rewrite Hnone. cbn [app List.filter].
    assert (Hm : MongoCrudRepository.matches (byId i) d = true).
    { apply matches_byId. split; [|reflexivity].
      unfold d. cbn [MongoCrudRepository.body with_id deleted].
      rewrite (stamp_live _ _ _ Hd). discriminate. }
    rewrite Hm. reflexivity.
  - intros item w' Hc.
    destruct (FirestoreCrudRepository.getId
                (stamp (clock (env wf)) (tick wf) p)
                (mkWorld (store wf)
                   (<[r := stamp (clock (env wf)) (tick wf) p]> (heap wf))
                   (stamp_ticks p + tick wf) (nid wf) (env wf)))
      as [[i|err] w1] eqn:Hg.
    + destruct (fs_getId_frame _ _ _ _ Hg) as (Hs1 & Hh1 & Ht1 & He1).
      cbn [store heap tick env] in Hs1, Hh1, Ht1, He1.
      rewrite (fs_create_with wf r p i w1 Hh Hg Hh1) in Hc.
      injection Hc as <- <-. exists i. split; [reflexivity|].
      set (item := with_id i (stamp (clock (env wf)) (tick wf) p)).
      set (w' := mkWorld _ _ _ _ _).
      assert (Hk' : keyed_fs (store w')).
      { cbn [store w']. rewrite Hs1. apply keyed_fs_map_set;
          [exact Hkf|reflexivity]. }
      split; [|exact Hk'].
      assert (Hget : map_get i (store w') = Some item)
        by (cbn [store w']; apply map_get_set_eq).
      destruct (fs_findById_exists w' i i item) as [found Hfound].
      * apply map_get_Some_In. exact Hget.
      * unfold item. cbn [with_id deleted]. apply stamp_live. exact Hd.
      * reflexivity.
      * destruct (fs_found_keyed w' i found Hk' Hfound) as (Hget' & _).
        rewrite Hfound. assert (found = item) as -> by congruence.
        reflexivity.
    + exfalso. revert Hc. unfold FirestoreCrudRepository.create.
      destruct (updatePayload_at_spec wf r p Hh) as [H1 H2].
      unfold bind. rewrite H1, H2, Hg. discriminate.
Qed.

Lemma X2_create_then_findById_witness :
  (exists item w',
     LocalStorageCrudRepository.create 0 localDemo = (Ok item, w')
     /\ LocalStorageCrudRepository.findById "a-generated" w'
        = (Ok (Some item), w'))
  /\ (exists d w',
        MongoCrudRepository.create 0 mongoDemo = (Ok d, w')
        /\ MongoCrudRepository.findById "a-generated" w' = (Ok (Some d), w'))
  /\ (exists item w',
        FirestoreCrudRepository.create 0 firestoreDemo = (Ok item, w')
        /\ FirestoreCrudRepository.findById "a-generated" w'
           = (Ok (Some item), w')).
Proof.
  destruct (X2_create_then_findById demoHeap demoEnv 0 0
              (store localDemo) (store mongoDemo) (store firestoreDemo)
              0 newcomer) as (A & B & C).
  - reflexivity.
  - discriminate.
  - split; [|repeat constructor].
    apply (bool_decide_unpack _). vm_compute. exact I.
  - split; [|repeat constructor].
    apply (bool_decide_unpack _). vm_compute. exact I.
  - split; [|split].
    + assert (Hid : match fst (LocalStorageCrudRepository.create 0 localDemo)
                    with Ok y => id y | Err _ => None end
                    = Some "a-generated") by (vm_compute; reflexivity).
      destruct (LocalStorageCrudRepository.create 0 localDemo)
        as [[item|err] w'] eqn:Hc; cbn [fst] in Hid; [|discriminate].
      destruct (A item w' Hc) as (i & Hi & Hf).
      exists item, w'. split; [reflexivity|].
      assert (i = "a-generated") as <- by congruence. exact Hf.
    + assert (Hid : match fst (MongoCrudRepository.create 0 mongoDemo)
                    with Ok y => id (MongoCrudRepository.body y)
                       | Err _ => None end
                    = Some "a-generated") by (vm_compute; reflexivity).
      destruct (MongoCrudRepository.create 0 mongoDemo)
        as [[d|err] w'] eqn:Hc; cbn [fst] in Hid; [|discriminate].
      destruct (B d w' Hc) as (i & Hi & Hf & _).
      exists d, w'. split; [reflexivity|].
      assert (i = "a-generated") as <- by congruence. exact Hf.
    + assert (Hid : match fst (FirestoreCrudRepository.create 0 firestoreDemo)
                    with Ok y => id y | Err _ => None end
                    = Some "a-generated") by (vm_compute; reflexivity).
      destruct (FirestoreCrudRepository.create 0 firestoreDemo)
        as [[item|err] w'] eqn:Hc; cbn [fst] in Hid; [|discriminate].
      destruct (C item w' Hc) as (i & Hi & Hf & _).
      exists item, w'. split; [reflexivity|].
      assert (i = "a-generated") as <- by congruence. exact Hf.
Defined.

(** ** executeTransaction: what is committed, and what is thrown *)

Section TransactionOutcome.
Import Transaction.
Context {S R E : Type}.

Lemma on_finally_committed driver (c : completion R E) (st : State S) :
  committed (snd (on_finally driver c st)) = committed st.
Proof.
  unfold on_finally. destruct (endSession_fails driver); reflexivity.
Qed.

Lemma on_catch_committed driver (e : E) (st : State S) :
  committed (snd (on_catch (R := R) driver e st)) = committed st.
Proof.
  unfold on_catch. destruct (abortTransaction_fails driver); reflexivity.
Qed.

Lemma on_catch_thrown driver (e : E) (st : State S) :
  fst (on_catch (R := R) driver e st)
  = Thrown (Raised (default e (abortTransaction_fails driver))).
Proof.
  unfold on_catch. destruct (abortTransaction_fails driver); reflexivity.
Qed.

Lemma on_finally_result driver (c : completion R E) (st : State S) :
  fst (on_finally driver c st)
  = match endSession_fails driver with
    | Some e => Thrown (Raised e)
    | None => c
    end.
Proof.
  unfold on_finally. destruct (endSession_fails driver); reflexivity.
Qed.

End TransactionOutcome.

(** X3.  A session that starts, and an executor that, on the committed
    data, completes with [res] and leaves the data [data].  After
    [executeTransaction] the committed data are [data] when the executor
    returned and [commitTransaction] went through, and in every other case
    the data there were before: never anything in between, whatever else
    fails. *)
Theorem X3_executeTransaction_is_all_or_nothing
    {S R E : Type} (driver : Transaction.Driver E)
    (body : Transaction.Executor S R E) (st : Transaction.State S)
    (res : R + E) (data : S) :
  Transaction.startSession_fails driver = None ->
  body (Transaction.committed st) = (res, data) ->
  Transaction.committed
    (snd (Transaction.executeTransaction driver (Some body) st))
  = match res, Transaction.commitTransaction_fails driver with
    | inl _, None => data
    | _, _ => Transaction.committed st
    end.
Proof.
  intros Hs Hb. rewrite executeTransaction_started by exact Hs.
  destruct (Transaction.try_catch driver body (opened st)) as [c st1] eqn:Ht.
  rewrite on_finally_committed.
  apply (f_equal snd) in Ht. cbn [snd] in Ht. subst st1.
  unfold Transaction.try_catch, Transaction.record, opened.
  cbn [Transaction.committed Transaction.working Transaction.calls
       from_option Datatypes.id].
  rewrite Hb.
  destruct res as [r|e].
  - destruct (Transaction.commitTransaction_fails driver) as [ec|].
    + rewrite on_catch_committed. reflexivity.
    + reflexivity.
  - rewrite on_catch_committed.
    destruct (Transaction.commitTransaction_fails driver); reflexivity.
Qed.

Lemma X3_executeTransaction_is_all_or_nothing_witness :
  Transaction.committed
    (snd (Transaction.executeTransaction soundDriver (Some (storing 3)) idle))
  = [3; 7]
  /\ Transaction.committed
       (snd (Transaction.executeTransaction soundDriver (Some (failing 3))
               idle))
     = [7].
Proof.
  split.
  - exact (X3_executeTransaction_is_all_or_nothing soundDriver (storing 3)
             idle (inl 3) [3; 7] eq_refl eq_refl).
  - exact (X3_executeTransaction_is_all_or_nothing soundDriver (failing 3)
             idle (inr "duplicate") [3; 7] eq_refl eq_refl).
Defined.

(** X4.  A session that starts.  What [executeTransaction] completes with
    is decided in this order: a failure of [endSession] is thrown whatever
    happened before, even after a commit that went through; otherwise a
    failure of [abortTransaction] replaces the error that led to the abort;
    otherwise a failure of [commitTransaction] is thrown; otherwise the
    executor's own error, or its result. *)
Theorem X4_executeTransaction_completion
    {S R E : Type} (driver : Transaction.Driver E)
    (body : Transaction.Executor S R E) (st : Transaction.State S)
    (res : R + E) (data : S) :
  Transaction.startSession_fails driver = None ->
  body (Transaction.committed st) = (res, data) ->
  fst (Transaction.executeTransaction driver (Some body) st)
  = match Transaction.endSession_fails driver with
    | Some e => Transaction.Thrown (Transaction.Raised e)
    | None =>
        let aborted e :=
          Transaction.Thrown
            (Transaction.Raised
               (default e (Transaction.abortTransaction_fails driver))) in
        match res with
        | inl r =>
            match Transaction.commitTransaction_fails driver with
            | Some e => aborted e
            | None => Transaction.Returned r
            end
        | inr e => aborted e
        end
    end.
Proof.
  intros Hs Hb. rewrite executeTransaction_started by exact Hs.
  destruct (Transaction.try_catch driver body (opened st)) as [c st1] eqn:Ht.
  rewrite on_finally_result.
  destruct (Transaction.endSession_fails driver) as [ee|]; [reflexivity|].
  apply (f_equal fst) in Ht. cbn [fst] in Ht. subst c.
  unfold Transaction.try_catch, Transaction.record, opened.
  cbn [Transaction.committed Transaction.working Transaction.calls
       from_option Datatypes.id].
  rewrite Hb. cbv zeta.
  destruct res as [r|e].
  - destruct (Transaction.commitTransaction_fails driver) as [ec|].
    + apply on_catch_thrown.
    + reflexivity.
  - apply on_catch_thrown.
Qed.

Lemma X4_executeTransaction_completion_witness :
  fst (Transaction.executeTransaction abortFailing (Some (failing 3)) idle)
  = Transaction.Thrown (Transaction.Raised "abort failed")
  /\ fst (Transaction.executeTransaction endFailing (Some (storing 3)) idle)
     = Transaction.Thrown (Transaction.Raised "end failed").
Proof.
  split.
  - exact (X4_executeTransaction_completion abortFailing (failing 3) idle
             (inr "duplicate") [3; 7] eq_refl eq_refl).
  - exact (X4_executeTransaction_completion endFailing (storing 3) idle
             (inl 3) [3; 7] eq_refl eq_refl).
Defined.

(** X5.  Without an executor [executeTransaction] throws the
    internal-server error only after the session and its transaction were
    started, and calls neither [abortTransaction] nor [endSession]: the
    transaction is left open on the driver. *)
Theorem X5_executeTransaction_without_executor
    {S R E : Type} (driver : Transaction.Driver E)
    (st : Transaction.State S) :
  Transaction.startSession_fails driver = None ->
  let out := Transaction.executeTransaction (R := R) driver None st in
  fst out = Transaction.Thrown Transaction.NoExecutor
  /\ Transaction.calls (snd out)
     = (Transaction.calls st
          ++ [Transaction.StartSession; Transaction.StartTransaction])%list
  /\ Transaction.working (snd out) = Some (Transaction.committed st)
  /\ Transaction.committed (snd out) = Transaction.committed st.
Proof.
  intros Hs. unfold Transaction.executeTransaction. rewrite Hs.
  cbn. rewrite <- app_assoc. repeat split.
Qed.

Lemma X5_executeTransaction_without_executor_witness :
  fst (Transaction.executeTransaction (R := nat) soundDriver None idle)
  = Transaction.Thrown Transaction.NoExecutor
  /\ Transaction.calls
       (snd (Transaction.executeTransaction (R := nat) soundDriver None idle))
     = [Transaction.StartSession; Transaction.StartTransaction].
Proof.
  destruct (X5_executeTransaction_without_executor (R := nat) soundDriver
              idle eq_refl) as (A & B & _).
  split; [exact A|exact B].
Defined.

(** ** Optional *)

Section OptionalFacts.
Import Optional.
Context {E : Type}.

Lemma ofNullable_value {T} (v : option T) : value (ofNullable v) = v.
Proof. destruct v; reflexivity. Qed.

Lemma isPresent_ofNullable {T} (v : option T) :
  isPresent (ofNullable v) = bool_decide (is_Some v).
Proof. destruct v; reflexivity. Qed.

End OptionalFacts.

(** X6.  [map] with mappers that are not null and that themselves return
    never throws, and mapping twice is mapping once with the two mappers
    chained, a [null] from the first ending the chain: a mapper that
    answers [null] gives the empty Optional, on which the second mapper is
    not called. *)
Theorem X6_Optional_map_composes
    {E T U V : Type} (f : T -> option U) (g : U -> option V)
    (this : Optional.Optional T) :
  exists mid,
    Optional.map (E := E) (Some f) this = Optional.Return mid
    /\ Optional.map (E := E) (Some g) mid
       = Optional.map (Some (fun x => f x ≫= g)) this
    /\ Optional.value mid = Optional.value this ≫= f.
Proof.
  unfold Optional.map. destruct this as [[x|]]; cbn [Optional.value].
  - eexists. split; [reflexivity|]. rewrite ofNullable_value.
    cbn [mbind option_bind]. destruct (f x) as [y|]; split; reflexivity.
  - eexists. split; [reflexivity|]. split; reflexivity.
Qed.

(** X7.  What [flatMap] returns is present exactly when the Optional it
    was called on is, and what [or] returns is always present: a mapper or
    a supplier that answers with the empty Optional makes them throw, where
    [map] with a mapper that answers [null] returns the empty Optional.
    So [flatMap] with [x => Optional.ofNullable(f(x))] agrees with [map]
    with [f] unless [f] answers [null], and then it throws. *)
Theorem X7_Optional_flatMap_and_or_keep_presence
    {E T U : Type} (mapper : T -> Optional.Optional U)
    (supplier : unit -> Optional.Optional T) (f : T -> option U)
    (this : Optional.Optional T) :
  (forall r, Optional.flatMap (E := E) (Some mapper) this = Optional.Return r ->
             Optional.isPresent r = Optional.isPresent this)
  /\ (forall r, Optional.or (E := E) (Some supplier) this = Optional.Return r ->
                Optional.isPresent r = true)
  /\ Optional.flatMap (E := E)
       (Some (fun x => Optional.ofNullable (f x))) this
     = match Optional.value this ≫= f, Optional.value this with
       | None, Some _ =>
           Optional.Throw (Optional.Error "Mapper result cannot be null")
       | _, _ => Optional.map (Some f) this
       end.
Proof.
  split; [|split].
  - intros r. unfold Optional.flatMap.
    destruct this as [[x|]]; cbn [Optional.value].
    + destruct (Optional.isPresent (mapper x)) eqn:Hp; [|discriminate].
      intros [= <-]. exact Hp.
    + intros [= <-]. reflexivity.
  - intros r. unfold Optional.or.
    destruct (Optional.isPresent this) eqn:Hp.
    + intros [= <-]. exact Hp.
    + destruct (Optional.isPresent (supplier tt)) eqn:Hs; [|discriminate].
      intros [= <-]. exact Hs.
  - unfold Optional.flatMap, Optional.map.
    destruct this as [[x|]]; cbn [Optional.value mbind option_bind];
      [|reflexivity].
    rewrite isPresent_ofNullable. destruct (f x); reflexivity.
Qed.

(** ** The emptiness tests *)

Section EmptinessFacts.
Import commonValues.
Context {S : Type}.
Implicit Types (w : World S).

Lemma isEmpty_frame arg w r w' :
  isEmpty arg w = (r, w') -> w' = w.
Proof.
  unfold isEmpty, isEmpty_string, ret.
  destruct arg as [[s|n|b]|]; try (intros [= _ <-]; reflexivity).
  destruct (has_brace s); [destruct (json_parses (env w) s)|];
    intros [= _ <-]; reflexivity.
Qed.

Lemma none_any_dual args w :
  none_is_empty args w = (b <- any_is_empty args ;; ret (negb b)) w.
Proof.
  induction args as [|arg rest IH]; [reflexivity|].
  cbn [none_is_empty any_is_empty]. unfold bind.
  destruct (isEmpty arg w) as [[[|]|err] w1] eqn:He; try reflexivity.
  rewrite (isEmpty_frame _ _ _ _ He). rewrite IH. reflexivity.
Qed.

Lemma firstNonNull_spec args w :
  match firstNonNull args w with
  | (Ok (Some v), w') =>
      w' = w
      /\ exists before rest,
           args = (before ++ Some v :: rest)%list
           /\ isEmpty (Some v) w = (Ok false, w)
           /\ Forall (fun a => isEmpty a w = (Ok true, w)) before
  | (Ok None, w') =>
      w' = w /\ Forall (fun a => isEmpty a w = (Ok true, w)) args
  | (Err e, w') => w' = w /\ e = SyntaxError
  end.
Proof.
  induction args as [|arg rest IH]; [split; constructor|].
  cbn [firstNonNull isNoneEmpty none_is_empty]. unfold bind at 1 2.
  destruct (isEmpty arg w) as [[[|]|err] w1] eqn:He;
    pose proof (isEmpty_frame _ _ _ _ He) as ->.
  - unfold ret at 1.
    destruct (firstNonNull rest w) as [[[v|]|e] w'].
    + destruct IH as (-> & before & rest' & -> & Hv & Hb).
      split; [reflexivity|]. exists (arg :: before), rest'.
      split; [reflexivity|]. split; [exact Hv|].
      constructor; [exact He|exact Hb].
    + destruct IH as (-> & Hall). split; [reflexivity|].
      constructor; [exact He|exact Hall].
    + exact IH.
  - unfold ret. destruct arg as [v|]; [|discriminate].
    split; [reflexivity|]. exists [], rest. split; [reflexivity|].
    split; [exact He|constructor].
  - split; [reflexivity|]. revert He. unfold isEmpty, isEmpty_string, ret.
    destruct arg as [[s|n|b]|]; try discriminate.
    destruct (has_brace s); [destruct (json_parses (env w) s)|];
      congruence.
Qed.

End EmptinessFacts.

(** X8.  On every list of arguments [isNoneEmpty] is the negation of
    [isAnyEmpty], the empty list included (false and true), and both throw
    at the same argument when [JSON.parse] does. *)
Theorem X8_isNoneEmpty_negates_isAnyEmpty
    {S : Type} (args : list (option value)) (w : World S) :
  commonValues.isNoneEmpty args w
  = (b <- commonValues.isAnyEmpty args ;; ret (negb b)) w.
Proof.
  unfold commonValues.isNoneEmpty, commonValues.isAnyEmpty.
  destruct args as [|arg rest]; [reflexivity|]. apply none_any_dual.
Qed.

(** X9.  [firstNonNull] changes nothing and throws at most the syntax error
    of [JSON.parse].  What it returns is the first argument that [isEmpty]
    does not find empty, every argument before it being empty; so it is
    never a boolean, which [isEmpty] finds empty whether true or false, nor
    the number 0.  It returns [null] only when every argument is empty. *)
Theorem X9_firstNonNull_returns_the_first_filled_argument
    {S : Type} (args : list (option value)) (w : World S) :
  match commonValues.firstNonNull args w with
  | (Ok (Some v), w') =>
      w' = w
      /\ (exists before rest,
            args = (before ++ Some v :: rest)%list
            /\ commonValues.isEmpty (Some v) w = (Ok false, w)
            /\ Forall (fun a => commonValues.isEmpty a w = (Ok true, w))
                      before)
      /\ (forall b, v <> VBool b) /\ v <> VNum 0
  | (Ok None, w') =>
      w' = w
      /\ Forall (fun a => commonValues.isEmpty a w = (Ok true, w)) args
  | (Err e, w') => w' = w /\ e = SyntaxError
  end.
Proof.
  pose proof (firstNonNull_spec args w) as H.
  destruct (commonValues.firstNonNull args w) as [[[v|]|e] w']; try exact H.
  destruct H as (-> & before & rest & Ha & Hv & Hb).
  split; [reflexivity|]. split; [exists before, rest; auto|].
  split; [intros b ->; discriminate|intros ->; discriminate].
Qed.

(** ** The list helpers of entity-utils *)

Section ListHelperFacts.
Import entityLists.

Lemma sort_unfold items order : sort items order = sort_by (le_of order) items.
Proof. reflexivity. Qed.

Lemma compareFn_total order a b :
  le_of order a b = true \/ le_of order b a = true.
Proof.
  unfold le_of, compareFn.
  destruct (dateCreated a) as [x|], (dateCreated b) as [y|];
    try (left; reflexivity).
  destruct (x =? 0)%Z eqn:Hx, (y =? 0)%Z eqn:Hy; cbn [orb];
    try (left; reflexivity).
  destruct (y <? x)%Z eqn:H1, (x <? y)%Z eqn:H2, order;
    try (left; reflexivity); try (right; reflexivity); lia.
Qed.

Lemma le_of_in_order order a b :
  dated a = true -> dated b = true -> le_of order a b = true ->
  in_order order a b.
Proof.
  unfold dated, le_of, compareFn, in_order, newer_or_same, desc_num.
  destruct (dateCreated a) as [x|], (dateCreated b) as [y|]; try discriminate.
  intros Hx Hy. apply negb_true_iff in Hx, Hy. rewrite Hx, Hy. cbn [orb].
  destruct (y <? x)%Z eqn:H1, (x <? y)%Z eqn:H2, order; cbn;
    try discriminate; intros _;
    try (destruct (Z.compare_spec y x); cbn; (reflexivity || lia));
    try (destruct (Z.compare_spec x y); cbn; (reflexivity || lia)).
Qed.

Lemma in_order_le_of order a b :
  dated a = true -> dated b = true -> in_order order a b ->
  le_of order a b = true.
Proof.
  unfold dated, le_of, compareFn, in_order, newer_or_same, desc_num.
  destruct (dateCreated a) as [x|], (dateCreated b) as [y|]; try discriminate.
  intros Hx Hy. apply negb_true_iff in Hx, Hy. rewrite Hx, Hy. cbn [orb].
  destruct (y <? x)%Z eqn:H1, (x <? y)%Z eqn:H2, order; cbn;
    try reflexivity; try lia;
    try (destruct (Z.compare_spec y x); cbn; (discriminate || lia));
    try (destruct (Z.compare_spec x y); cbn; (discriminate || lia)).
Qed.

Lemma le_of_same_date order a b :
  dateCreated a = dateCreated b -> le_of order a b = true.
Proof.
  unfold le_of, compareFn. intros ->.
  destruct (dateCreated b) as [y|]; [|reflexivity].
  destruct (y =? 0)%Z; cbn [orb]; [reflexivity|].
  rewrite Z.ltb_irrefl. reflexivity.
Qed.

Lemma filter_insert_sorted (le : Entity -> Entity -> bool) (P : Entity -> bool)
    x l :
  (forall y, P x = true -> P y = true -> le x y = true) ->
  List.filter P (insert_sorted le x l) = List.filter P (x :: l).
Proof.
  intros Hle. induction l as [|y l IH]; [reflexivity|].
  cbn [insert_sorted]. destruct (le x y) eqn:Hxy; [reflexivity|].
  cbn [List.filter] in *. rewrite IH.
  destruct (P x) eqn:Hx, (P y) eqn:Hy; try reflexivity.
  rewrite (Hle y eq_refl Hy) in Hxy. discriminate.
Qed.

Lemma filter_sort_by (le : Entity -> Entity -> bool) (P : Entity -> bool) l :
  (forall x y, P x = true -> P y = true -> le x y = true) ->
  List.filter P (sort_by le l) = List.filter P l.
Proof.
  intros Hle. induction l as [|x l IH]; [reflexivity|].
  cbn [sort_by]. rewrite filter_insert_sorted by (intros y; apply Hle).
  cbn [List.filter]. rewrite IH. reflexivity.
Qed.

Lemma sort_by_sorted_id {A} (le : A -> A -> bool) l :
  Sorted (fun a b => le a b = true) l -> sort_by le l = l.
Proof.
  induction 1 as [|x l Hs IH Hhd]; [reflexivity|].
  cbn [sort_by]. rewrite IH. destruct Hhd as [|y l' Hxy]; [reflexivity|].
  cbn [insert_sorted]. rewrite Hxy. reflexivity.
Qed.

Lemma Sorted_impl_Forall {A} (R1 R2 : A -> A -> Prop) (Q : A -> Prop) l :
  (forall a b, Q a -> Q b -> R1 a b -> R2 a b) ->
  Forall Q l -> Sorted R1 l -> Sorted R2 l.
Proof.
  intros Himp Hq Hs. induction Hs as [|x l Hs IH Hhd]; [constructor|].
  apply Forall_cons in Hq as [Hx Hq]. constructor; [apply IH; exact Hq|].
  destruct Hhd as [|y l' Hxy]; constructor.
  apply Forall_cons in Hq as [Hy _]. apply Himp; assumption.
Qed.

Lemma Forall_perm {A} (Q : A -> Prop) l l' :
  Permutation l l' -> Forall Q l' -> Forall Q l.
Proof.
  intros Hp Hq. apply List.Forall_forall. intros x Hin.
  rewrite List.Forall_forall in Hq. apply Hq.
  eapply Permutation_in; [exact Hp|exact Hin].
Qed.

Lemma sort_dated items order :
  Forall (fun e => dated e = true) items ->
  Permutation (sort items order) items
  /\ Sorted (in_order order) (sort items order).
Proof.
  intros Hd. rewrite sort_unfold. split; [apply sort_by_perm|].
  apply Sorted_impl_Forall
    with (R1 := fun a b => le_of order a b = true)
         (Q := fun e => dated e = true).
  - intros a b. apply le_of_in_order.
  - apply Forall_perm with (l' := items); [apply sort_by_perm|exact Hd].
  - apply sort_by_sorted. apply compareFn_total.
Qed.

End ListHelperFacts.

(** X10.  [sort] on records that all carry a date that is not 0 returns
    the same records, in descending or ascending order of [dateCreated] as
    asked, and the records of one date in the order they came in. *)
Theorem X10_sort_orders_dated_records
    (items : list Entity) (order : entityLists.SortOrder) :
  Forall (fun e => dated e = true) items ->
  Permutation (entityLists.sort items order) items
  /\ Sorted (in_order order) (entityLists.sort items order)
  /\ forall d,
       List.filter (fun e => bool_decide (dateCreated e = d))
                   (entityLists.sort items order)
       = List.filter (fun e => bool_decide (dateCreated e = d)) items.
Proof.
  intros Hd. destruct (sort_dated items order Hd) as [Hp Hs].
  split; [exact Hp|]. split; [exact Hs|].
  intros d. rewrite sort_unfold. apply filter_sort_by.
  intros x y Hx Hy. apply bool_decide_eq_true in Hx, Hy.
  apply le_of_same_date. congruence.
Qed.

Lemma X10_sort_orders_dated_records_witness :
  Permutation (entityLists.sort [early; late; late'] entityLists.DESC)
              [early; late; late']
  /\ Sorted (in_order entityLists.DESC)
            (entityLists.sort [early; late; late'] entityLists.DESC)
  /\ forall d,
       List.filter (fun e => bool_decide (dateCreated e = d))
                   (entityLists.sort [early; late; late'] entityLists.DESC)
       = List.filter (fun e => bool_decide (dateCreated e = d))
                     [early; late; late'].
Proof.
  apply (X10_sort_orders_dated_records [early; late; late'] entityLists.DESC).
  repeat constructor.
Defined.

(** X11.  [sort] returns dated records that are already in the order
    asked for as they are, so sorting them twice is sorting them once; and
    a list in which no record carries a date to compare (none, or 0) comes
    back unchanged whatever the order asked for. *)
Theorem X11_sort_keeps_a_list_in_order
    (items : list Entity) (order : entityLists.SortOrder) :
  (Forall (fun e => dated e = true) items ->
   (Sorted (in_order order) items -> entityLists.sort items order = items)
   /\ entityLists.sort (entityLists.sort items order) order
      = entityLists.sort items order)
  /\ (Forall (fun e => dated e = false) items ->
      entityLists.sort items order = items).
Proof.
  split.
  - intros Hd. split.
    + intros Hs. rewrite sort_unfold. apply sort_by_sorted_id.
      apply Sorted_impl_Forall
        with (R1 := in_order order) (Q := fun e => dated e = true);
        [|exact Hd|exact Hs].
      intros a b. apply in_order_le_of.
    + rewrite !sort_unfold. apply sort_by_sorted_id.
      apply sort_by_sorted. apply compareFn_total.
  - intros Hu. rewrite sort_unfold. apply sort_by_sorted_id.
    induction Hu as [|x l Hx Hu IH]; [constructor|].
    constructor; [exact IH|]. destruct l as [|y l]; constructor.
    unfold le_of, entityLists.compareFn. unfold dated in Hx.
    destruct (dateCreated x) as [a|]; [|reflexivity].
    apply negb_false_iff in Hx. rewrite Hx.
    destruct (dateCreated y); reflexivity.
Qed.

Lemma X11_sort_keeps_a_list_in_order_witness :
  entityLists.sort [late; late'; early] entityLists.DESC
  = [late; late'; early]
  /\ entityLists.sort [newcomer; again] entityLists.ASC = [newcomer; again].
Proof.
  destruct (X11_sort_keeps_a_list_in_order [late; late'; early]
              entityLists.DESC) as [A _].
  destruct (X11_sort_keeps_a_list_in_order [newcomer; again]
              entityLists.ASC) as [_ B].
  split.
  - apply (proj1 (A ltac:(repeat constructor))).
    repeat (constructor; try (vm_compute; reflexivity)).
  - apply B. repeat constructor.
Defined.

Section SpliceFacts.
Import entityLists.

Lemma splice_out_absent i items :
  Forall (fun x => id x <> i) items -> splice_out i items = items.
Proof.
  induction 1 as [|x l Hx _ IH]; [reflexivity|].
  cbn [splice_out]. destruct (decide (id x = i)); [contradiction|].
  rewrite IH. reflexivity.
Qed.

Lemma splice_out_split i items :
  (Forall (fun x => id x <> i) items /\ splice_out i items = items)
  \/ exists l1 x l2,
       items = (l1 ++ x :: l2)%list /\ id x = i
       /\ Forall (fun y => id y <> i) l1
       /\ splice_out i items = (l1 ++ l2)%list.
Proof.
  induction items as [|x l IH]; [left; split; [constructor|reflexivity]|].
  cbn [splice_out]. destruct (decide (id x = i)) as [He|Hne].
  - right. exists [], x, l. repeat split; [exact He|constructor].
  - destruct IH as [[Hall Heq]|(l1 & y & l2 & -> & Hy & Hl1 & Heq)].
    + left. split; [constructor; assumption|]. rewrite Heq. reflexivity.
    + right. exists (x :: l1), y, l2. rewrite Heq.
      repeat split; [exact Hy|constructor; assumption].
Qed.

Lemma splice_merge_split item items :
  (Forall (fun x => id x <> id item) items /\ splice_merge item items = items)
  \/ exists l1 x l2,
       items = (l1 ++ x :: l2)%list /\ id x = id item
       /\ Forall (fun y => id y <> id item) l1
       /\ splice_merge item items = (l1 ++ spread x item :: l2)%list.
Proof.
  induction items as [|x l IH]; [left; split; [constructor|reflexivity]|].
  cbn [splice_merge]. destruct (decide (id x = id item)) as [He|Hne].
  - right. exists [], x, l. repeat split; [exact He|constructor].
  - destruct IH as [[Hall Heq]|(l1 & y & l2 & -> & Hy & Hl1 & Heq)].
    + left. split; [constructor; assumption|]. rewrite Heq. reflexivity.
    + right. exists (x :: l1), y, l2. rewrite Heq.
      repeat split; [exact Hy|constructor; assumption].
Qed.

Lemma spread_same_id x item : id x = id item -> id (spread x item) = id x.
Proof.
  intros H. unfold spread. cbn [id]. rewrite <- H. apply orElse_idemp.
Qed.

Lemma spread_dated x item :
  dated x = true -> dateCreated item = None \/ dated item = true ->
  dated (spread x item) = true.
Proof.
  unfold dated, spread. cbn [dateCreated].
  intros Hx [->|Hi]; [exact Hx|].
  destruct (dateCreated item); [exact Hi|discriminate].
Qed.

End SpliceFacts.

(** X12.  [addToListUniqueSorted] on dated records: the array returned
    holds the item and the records the call leaves in the caller's list,
    from which it spliced one record with the item's id, in the order asked
    for.  So it is one longer than the list when no record had that id and
    as long when one had; and when the ids of the list were distinct, so
    are those of the array, the item being its only record with that
    id. *)
Theorem X12_addToListUniqueSorted
    (items : list Entity) (item : Entity) (order : entityLists.SortOrder) :
  Forall (fun e => dated e = true) items -> dated item = true ->
  let out := entityLists.addToListUniqueSorted items item order in
  Permutation (snd out) (item :: fst out)
  /\ Sorted (in_order order) (snd out)
  /\ length (snd out)
     = (if existsb (fun x => bool_decide (id x = id item)) items
        then length items else Datatypes.S (length items))
  /\ (NoDup (id <$> items) ->
      NoDup (id <$> snd out)
      /\ forall x, In x (snd out) -> id x = id item -> x = item).
Proof.
  intros Hd Hi out.
  assert (Hfst : fst out = entityLists.splice_out (id item) items)
    by reflexivity.
  assert (Hsnd : snd out = entityLists.sort (fst out ++ [item]) order)
    by reflexivity.
  assert (Hd' : Forall (fun e => dated e = true) (fst out ++ [item])).
  { apply Forall_app. split; [|repeat constructor; exact Hi].
    rewrite Hfst.
    destruct (splice_out_split (id item) items)
      as [[_ ->]|(l1 & x & l2 & -> & _ & _ & ->)]; [exact Hd|].
    apply Forall_app in Hd as [H1 H2]. apply Forall_cons in H2 as [_ H2].
    apply Forall_app. split; assumption. }
  destruct (sort_dated _ order Hd') as [Hp Hs]. rewrite <- Hsnd in Hp, Hs.
  assert (Hp' : Permutation (snd out) (item :: fst out)).
  { rewrite Hp. rewrite Permutation_app_comm. reflexivity. }
  split; [exact Hp'|]. split; [exact Hs|]. split.
  - rewrite (Permutation_length Hp'). cbn [length]. rewrite Hfst.
    destruct (splice_out_split (id item) items)
      as [[Hall ->]|(l1 & x & l2 & -> & Hx & _ & ->)].
    + replace (existsb _ items) with false; [reflexivity|].
      symmetry. apply not_true_is_false. intros He.
      apply existsb_exists in He as (x & Hin & Hx).
      apply bool_decide_eq_true in Hx. rewrite Forall_forall in Hall.
      apply (Hall x); [apply list_elem_of_In; exact Hin|exact Hx].
    + replace (existsb _ _) with true.
      * rewrite !length_app. cbn [length]. lia.
      * symmetry. apply existsb_exists. exists x.
        split; [apply in_elt|apply bool_decide_eq_true; exact Hx].
  - intros Hn.
    assert (Hrest : NoDup (id <$> fst out)
                    /\ Forall (fun y => id y <> id item) (fst out)).
    { rewrite Hfst.
      destruct (splice_out_split (id item) items)
        as [[Hall ->]|(l1 & x & l2 & -> & Hx & Hl1 & ->)];
        [split; assumption|].
      rewrite fmap_app, fmap_cons in Hn.
      apply NoDup_app in Hn as (Hn1 & Hdisj & Hn2).
      apply NoDup_cons in Hn2 as [Hx2 Hn2]. split.
      - rewrite fmap_app. apply NoDup_app. split; [exact Hn1|].
        split; [|exact Hn2]. intros y Hy Hy'.
        apply (Hdisj y Hy). right. exact Hy'.
      - apply Forall_app. split; [exact Hl1|].
        apply Forall_forall. intros y Hy Heq. apply Hx2.
        rewrite Hx, <- Heq. apply list_elem_of_fmap. exists y. auto. }
    destruct Hrest as [Hn' Hall]. split.
    + rewrite (fmap_Permutation id _ _ Hp'). rewrite fmap_cons.
      apply NoDup_cons. split; [|exact Hn'].
      intros Hin. apply list_elem_of_fmap in Hin as (y & Heq & Hy).
      rewrite Forall_forall in Hall. apply (Hall y Hy). congruence.
    + intros x Hin Hx.
      apply (Permutation_in _ Hp') in Hin as [<-|Hin]; [reflexivity|].
      exfalso. rewrite Forall_forall in Hall.
      apply (Hall x); [apply list_elem_of_In; exact Hin|exact Hx].
Qed.

Lemma X12_addToListUniqueSorted_witness :
  let out := entityLists.addToListUniqueSorted [early; late]
               (with_id "e" late') entityLists.DESC in
  Permutation (snd out) [with_id "e" late'; late]
  /\ length (snd out) = 2
  /\ NoDup (id <$> snd out).
Proof.
  destruct (X12_addToListUniqueSorted [early; late] (with_id "e" late')
              entityLists.DESC) as (A & _ & B & C).
  - repeat constructor.
  - reflexivity.
  - split; [exact A|]. split; [exact B|]. apply C.
    apply (bool_decide_unpack _). vm_compute. exact I.
Defined.

(** X13.  [updateListItem] on dated records, with an item that carries a
    date or none: the caller's list keeps its length and, place by place,
    its ids; the first record with the item's id is replaced by that record
    with the item's attributes laid over it, and a list without such a
    record stays as it is.  The array returned holds the records of the
    list after the call, in the order asked for. *)
Theorem X13_updateListItem
    (items : list Entity) (item : Entity) (order : entityLists.SortOrder) :
  Forall (fun e => dated e = true) items ->
  dateCreated item = None \/ dated item = true ->
  let out := entityLists.updateListItem items item order in
  id <$> fst out = id <$> items
  /\ ((Forall (fun x => id x <> id item) items /\ fst out = items)
      \/ exists l1 x l2,
           items = (l1 ++ x :: l2)%list /\ id x = id item
           /\ Forall (fun y => id y <> id item) l1
           /\ fst out = (l1 ++ spread x item :: l2)%list)
  /\ Permutation (snd out) (fst out)
  /\ Sorted (in_order order) (snd out).
Proof.
  intros Hd Hi out.
  assert (Hfst : fst out = entityLists.splice_merge item items)
    by reflexivity.
  assert (Hsnd : snd out = entityLists.sort (fst out) order) by reflexivity.
  pose proof (splice_merge_split item items) as Hsplit.
  rewrite <- Hfst in Hsplit.
  assert (Hd' : Forall (fun e => dated e = true) (fst out)).
  { destruct Hsplit as [[_ ->]|(l1 & x & l2 & -> & Hx & _ & ->)];
      [exact Hd|].
    apply Forall_app in Hd as [H1 H2]. apply Forall_cons in H2 as [Hxd H2].
    apply Forall_app. split; [exact H1|]. constructor; [|exact H2].
    apply spread_dated; assumption. }
  destruct (sort_dated _ order Hd') as [Hp Hs]. rewrite <- Hsnd in Hp, Hs.
  split; [|split; [exact Hsplit|split; assumption]].
  destruct Hsplit as [[_ ->]|(l1 & x & l2 & -> & Hx & _ & ->)];
    [reflexivity|].
  rewrite !fmap_app, !fmap_cons, (spread_same_id x item Hx). reflexivity.
Qed.

Lemma X13_updateListItem_witness :
  let out := entityLists.updateListItem [early; late]
               (with_id "l" touch) entityLists.DESC in
  id <$> fst out = [Some "e"; Some "l"]
  /\ Permutation (snd out) (fst out)
  /\ Sorted (in_order entityLists.DESC) (snd out).
Proof.
  destruct (X13_updateListItem [early; late] (with_id "l" touch)
              entityLists.DESC) as (A & _ & B & C).
  - repeat constructor.
  - left. reflexivity.
  - split; [exact A|]. split; [exact B|exact C].
Defined.

(** ** unique and checkForDuplicates *)

Section UniqueFacts.

Lemma In_map_set_intro {A} (l : list (string * A)) k x i e :
  (i = k /\ e = x) \/ (In (i, e) l /\ i <> k) -> In (i, e) (map_set k x l).
Proof.
  induction l as [|[k' y] l IH]; cbn [map_set].
  - intros [[-> ->]|[[] _]]. left. reflexivity.
  - destruct (decide (k' = k)) as [->|Hne].
    + intros [[-> ->]|[[Heq|Hin] Hik]].
      * left. reflexivity.
      * injection Heq as -> ->. contradiction.
      * right. exact Hin.
    + intros [[-> ->]|[[Heq|Hin] Hik]].
      * right. apply IH. left. split; reflexivity.
      * left. exact Heq.
      * right. apply IH. right. split; assumption.
Qed.

Lemma length_map_set_fresh {A} k (x : A) m :
  ~ In k (fst <$> m) -> length (map_set k x m) = Datatypes.S (length m).
Proof.
  induction m as [|[k' y] m IH]; [reflexivity|].
  cbn [map_set fmap list_fmap fst]. intros Hn.
  destruct (decide (k' = k)) as [->|Hne].
  - exfalso. apply Hn. left. reflexivity.
  - cbn [length]. rewrite IH; [reflexivity|].
    intros Hin. apply Hn. right. exact Hin.
Qed.

Lemma str_id_inj (a b : Entity) :
  omits_id (id a) = false -> omits_id (id b) = false ->
  str (id a) = str (id b) <-> id a = id b.
Proof.
  destruct (id a) as [s|], (id b) as [s'|]; cbn; try discriminate.
  intros _ _. split; congruence.
Qed.

Lemma assign_all_snoc items a m :
  assign_all (items ++ [a]) m
  = map_assign (str (id a)) a (assign_all items m).
Proof. rewrite assign_all_app. reflexivity. Qed.

Lemma map_assign_plain (a : Entity) m :
  plain_id a -> map_assign (str (id a)) a m = map_set (str (id a)) a m.
Proof.
  intros [Ho Hp]. unfold map_assign.
  destruct (decide (str (id a) = "__proto__")) as [He|]; [|reflexivity].
  exfalso. apply Hp. destruct (id a) as [s|]; [|discriminate].
  cbn in He. congruence.
Qed.

Lemma last_of_its_id_snoc items a x :
  Forall plain_id (items ++ [a]) ->
  last_of_its_id (items ++ [a]) x
  <-> x = a \/ (last_of_its_id items x /\ str (id a) <> str (id x)).
Proof.
  intros Hp. unfold last_of_its_id. split.
  - intros (l1 & l2 & Heq & Hl2).
    destruct l2 as [|y l2 _] using rev_ind.
    + apply app_inj_tail in Heq as [_ <-]. left. reflexivity.
    + rewrite app_comm_cons, app_assoc in Heq.
      apply app_inj_tail in Heq as [-> <-].
      apply Forall_app in Hl2 as [Hl2 Ha].
      apply Forall_cons in Ha as [Ha _].
      right. split; [exists l1, l2; auto|].
      apply Forall_app in Hp as [Hp Hpa].
      apply Forall_cons in Hpa as [[Hoa _] _].
      apply Forall_app in Hp as [_ Hp].
      apply Forall_cons in Hp as [[Hox _] _].
      rewrite str_id_inj by assumption. exact Ha.
  - intros [->|[(l1 & l2 & -> & Hl2) Hne]].
    + exists items, []. split; [reflexivity|constructor].
    + exists l1, (l2 ++ [a])%list. split.
      * rewrite <- app_assoc. reflexivity.
      * apply Forall_app. split; [exact Hl2|]. repeat constructor.
        apply Forall_app in Hp as [Hp Hpa].
        apply Forall_cons in Hpa as [[Hoa _] _].
        apply Forall_app in Hp as [_ Hp].
        apply Forall_cons in Hp as [[Hox _] _].
        rewrite <- str_id_inj by assumption. exact Hne.
Qed.

Lemma assign_all_spec items :
  Forall plain_id items ->
  NoDup (fst <$> assign_all items [])
  /\ forall k x, In (k, x) (assign_all items [])
                 <-> str (id x) = k /\ last_of_its_id items x.
Proof.
  induction items as [|a items IH] using rev_ind.
  - intros _. split; [constructor|]. intros k x. split; [intros []|].
    intros [_ (l1 & l2 & Heq & _)]. destruct l1; discriminate.
  - intros Hp. pose proof Hp as Hp'.
    apply Forall_app in Hp' as [Hpi Hpa]. apply Forall_cons in Hpa as [Hpa _].
    destruct (IH Hpi) as [Hn Hin].
    rewrite assign_all_snoc, (map_assign_plain a _ Hpa).
    split; [apply NoDup_map_set; exact Hn|].
    intros k x. rewrite (last_of_its_id_snoc items a x Hp). split.
    + intros H.
      destruct (In_map_set _ _ _ _ _ Hn H) as [[-> ->]|[H' Hk]].
      * split; [reflexivity|left; reflexivity].
      * apply Hin in H' as [<- Hl]. split; [reflexivity|].
        right. split; [exact Hl|]. congruence.
    + intros [<- [->|[Hl Hne]]]; apply In_map_set_intro.
      * left. split; reflexivity.
      * right. split; [apply Hin; split; [reflexivity|exact Hl]|congruence].
Qed.

Lemma keys_of_values {A} (g : A -> string) (m : list (string * A)) :
  (forall k x, In (k, x) m -> g x = k) -> g <$> (snd <$> m) = fst <$> m.
Proof.
  induction m as [|[k x] m IH]; [reflexivity|].
  intros H. cbn [fmap list_fmap fst snd]. f_equal.
  - apply H. left. reflexivity.
  - apply IH. intros k' x' Hin. apply H. right. exact Hin.
Qed.

Lemma last_of_its_id_In items x : last_of_its_id items x -> In x items.
Proof. intros (l1 & l2 & -> & _). apply in_elt. Qed.

Lemma length_assign_all_distinct items :
  Forall plain_id items -> NoDup (id <$> items) ->
  length (assign_all items []) = length items.
Proof.
  induction items as [|a items IH] using rev_ind; [reflexivity|].
  intros Hp Hn. pose proof Hp as Hp'.
  apply Forall_app in Hp' as [Hpi Hpa]. apply Forall_cons in Hpa as [Hpa _].
  rewrite fmap_app in Hn. apply NoDup_app in Hn as (Hn1 & Hdisj & _).
  rewrite assign_all_snoc, (map_assign_plain a _ Hpa).
  rewrite length_map_set_fresh.
  - rewrite IH by assumption. rewrite length_app. cbn [length]. lia.
  - intros Hin. apply in_map_iff in Hin as ([k x] & Hk & Hin).
    cbn [fst] in Hk. subst k.
    apply (assign_all_spec items Hpi) in Hin as [Hkey Hl].
    apply last_of_its_id_In in Hl.
    apply (Hdisj (id x)).
    + apply list_elem_of_fmap. exists x.
      split; [reflexivity|apply list_elem_of_In; exact Hl].
    + cbn. apply list_elem_of_singleton.
      rewrite Forall_forall in Hpi.
      destruct (Hpi x (proj2 (list_elem_of_In _ _) Hl)) as [Hox _].
      destruct Hpa as [Hoa _].
      apply str_id_inj; assumption.
Qed.

Lemma repeated_split {A B} `{EqDecision B} (f : A -> B) (l : list A) :
  ~ NoDup (f <$> l) ->
  exists l1 a l2 b l3, l = (l1 ++ a :: l2 ++ b :: l3)%list /\ f a = f b.
Proof.
  induction l as [|a l IH]; [intros H; exfalso; apply H; constructor|].
  intros Hn. destruct (decide (f a ∈ f <$> l)) as [Hin|Hnin].
  - apply list_elem_of_fmap in Hin as (b & Hb & Hin).
    apply list_elem_of_In, in_split in Hin as (l2 & l3 & ->).
    exists [], a, l2, b, l3. split; [reflexivity|exact Hb].
  - destruct IH as (l1 & x & l2 & y & l3 & -> & Hxy).
    + intros Hl. apply Hn. rewrite fmap_cons. apply NoDup_cons.
      split; assumption.
    + exists (a :: l1), x, l2, y, l3. split; [reflexivity|exact Hxy].
Qed.

Lemma length_assign_all_proto items m :
  length (assign_all items m)
  <= length m
     + length (List.filter
                 (fun e => negb (bool_decide (str (id e) = "__proto__")))
                 items).
Proof.
  revert m. induction items as [|e items IH]; intros m; [cbn; lia|].
  change (assign_all (e :: items) m)
    with (assign_all items (map_assign (str (id e)) e m)).
  specialize (IH (map_assign (str (id e)) e m)).
  cbn [List.filter]. unfold map_assign in *.
  destruct (decide (str (id e) = "__proto__")) as [He|Hne].
  - rewrite bool_decide_eq_true_2 by exact He. cbn [negb]. exact IH.
  - rewrite bool_decide_eq_false_2 by exact Hne. cbn [negb length].
    pose proof (length_map_set (str (id e)) e m). lia.
Qed.

Lemma filter_length_lt {A} (f : A -> bool) l x :
  In x l -> f x = false -> length (List.filter f l) < length l.
Proof.
  induction l as [|y l IH]; [intros []|].
  intros [->|Hin] Hx; cbn [List.filter length].
  - rewrite Hx. pose proof (List.filter_length_le f l). lia.
  - specialize (IH Hin Hx). destruct (f y); cbn [length]; lia.
Qed.

Context {S : Type}.
Implicit Types (w : World S).

Lemma checkForDuplicates_result w items :
  Forall (fun e => omits_id (id e) = false) items ->
  checkForDuplicates items w
  = (if Nat.eqb (length (assign_all items [])) (length items)
     then Ok tt else Err InvalidRequestException, w).
Proof.
  intros Hf. destruct items as [|e0 rest]; [reflexivity|].
  unfold checkForDuplicates, unique. cbv beta iota. unfold bind.
  rewrite unique_loop_pure by exact Hf.
  unfold ret. rewrite length_fmap. unfold Objects.requireTrue.
  destruct (Nat.eqb _ _); reflexivity.
Qed.

Lemma unique_result w items :
  Forall (fun e => omits_id (id e) = false) items ->
  unique items w = (Ok (snd <$> assign_all items []), w).
Proof.
  intros Hf. destruct items as [|e0 rest]; [reflexivity|].
  unfold unique. cbv beta iota. unfold bind.
  rewrite unique_loop_pure by exact Hf. reflexivity.
Qed.

End UniqueFacts.

(** X14.  [unique] on records whose ids are filled and not ["__proto__"]
    changes nothing and returns one record for every id of the list, the
    last one the list holds with that id: a record is in the result exactly
    when no record after it has its id, and no two records of the result
    share an id. *)
Theorem X14_unique_keeps_the_last_record_of_each_id
    {S : Type} (items : list Entity) (w : World S) :
  Forall plain_id items ->
  exists res,
    unique items w = (Ok res, w)
    /\ NoDup (id <$> res)
    /\ forall x, In x res <-> last_of_its_id items x.
Proof.
  intros Hp.
  assert (Ho : Forall (fun e => omits_id (id e) = false) items).
  { eapply Forall_impl; [exact Hp|]. intros e [H _]. exact H. }
  destruct (assign_all_spec items Hp) as [Hn Hin].
  exists (snd <$> assign_all items []). split; [apply unique_result; exact Ho|].
  assert (Hmem : forall x, In x (snd <$> assign_all items [])
                           <-> last_of_its_id items x).
  { intros x. split.
    - intros H. apply in_map_iff in H as ([k y] & Hy & H).
      cbn [snd] in Hy. subst y. apply Hin in H. tauto.
    - intros Hl. apply in_map_iff. exists (str (id x), x).
      split; [reflexivity|]. apply Hin. split; [reflexivity|exact Hl]. }
  split; [|exact Hmem].
  assert (Hkeys : (fun e => str (id e)) <$> (snd <$> assign_all items [])
                  = fst <$> assign_all items []).
  { apply keys_of_values. intros k x Hx. apply Hin in Hx. tauto. }
  rewrite <- Hkeys in Hn.
  rewrite (list_fmap_compose id str) in Hn.
  eapply NoDup_fmap_1. exact Hn.
Qed.

Lemma X14_unique_keeps_the_last_record_of_each_id_witness :
  exists res,
    unique [alice; bob; with_id "k1" bob] localDemo = (Ok res, localDemo)
    /\ NoDup (id <$> res)
    /\ forall x, In x res
                 <-> last_of_its_id [alice; bob; with_id "k1" bob] x.
Proof.
  apply (X14_unique_keeps_the_last_record_of_each_id
           [alice; bob; with_id "k1" bob] localDemo).
  repeat constructor; discriminate.
Defined.

(** X15.  [checkForDuplicates] on records whose ids are filled and not
    ["__proto__"] changes nothing, returns when the ids are pairwise
    distinct and throws the invalid-request error when two records share
    an id. *)
Theorem X15_checkForDuplicates_accepts_distinct_ids
    {S : Type} (items : list Entity) (w : World S) :
  Forall plain_id items ->
  checkForDuplicates items w
  = (if bool_decide (NoDup (id <$> items))
     then Ok tt else Err InvalidRequestException, w).
Proof.
  intros Hp.
  assert (Ho : Forall (fun e => omits_id (id e) = false) items).
  { eapply Forall_impl; [exact Hp|]. intros e [H _]. exact H. }
  destruct (decide (NoDup (id <$> items))) as [Hn|Hn].
  - rewrite bool_decide_eq_true_2 by exact Hn.
    rewrite checkForDuplicates_result by exact Ho.
    rewrite (length_assign_all_distinct items Hp Hn), Nat.eqb_refl.
    reflexivity.
  - rewrite bool_decide_eq_false_2 by exact Hn.
    destruct (repeated_split id items Hn) as (l1 & a & l2 & b & l3 & -> & Hab).
    apply checkForDuplicates_rejects; [exact Ho|]. rewrite Hab. reflexivity.
Qed.

Lemma X15_checkForDuplicates_accepts_distinct_ids_witness :
  checkForDuplicates [alice; bob] localDemo = (Ok tt, localDemo)
  /\ checkForDuplicates [alice; bob; with_id "k1" bob] localDemo
     = (Err InvalidRequestException, localDemo).
Proof.
  split.
  - apply (X15_checkForDuplicates_accepts_distinct_ids [alice; bob]
             localDemo).
    repeat constructor; discriminate.
  - apply (X15_checkForDuplicates_accepts_distinct_ids
             [alice; bob; with_id "k1" bob] localDemo).
    repeat constructor; discriminate.
Defined.

Section ProtoGuard.
Context {S : Type}.
Implicit Types (w : World S).

(** The first three statements of every [createAll] on a batch in which a
    payload has the id ["__proto__"]. *)
Lemma batch_guard_proto w (payload : list ref) x :
  Forall (fun r => readable_id (env w) (id (obj w r)) = true) payload ->
  In x payload -> id (obj w x) = Some "__proto__" ->
  exists entities entitiesWithIds,
    mapM deref payload w = (Ok entities, w)
    /\ filterM (fun e => b <- isEmpty_string (id e) ;; ret (negb b))
               entities w = (Ok entitiesWithIds, w)
    /\ checkForDuplicates entitiesWithIds w
       = (Err InvalidRequestException, w).
Proof.
  intros Hr Hx Hid. eexists. eexists.
  split; [apply mapM_deref|]. split.
  - apply filter_ids. rewrite Forall_fmap. exact Hr.
  - set (ews := List.filter (fun e => negb (omits_id (id e)))
                            (obj w <$> payload)).
    assert (Ho : Forall (fun e => omits_id (id e) = false) ews).
    { apply Forall_forall. intros e He.
      apply list_elem_of_In, filter_In in He as [_ He].
      apply negb_true_iff in He. exact He. }
    assert (Hin : In (obj w x) ews).
    { apply filter_In. split.
      - apply in_map_iff. exists x. split; [reflexivity|exact Hx].
      - rewrite Hid. reflexivity. }
    rewrite checkForDuplicates_result by exact Ho.
    pose proof (length_assign_all_proto ews []) as Hle.
    assert (Hlt : length (List.filter
                            (fun e => negb (bool_decide
                                              (str (id e) = "__proto__")))
                            ews) < length ews).
    { apply filter_length_lt with (x := obj w x); [exact Hin|].
      rewrite Hid. reflexivity. }
    cbn [length] in Hle.
    destruct (Nat.eqb_spec (length (assign_all ews [])) (length ews));
      [lia|reflexivity].
Qed.

End ProtoGuard.

(** X16.  A batch in which one payload has the id ["__proto__"] (every id
    of the batch being one that [isEmpty] can read) is rejected by
    [createAll] on each adapter with the invalid-request error that stands
    for repeated ids, in an unchanged world, whether or not an id is
    repeated: assigning under that key adds no entry to the object that
    [unique] counts. *)
Theorem X16_createAll_rejects_the_id_proto
    (h : list Entity) (e : Env) (t n : nat)
    (sl : option (list (string * Entity)))
    (sm : list MongoCrudRepository.Doc) (sf : list (string * Entity))
    (payload : list ref) (x : ref) :
  let wl := mkWorld sl h t n e in
  let wm := mkWorld sm h t n e in
  let wf := mkWorld sf h t n e in
  Forall (fun r => readable_id e (id (obj wl r)) = true) payload ->
  In x payload -> id (obj wl x) = Some "__proto__" ->
  LocalStorageCrudRepository.createAll payload wl
    = (Err InvalidRequestException, wl)
  /\ MongoCrudRepository.createAll payload wm
     = (Err InvalidRequestException, wm)
  /\ FirestoreCrudRepository.createAll payload wf
     = (Err InvalidRequestException, wf).
Proof.
  intros wl wm wf Hr Hx Hid. split; [|split].
  - destruct (batch_guard_proto wl payload x Hr Hx Hid)
      as (es & ews & H1 & H2 & H3).
    destruct payload as [|r0 rest]; [destruct Hx|].
    unfold LocalStorageCrudRepository.createAll. cbv beta iota.
    unfold bind at 1. rewrite H1.
    unfold bind at 1. rewrite H2. unfold bind at 1. rewrite H3. reflexivity.
  - destruct (batch_guard_proto wm payload x Hr Hx Hid)
      as (es & ews & H1 & H2 & H3).
    destruct payload as [|r0 rest]; [destruct Hx|].
    unfold MongoCrudRepository.createAll. cbv beta iota.
    unfold bind at 1. rewrite H1.
    unfold bind at 1. rewrite H2. unfold bind at 1. rewrite H3. reflexivity.
  - destruct (batch_guard_proto wf payload x Hr Hx Hid)
      as (es & ews & H1 & H2 & H3).
    destruct payload as [|r0 rest]; [destruct Hx|].
    unfold FirestoreCrudRepository.createAll. cbv beta iota.
    unfold bind at 1. rewrite H1.
    unfold bind at 1. rewrite H2. unfold bind at 1. rewrite H3. reflexivity.
Qed.

Lemma X16_createAll_rejects_the_id_proto_witness :
  LocalStorageCrudRepository.createAll [0]
    (mkWorld None protoHeap 0 0 demoEnv)
  = (Err InvalidRequestException, mkWorld None protoHeap 0 0 demoEnv)
  /\ MongoCrudRepository.createAll [0] (mkWorld [] protoHeap 0 0 demoEnv)
     = (Err InvalidRequestException, mkWorld [] protoHeap 0 0 demoEnv)
  /\ FirestoreCrudRepository.createAll [0] (mkWorld [] protoHeap 0 0 demoEnv)
     = (Err InvalidRequestException, mkWorld [] protoHeap 0 0 demoEnv).
Proof.
  apply (X16_createAll_rejects_the_id_proto protoHeap demoEnv 0 0
           None [] [] [0] 0).
  - repeat constructor.
  - left. reflexivity.
  - reflexivity.
Defined.

(** ** findOneBy *)

Section LocalFindOneBy.
Import LocalStorageCrudRepository.

Lemma getField_candidates key item v :
  getField key item = Some v ->
  In key (["id"; "deleted"; "dateCreated"; "dateUpdated"; "dateDeleted";
           "version"] ++ (map_to_list (fields item)).*1)%list.
Proof.
  unfold getField. intros H. apply in_or_app.
  repeat (destruct (decide _) as [->|];
          [left; cbn; tauto|]).
  right. apply list_elem_of_In, list_elem_of_fmap. exists (key, v).
  split; [reflexivity|]. apply elem_of_map_to_list. exact H.
Qed.

Lemma ownKeys_any_match (flt : Filter) item :
  NoDup (fst <$> flt) ->
  existsb (fun key => bool_decide (getField key item = map_get key flt))
          (ownKeys item)
  = or_match getField flt item.
Proof.
  intros Hn. unfold or_match. apply eq_true_iff_eq.
  rewrite !existsb_exists. split.
  - intros (key & Hin & Heq). apply bool_decide_eq_true in Heq.
    unfold ownKeys in Hin. apply filter_In in Hin as [_ Hs].
    apply bool_decide_eq_true in Hs as [v Hv].
    exists (key, v). cbn [fst snd].
    split; [|apply bool_decide_eq_true; exact Hv].
    apply map_get_Some_In. congruence.
  - intros ([key v] & Hin & Heq). cbn [fst snd] in Heq.
    apply bool_decide_eq_true in Heq. exists key. split.
    + unfold ownKeys. apply filter_In.
      split; [eapply getField_candidates; exact Heq|].
      apply bool_decide_eq_true. rewrite Heq. eexists. reflexivity.
    + apply bool_decide_eq_true. rewrite Heq. symmetry.
      apply map_get_In; assumption.
Qed.

Lemma last_cons_from {A} (x : A) l :
  last (x :: l) = Some (default x (last l)).
Proof.
  rewrite last_cons. destruct (last l); reflexivity.
Qed.

Lemma scan_last (P : Entity -> bool) (l : list (string * Entity)) acc :
  fold_left (fun result '(recordKey, item) =>
               if P item then Some item else result) l acc
  = match last (List.filter P (snd <$> l)) with
    | Some x => Some x
    | None => acc
    end.
Proof.
  revert acc. induction l as [|[k x] l IH]; intros acc; [reflexivity|].
  cbn [fold_left fmap list_fmap snd List.filter]. rewrite IH.
  destruct (P x); [|reflexivity].
  rewrite last_cons. destruct (last (List.filter P (snd <$> l))); reflexivity.
Qed.

Lemma fold_left_pointwise {A B} (f g : A -> B -> A) l a :
  (forall a b, f a b = g a b) -> fold_left f l a = fold_left g l a.
Proof.
  intros H. revert a. induction l as [|b l IH]; intros a; [reflexivity|].
  cbn [fold_left]. rewrite H. apply IH.
Qed.

End LocalFindOneBy.

(** X17.  [findOneBy] on the local adapter, with a filter whose keys are
    distinct, takes no notice of the options and changes nothing: it
    returns the last record in storage order that is not deleted and equals
    the filter at one of its fields at least, and nothing when there is
    none, in particular for the empty filter. *)
Theorem X17_local_findOneBy_returns_the_last_match_of_any_field
    (flt : Filter) (o : option QueryOptions)
    (w : World (option (list (string * Entity)))) :
  NoDup (fst <$> flt) ->
  LocalStorageCrudRepository.findOneBy flt o w
  = (Ok (last (List.filter
                 (fun item => live item && or_match getField flt item)
                 (snd <$> default [] (store w)))), w).
Proof.
  intros Hn. unfold LocalStorageCrudRepository.findOneBy, bind, getStore.
  destruct (store w) as [object|]; [|reflexivity].
  unfold ret. cbn [from_option Datatypes.id]. f_equal. f_equal.
  rewrite fold_left_pointwise
    with (g := fun result '(recordKey, item) =>
                 if live item && or_match getField flt item
                 then Some item else result).
  - rewrite scan_last. destruct (last _); reflexivity.
  - intros result [recordKey item].
    rewrite (ownKeys_any_match flt item Hn). unfold live.
    unfold LocalStorageCrudRepository.truthy.
    destruct (deleted item) as [[|]|]; reflexivity.
Qed.

Lemma X17_local_findOneBy_witness :
  LocalStorageCrudRepository.findOneBy emailOrName None localDemo
  = (Ok (Some bob), localDemo)
  /\ LocalStorageCrudRepository.findOneBy [] None localDemo
     = (Ok None, localDemo).
Proof.
  split.
  - rewrite (X17_local_findOneBy_returns_the_last_match_of_any_field
               emailOrName None localDemo).
    + reflexivity.
    + apply (bool_decide_unpack _). vm_compute. exact I.
  - rewrite (X17_local_findOneBy_returns_the_last_match_of_any_field
               [] None localDemo).
    + reflexivity.
    + constructor.
Defined.

Section FirestoreFindOneBy.
Import FirestoreCrudRepository.

Lemma explicit_order_total a b :
  explicit_order a b = true \/ explicit_order b a = true.
Proof.
  unfold explicit_order, desc_bool, desc_num.
  destruct (Z.compare_spec (rank_bool (deleted (snd b)))
                           (rank_bool (deleted (snd a)))) as [Hr|Hr|Hr].
  - rewrite Hr, Z.compare_refl. cbn [lex].
    destruct (dateCreated (snd a)) as [x|], (dateCreated (snd b)) as [y|];
      cbn [lex not_after]; try (left; reflexivity); try (right; reflexivity).
    + destruct (Z.compare_spec y x) as [Hd|Hd|Hd].
      * subst y. rewrite Z.compare_refl. cbn [lex].
        rewrite (String.compare_antisym (fst a) (fst b)).
        destruct (String.compare (fst b) (fst a)); cbn;
          [left|left|right]; reflexivity.
      * left. reflexivity.
      * right. rewrite (proj2 (Z.compare_lt_iff x y)) by lia. reflexivity.
    + rewrite (String.compare_antisym (fst a) (fst b)).
      destruct (String.compare (fst b) (fst a)); cbn;
        [left|left|right]; reflexivity.
  - left. reflexivity.
  - right. rewrite (proj2 (Z.compare_lt_iff _ _)) by lia. reflexivity.
Qed.

Lemma Sorted_take {A} (R : A -> A -> Prop) n l :
  Sorted R l -> Sorted R (take n l).
Proof.
  intros Hs. revert n. induction Hs as [|x l Hs IH Hhd]; intros n.
  - destruct n; constructor.
  - destruct n as [|n]; [constructor|]. cbn [take].
    constructor; [apply IH|].
    destruct Hhd as [|y l' Hxy]; [destruct n; constructor|].
    destruct n; constructor. exact Hxy.
Qed.

Lemma satisfies_createQuery_live flt o e :
  satisfies (qfilter (createQuery flt o)) e = true -> deleted e = Some false.
Proof.
  unfold createQuery, orderAndLimit. cbn [qfilter].
  destruct (o ≫= logicalOperator) as [[| |]|];
    cbn [satisfies forallb]; intros H.
  - apply andb_true_iff in H as [H _]. apply holds_notTrue. exact H.
  - destruct (List.map _ flt); [|apply andb_true_iff in H as [H _]];
      apply holds_notTrue; exact H.
  - destruct (List.map _ flt); [|apply andb_true_iff in H as [H _]];
      apply holds_notTrue; exact H.
  - apply andb_true_iff in H as [H _]. apply holds_notTrue. exact H.
Qed.

Lemma explicit_then_newest a b :
  deleted (snd a) = Some false -> deleted (snd b) = Some false ->
  has_order_fields (snd a) = true -> has_order_fields (snd b) = true ->
  explicit_order a b = true -> newest_first a b = true.
Proof.
  unfold explicit_order, newest_first, has_order_fields, desc_bool, desc_num.
  intros -> -> Ha Hb. cbn [rank_bool]. rewrite Z.compare_refl. cbn [lex].
  apply andb_true_iff in Ha as [_ Ha], Hb as [_ Hb].
  apply bool_decide_eq_true in Ha as [x ->], Hb as [y ->].
  destruct (Z.compare_spec y x); cbn [lex not_after]; intros Hc;
    try discriminate; apply Z.leb_le; lia.
Qed.

Lemma getDocs_createQuery_sorted flt o (w : World Collection) :
  exists docs,
    getDocs (createQuery flt o) w = (Ok docs, w)
    /\ Sorted (fun a b => newest_first a b = true) docs
    /\ Forall (fun d => In d (store w) /\ deleted (snd d) = Some false
                        /\ is_Some (dateCreated (snd d))) docs.
Proof.
  unfold getDocs, bind, getStore, ret.
  change (ordered (createQuery flt o)) with true. cbv iota.
  eexists. split; [reflexivity|].
  set (matched := List.filter _ (store w)).
  set (dated := List.filter _ matched).
  assert (Hall : Forall (fun d => In d (store w)
                                  /\ deleted (snd d) = Some false
                                  /\ has_order_fields (snd d) = true) dated).
  { apply Forall_forall. intros d Hd.
    apply list_elem_of_In, filter_In in Hd as [Hd Ho].
    apply filter_In in Hd as [Hin Hs].
    split; [exact Hin|]. split; [|exact Ho].
    eapply satisfies_createQuery_live. exact Hs. }
  assert (Hsorted : Forall (fun d => In d (store w)
                                     /\ deleted (snd d) = Some false
                                     /\ has_order_fields (snd d) = true)
                           (sort_by explicit_order dated)).
  { eapply Forall_perm; [apply sort_by_perm|exact Hall]. }
  assert (Htrunc : forall n, Forall (fun d => In d (store w)
                                     /\ deleted (snd d) = Some false
                                     /\ has_order_fields (snd d) = true)
                           (truncate n (sort_by explicit_order dated))).
  { intros [n|]; cbn [truncate]; [|exact Hsorted].
    apply Forall_take. exact Hsorted. }
  split.
  - apply Sorted_impl_Forall
      with (R1 := fun a b => explicit_order a b = true)
           (Q := fun d => In d (store w) /\ deleted (snd d) = Some false
                          /\ has_order_fields (snd d) = true).
    + intros a b (_ & Ha & Ha') (_ & Hb & Hb'). apply explicit_then_newest;
        assumption.
    + apply Htrunc.
    + destruct (qlimit (createQuery flt o)) as [n|]; cbn [truncate].
      * apply Sorted_take, sort_by_sorted, explicit_order_total.
      * apply sort_by_sorted, explicit_order_total.
  - eapply Forall_impl; [apply Htrunc|].
    intros d (Hin & Hd & Ho). split; [exact Hin|]. split; [exact Hd|].
    unfold has_order_fields in Ho. apply andb_true_iff in Ho as [_ Ho].
    apply bool_decide_eq_true in Ho. exact Ho.
Qed.

Lemma fs_findOneBy_head flt o (w : World Collection) :
  exists res,
    findAll (Some flt) o w = (Ok res, w)
    /\ findOneBy flt o w = (Ok (head res), w)
    /\ Forall (fun x => deleted x = Some false) res.
Proof.
  destruct (getDocs_createQuery_sorted flt o w) as (docs & Hg & Hs & Hall).
  unfold findAll, findOneBy, _findBy, bind. rewrite Hg. unfold ret.
  destruct docs as [|d docs]; [exists []; repeat split; constructor|].
  rewrite (sort_by_sorted_id newest_first (d :: docs) Hs).
  eexists. split; [reflexivity|]. split; [reflexivity|].
  apply Forall_fmap. eapply Forall_impl; [exact Hall|].
  intros x (_ & Hx & _). exact Hx.
Qed.

End FirestoreFindOneBy.

Section MongoFindOneBy.
Import MongoCrudRepository.

Lemma mongo_findOneBy_first flt o (w : World Collection) :
  match findAll (Some flt) o w with
  | (Ok res, w') =>
      w' = w
      /\ exists x,
           findOneBy flt o w = (Ok x, w)
           /\ (x = None <-> res = [])
           /\ forall d, x = Some d ->
                In d res
                /\ exists l1 l2, store w = (l1 ++ d :: l2)%list
                                 /\ Forall (fun y => ~ In y res) l1
  | (Err e, w') => w' = w /\ findOneBy flt o w = (Err e, w)
  end.
Proof.
  unfold findAll, findBy, findOneBy, findOne, find, bind, getStore, ret, throw.
  destruct (well_formed (createFilter flt o)); [|split; reflexivity].
  set (q := createFilter flt o).
  split; [reflexivity|]. eexists. split; [reflexivity|].
  assert (Hmem : forall y, In y (sort_by by_dateCreated
                                   (List.filter (matches q) (store w)))
                           <-> In y (store w) /\ matches q y = true).
  { intros y. rewrite <- filter_In. split; apply Permutation_in;
      [|symmetry]; apply sort_by_perm. }
  split.
  - split.
    + intros Hh. apply head_sort_by_None with (le := by_dateCreated).
      destruct (List.filter (matches q) (store w)); [reflexivity|discriminate].
    + intros Hs. destruct (List.filter (matches q) (store w)) as [|x l] eqn:E;
        [reflexivity|].
      exfalso. assert (Hin : In x (sort_by by_dateCreated (x :: l))).
      { apply (Permutation_in x (Permutation_sym (sort_by_perm _ (x :: l)))).
        left. reflexivity. }
      rewrite Hs in Hin. destruct Hin.
  - intros d Hd. apply head_filter_Some in Hd as (l1 & l2 & Hst & Hm & Hl1).
    split.
    + apply Hmem. split; [rewrite Hst; apply in_elt|exact Hm].
    + exists l1, l2. split; [exact Hst|].
      apply Forall_forall. intros y Hy Hin. apply Hmem in Hin as [_ Hin].
      rewrite Forall_forall in Hl1. rewrite (Hl1 y Hy) in Hin. discriminate.
Qed.

End MongoFindOneBy.

(** X18.  [findOneBy] against [findAll] with the same filter and options.
    On the cloud store both return, nothing is changed, and [findOneBy]
    gives the first record of the list [findAll] gives, the newest; every
    record of that list has [deleted] false.  On the document database
    [findOneBy] throws what [findAll] throws; when [findAll] returns,
    [findOneBy] gives nothing exactly when the list is empty and otherwise
    the record of that list that comes first in the collection, whatever
    its date. *)
Theorem X18_findOneBy_agrees_with_findAll
    (flt : Filter) (o : option QueryOptions)
    (wf : World (list (string * Entity)))
    (wm : World (list MongoCrudRepository.Doc)) :
  (exists res,
     FirestoreCrudRepository.findAll (Some flt) o wf = (Ok res, wf)
     /\ FirestoreCrudRepository.findOneBy flt o wf = (Ok (head res), wf)
     /\ Forall (fun x => deleted x = Some false) res)
  /\ match MongoCrudRepository.findAll (Some flt) o wm with
     | (Ok res, w') =>
         w' = wm
         /\ exists x,
              MongoCrudRepository.findOneBy flt o wm = (Ok x, wm)
              /\ (x = None <-> res = [])
              /\ forall d, x = Some d ->
                   In d res
                   /\ exists l1 l2, store wm = (l1 ++ d :: l2)%list
                                    /\ Forall (fun y => ~ In y res) l1
     | (Err e, w') =>
         w' = wm /\ MongoCrudRepository.findOneBy flt o wm = (Err e, wm)
     end.
Proof.
  split; [apply fs_findOneBy_head|apply mongo_findOneBy_first].
Qed.

(** ** Filters taken as a conjunction *)

Section MongoAnd.
Import MongoCrudRepository.

Lemma createFilterOnly_conds (flt : Filter) init :
  NoDup (fst <$> flt) -> NoDup (fst <$> init) ->
  NoDup (fst <$> fold_left filter_step flt init)
  /\ forall k c,
       In (k, c) (fold_left filter_step flt init)
       <-> (exists v, In (k, v) flt /\ c = EqExists v)
           \/ (~ In k (fst <$> flt) /\ In (k, c) init).
Proof.
  induction flt as [|[k0 v0] flt IH] using rev_ind.
  - intros _ Hi. split; [exact Hi|]. intros k c. cbn. split.
    + intros H. right. split; [tauto|exact H].
    + intros [(v & [] & _)|[_ H]]. exact H.
  - intros Hn Hi. rewrite fmap_app in Hn.
    apply NoDup_app in Hn as (Hn & Hdisj & _).
    destruct (IH Hn Hi) as [Hnd Hin].
    rewrite fold_left_app. cbn [fold_left].
    change (filter_step (fold_left filter_step flt init) (k0, v0))
      with (map_set k0 (EqExists v0) (fold_left filter_step flt init)).
    split; [apply NoDup_map_set; exact Hnd|].
    assert (Hk0 : ~ In k0 (fst <$> flt)).
    { intros H. apply (Hdisj k0); [apply list_elem_of_In; exact H|].
      cbn. apply list_elem_of_singleton. reflexivity. }
    intros k c. split.
    + intros H. destruct (In_map_set _ _ _ _ _ Hnd H) as [[-> ->]|[H' Hk]].
      * left. exists v0. split; [apply in_or_app; right; left|]; reflexivity.
      * apply Hin in H' as [(v & Hv & ->)|[Hno Hinit]].
        -- left. exists v. split; [apply in_or_app; left; exact Hv|reflexivity].
        -- right. split; [|exact Hinit]. rewrite fmap_app.
           intros Hx. apply in_app_or in Hx as [Hx|[Hx|[]]]; [tauto|].
           cbn in Hx. congruence.
    + intros H. apply In_map_set_intro.
      destruct H as [(v & Hv & ->)|[Hno Hinit]].
      * apply in_app_or in Hv as [Hv|[Hv|[]]].
        -- right. split.
           ++ apply Hin. left. exists v. split; [exact Hv|reflexivity].
           ++ intros ->. apply Hk0. apply in_map_iff. exists (k0, v).
              split; [reflexivity|exact Hv].
        -- injection Hv as -> ->. left. split; reflexivity.
      * rewrite fmap_app in Hno. right. split.
        -- apply Hin. right. split; [|exact Hinit].
           intros Hx. apply Hno. apply in_or_app. left. exact Hx.
        -- intros ->. apply Hno. apply in_or_app. right. left. reflexivity.
Qed.

Lemma cond_NeTrue_live d : cond_holds d ("deleted", NeTrue) = live (body d).
Proof.
  unfold cond_holds, docField, live. cbn [fst snd].
  destruct (deleted (body d)) as [[|]|] eqn:E;
    unfold getField; cbn; rewrite E; reflexivity.
Qed.

Lemma matches_createFilterOnly (flt : Filter) d :
  NoDup (fst <$> flt) ->
  matches (createFilterOnly flt) d
  = (bool_decide ("deleted" ∈ fst <$> flt) || live (body d))
    && and_match docField flt d.
Proof.
  intros Hn. unfold createFilterOnly.
  change (fold_left _ flt [("deleted", NeTrue)])
    with (fold_left filter_step flt [("deleted", NeTrue)]).
  destruct (createFilterOnly_conds flt [("deleted", NeTrue)] Hn)
    as [_ Hin]; [apply NoDup_singleton|].
  cbn [matches]. unfold all_hold, and_match.
  apply eq_true_iff_eq. rewrite andb_true_iff, orb_true_iff, !forallb_forall.
  split.
  - intros H. split.
    + destruct (decide ("deleted" ∈ fst <$> flt)) as [Hd|Hd].
      * left. apply bool_decide_eq_true. exact Hd.
      * right. rewrite <- cond_NeTrue_live. apply H.
        apply Hin. right. split; [|left; reflexivity].
        intros Hx. apply Hd, list_elem_of_In. exact Hx.
    + intros [k v] Hkv. cbn [fst snd].
      apply (H (k, EqExists v)). apply Hin. left. exists v. auto.
  - intros [Hd Hall] [k c] Hkc. apply Hin in Hkc as [(v & Hv & ->)|[Hno Hi]].
    + apply (Hall (k, v) Hv).
    + destruct Hi as [[= <- <-]|[]]. destruct Hd as [Hd|Hd].
      * apply bool_decide_eq_true, list_elem_of_In in Hd. contradiction.
      * rewrite cond_NeTrue_live. exact Hd.
Qed.

Lemma createFilter_conjunctive flt o :
  conjunctive o -> createFilter flt o = createFilterOnly flt.
Proof.
  intros [[H|H] _]; unfold createFilter; rewrite H; reflexivity.
Qed.

Lemma by_dateCreated_newer a b :
  by_dateCreated a b = true -> newer_or_same (body a) (body b).
Proof. intros H. exact H. Qed.

Lemma mongo_findAll_and (w : World Collection) (flt : Filter) o :
  conjunctive o -> NoDup (fst <$> flt) ->
  exists res,
    findAll (Some flt) o w = (Ok res, w)
    /\ Permutation res
         (List.filter
            (fun d => (bool_decide ("deleted" ∈ fst <$> flt)
                       || live (body d))
                      && and_match docField flt d)
            (store w))
    /\ Sorted (fun a b => newer_or_same (body a) (body b)) res.
Proof.
  intros Ho Hn. unfold findAll, findBy.
  rewrite (createFilter_conjunctive flt o Ho).
  unfold bind. rewrite mongo_find_spec by reflexivity. unfold ret.
  eexists. split; [reflexivity|]. split.
  - rewrite sort_by_perm. erewrite List.filter_ext; [reflexivity|].
    intros d. apply matches_createFilterOnly. exact Hn.
  - apply sort_by_sorted. apply by_dateCreated_total.
Qed.

End MongoAnd.

Section FirestoreAnd.
Import FirestoreCrudRepository.

Lemma satisfies_conj flt e :
  satisfies (Conj (WhereNotTrue "deleted"
                     :: List.map (fun kv => WhereEq (fst kv) (snd kv)) flt)) e
  = bool_decide (deleted e = Some false) && and_match getField flt e.
Proof.
  cbn [satisfies forallb]. f_equal.
  - apply eq_true_iff_eq. rewrite holds_notTrue, bool_decide_eq_true.
    reflexivity.
  - unfold and_match. induction flt as [|[k v] flt IH]; [reflexivity|].
    cbn [List.map forallb fst snd holds]. rewrite IH. reflexivity.
Qed.

Lemma conj_ordered flt e :
  satisfies (Conj (WhereNotTrue "deleted"
                     :: List.map (fun kv => WhereEq (fst kv) (snd kv)) flt)) e
  && has_order_fields e
  = bool_decide (deleted e = Some false) && and_match getField flt e
    && bool_decide (is_Some (dateCreated e)).
Proof.
  rewrite satisfies_conj. unfold has_order_fields.
  destruct (bool_decide (deleted e = Some false)) eqn:Hd; [|reflexivity].
  apply bool_decide_eq_true in Hd. rewrite Hd.
  rewrite (bool_decide_eq_true_2 (is_Some (Some false)))
    by (eexists; reflexivity).
  reflexivity.
Qed.

Lemma fs_findAll_and (w : World Collection) (flt : Filter) o :
  conjunctive o ->
  exists res,
    findAll (Some flt) o w = (Ok res, w)
    /\ Permutation res
         (snd <$> List.filter
                    (fun d => bool_decide (deleted (snd d) = Some false)
                              && and_match getField flt (snd d)
                              && bool_decide (is_Some (dateCreated (snd d))))
                    (store w))
    /\ Sorted newer_or_same res.
Proof.
  intros [Hop Hlim].
  destruct (getDocs_createQuery_sorted flt o w) as (docs & Hg & Hs & Hall).
  assert (Hdocs : Permutation docs
            (List.filter
               (fun d => bool_decide (deleted (snd d) = Some false)
                         && and_match getField flt (snd d)
                         && bool_decide (is_Some (dateCreated (snd d))))
               (store w))).
  { revert Hg. unfold getDocs, bind, getStore, ret.
    change (ordered (createQuery flt o)) with true. cbv iota.
    assert (Hq : qlimit (createQuery flt o) = None).
    { unfold createQuery, orderAndLimit. cbn [qlimit].
      destruct Hlim as [-> | ->]; reflexivity. }
    assert (Hf : qfilter (createQuery flt o)
                 = Conj (WhereNotTrue "deleted"
                           :: List.map (fun kv => WhereEq (fst kv) (snd kv))
                                       flt)).
    { unfold createQuery, orderAndLimit. cbn [qfilter].
      destruct Hop as [-> | ->]; reflexivity. }
    rewrite Hq, Hf. cbn [truncate]. intros [= <-].
    rewrite sort_by_perm, filter_twice.
    erewrite List.filter_ext; [reflexivity|].
    intros d. exact (conj_ordered flt (snd d)). }
  unfold findAll, _findBy, bind. rewrite Hg. unfold ret.
  destruct docs as [|d docs].
  - exists []. split; [reflexivity|]. split; [|constructor].
    rewrite <- Hdocs. reflexivity.
  - rewrite (sort_by_sorted_id newest_first (d :: docs) Hs).
    eexists. split; [reflexivity|]. split.
    + apply fmap_Permutation. exact Hdocs.
    + apply Sorted_fmap_impl
        with (R1 := fun a b => newest_first a b = true)
             (Q := fun x => is_Some (dateCreated (snd x))).
      * intros a b Ha Hb. apply newest_first_newer; assumption.
      * eapply Forall_impl; [exact Hall|]. intros x (_ & _ & Hx). exact Hx.
      * exact Hs.
Qed.

End FirestoreAnd.

(** X19.  [findAll] with a filter whose keys are distinct, options that
    ask for the conjunction (the default) and no limit.  The document
    database returns the documents that equal the filter at every field
    and are not deleted, the newest first; but when the filter itself has
    the key [deleted], its value stands in place of the adapter's own
    condition, and deleted documents can be listed.  The cloud store
    returns the documents that equal the filter at every field, have
    [deleted] false and carry a [dateCreated], the newest first. *)
Theorem X19_findAll_with_a_conjunctive_filter
    (flt : Filter) (o : option QueryOptions)
    (wm : World (list MongoCrudRepository.Doc))
    (wf : World (list (string * Entity))) :
  conjunctive o -> NoDup (fst <$> flt) ->
  (exists res,
     MongoCrudRepository.findAll (Some flt) o wm = (Ok res, wm)
     /\ Permutation res
          (List.filter
             (fun d => (bool_decide ("deleted" ∈ fst <$> flt)
                        || live (MongoCrudRepository.body d))
                       && and_match MongoCrudRepository.docField flt d)
             (store wm))
     /\ Sorted (fun a b => newer_or_same (MongoCrudRepository.body a)
                                         (MongoCrudRepository.body b)) res)
  /\ (exists res,
        FirestoreCrudRepository.findAll (Some flt) o wf = (Ok res, wf)
        /\ Permutation res
             (snd <$> List.filter
                        (fun d =>
                           bool_decide (deleted (snd d) = Some false)
                           && and_match getField flt (snd d)
                           && bool_decide (is_Some (dateCreated (snd d))))
                        (store wf))
        /\ Sorted newer_or_same res).
Proof.
  intros Ho Hn. split.
  - apply mongo_findAll_and; assumption.
  - apply fs_findAll_and. exact Ho.
Qed.

Lemma X19_findAll_with_a_conjunctive_filter_witness :
  (exists res,
     MongoCrudRepository.findAll (Some namedA) None mongoDemo
     = (Ok res, mongoDemo)
     /\ Permutation res
          (List.filter
             (fun d => (bool_decide ("deleted" ∈ fst <$> namedA)
                        || live (MongoCrudRepository.body d))
                       && and_match MongoCrudRepository.docField namedA d)
             (store mongoDemo))
     /\ Sorted (fun a b => newer_or_same (MongoCrudRepository.body a)
                                         (MongoCrudRepository.body b)) res)
  /\ (exists res,
        FirestoreCrudRepository.findAll (Some namedA) None firestoreDemo
        = (Ok res, firestoreDemo)
        /\ Permutation res
             (snd <$> List.filter
                        (fun d =>
                           bool_decide (deleted (snd d) = Some false)
                           && and_match getField namedA (snd d)
                           && bool_decide (is_Some (dateCreated (snd d))))
                        (store firestoreDemo))
        /\ Sorted newer_or_same res).
Proof.
  apply (X19_findAll_with_a_conjunctive_filter namedA None mongoDemo
           firestoreDemo).
  - split; left; reflexivity.
  - apply NoDup_singleton.
Defined.

(** X20.  [findAll] with the filter [{ deleted: true }] and options that
    ask for the conjunction.  On the document database the filter's
    condition replaces the adapter's own, and the answer is the documents
    that are marked deleted.  On the local adapter deleted records are
    skipped before the filter is looked at, and the answer is the empty
    list. *)
Theorem X20_findAll_for_deleted_records
    (o : option QueryOptions)
    (wm : World (list MongoCrudRepository.Doc))
    (wl : World (option (list (string * Entity)))) :
  conjunctive o ->
  (exists res,
     MongoCrudRepository.findAll (Some deletedOnes) o wm = (Ok res, wm)
     /\ Permutation res
          (List.filter
             (fun d => bool_decide
                         (deleted (MongoCrudRepository.body d) = Some true))
             (store wm)))
  /\ LocalStorageCrudRepository.findAll (Some deletedOnes) o wl = (Ok [], wl).
Proof.
  intros Ho. split.
  - destruct (mongo_findAll_and wm deletedOnes o Ho (NoDup_singleton _))
      as (res & Hres & Hp & _).
    exists res. split; [exact Hres|].
    assert (Hext : forall d,
              (bool_decide ("deleted" ∈ fst <$> deletedOnes)
               || live (MongoCrudRepository.body d))
              && and_match MongoCrudRepository.docField deletedOnes d
              = bool_decide
                  (deleted (MongoCrudRepository.body d) = Some true)).
    { intros d. destruct (deleted (MongoCrudRepository.body d)) as [[|]|] eqn:E;
        unfold and_match, deletedOnes, MongoCrudRepository.docField, getField;
        cbn; rewrite E; reflexivity. }
    rewrite <- (List.filter_ext _ _ Hext). exact Hp.
  - unfold LocalStorageCrudRepository.findAll, bind, getStore, ret.
    destruct (store wl) as [object|]; [|reflexivity].
    f_equal. f_equal. cbn [from_option Datatypes.id flat_map deletedOnes].
    rewrite app_nil_r. clear.
    induction object as [|[key item] object IH]; [reflexivity|].
    cbn [flat_map]. rewrite IH.
    unfold LocalStorageCrudRepository.truthy, getField. cbn.
    destruct (deleted item) as [[|]|]; reflexivity.
Qed.

Lemma X20_findAll_for_deleted_records_witness :
  (exists res,
     MongoCrudRepository.findAll (Some deletedOnes) None
       (after (MongoCrudRepository.remove "k1" None) mongoDemo)
     = (Ok res, after (MongoCrudRepository.remove "k1" None) mongoDemo)
     /\ Permutation res
          (List.filter
             (fun d => bool_decide
                         (deleted (MongoCrudRepository.body d) = Some true))
             (store (after (MongoCrudRepository.remove "k1" None)
                           mongoDemo))))
  /\ LocalStorageCrudRepository.findAll (Some deletedOnes) None
       (after (LocalStorageCrudRepository.remove "k1" None) localDemo)
     = (Ok [], after (LocalStorageCrudRepository.remove "k1" None) localDemo).
Proof.
  apply (X20_findAll_for_deleted_records None
           (after (MongoCrudRepository.remove "k1" None) mongoDemo)
           (after (LocalStorageCrudRepository.remove "k1" None) localDemo)).
  split; left; reflexivity.
Defined.

(** ** What [update] and [remove] leave alone, and what [update] stores *)

Section KeyFacts.

Lemma chars_app (a b : string) :
  list_ascii_of_string (a ++ b)
  = (list_ascii_of_string a ++ list_ascii_of_string b)%list.
Proof.
  induction a as [|c a IH]; [reflexivity|].
  simpl. f_equal. exact IH.
Qed.



Lemma active_never_inactive (j k : string) :
  LocalStorageCrudRepository.getActiveKey j
  <> LocalStorageCrudRepository.getInactiveKey k.
Proof.
  unfold LocalStorageCrudRepository.getActiveKey,
    LocalStorageCrudRepository.getInactiveKey. intros H.
  apply (f_equal list_ascii_of_string) in H. rewrite !chars_app in H.
  apply (f_equal (@List.rev ascii)) in H. rewrite !rev_app_distr in H.
  cbn in H. discriminate.
Qed.

End KeyFacts.

Section LocalFrame.
Import LocalStorageCrudRepository.




End LocalFrame.

Section MongoFrame.
Import MongoCrudRepository.

Lemma filter_skip {A} (f : A -> bool) l1 x l2 :
  f x = false -> List.filter f (l1 ++ x :: l2) = List.filter f (l1 ++ l2).
Proof.
  intros H. rewrite !List.filter_app. cbn [List.filter]. rewrite H.
  reflexivity.
Qed.



Lemma mongo_found_split (w : World Collection) k r :
  keyed_mongo (store w) -> findById k w = (Ok (Some r), w) ->
  exists l1 l2,
    store w = (l1 ++ r :: l2)%list
    /\ (forall y, In y l1 -> _id y <> _id r)
    /\ Forall (fun y => matches (byId k) y = false) l1
    /\ id (body r) = Some k /\ deleted (body r) <> Some true.
Proof.
  intros Hk Hf.
  pose proof (mongo_findById_Some _ _ _ Hf) as (Hin & Hdel & Hid).
  destruct (NoDup_fmap_split _id _ r (proj1 Hk) Hin) as (l1 & l2 & Hs & Hne).
  exists l1, l2. split; [exact Hs|]. split.
  - intros y Hy. apply Hne. apply in_or_app. left. exact Hy.
  - split; [|split; assumption]. apply Forall_forall. intros y Hy.
    apply not_true_is_false. intros Hm. apply matches_byId in Hm as [_ Hm].
    refine (proj1 (keyed_mongo_other _ _ _ _ _ Hk Hs Hid y _) Hm).
    apply in_or_app. left. apply list_elem_of_In. exact Hy.
Qed.





End MongoFrame.

Section FirestoreFrame.
Import FirestoreCrudRepository.

Lemma fs_findById_keyed (w : World Collection) j :
  keyed_fs (store w) ->
  findById j w
  = (Ok (match map_get j (store w) with
         | Some e => if bool_decide (deleted e = Some false) then Some e
                     else None
         | None => None
         end), w).
Proof.
  intros Hk.
  destruct (findById j w) as [[[r|]|err] w1] eqn:Hf.
  - pose proof Hf as Hf'. rewrite fs_findById_spec in Hf'.
    injection Hf' as _ <-.
    destruct (fs_found_keyed _ _ _ Hk Hf) as (Hg & _ & Hd).
    rewrite Hg, bool_decide_eq_true_2 by exact Hd. reflexivity.
  - pose proof Hf as Hf'. rewrite fs_findById_spec in Hf'.
    injection Hf' as _ <-. f_equal. f_equal.
    destruct (map_get j (store w)) as [e|] eqn:Hg; [|reflexivity].
    destruct (bool_decide (deleted e = Some false)) eqn:Hd; [|reflexivity].
    exfalso. apply bool_decide_eq_true in Hd.
    apply map_get_Some_In in Hg.
    apply (proj1 (fs_findById_None w j) Hf j e Hg). split; [|exact Hd].
    exact (proj2 (keyed_fs_spec _ Hk) j e Hg).
  - rewrite fs_findById_spec in Hf. discriminate.
Qed.

Lemma NoDup_map_delete {A} k (m : list (string * A)) :
  NoDup (fst <$> m) -> NoDup (fst <$> map_delete k m).
Proof.
  induction m as [|[k' y] m IH]; [intros H; exact H|].
  cbn [map_delete fmap list_fmap fst]. intros H.
  apply NoDup_cons in H as [Hn Hd].
  destruct (decide (k' = k)); [apply IH; exact Hd|].
  cbn [fmap list_fmap fst]. apply NoDup_cons. split; [|apply IH; exact Hd].
  intros Hin. apply Hn. apply list_elem_of_fmap in Hin as ([i e] & -> & Hin).
  apply list_elem_of_In, In_map_delete in Hin as [Hin _].
  apply list_elem_of_fmap. exists (i, e).
  split; [reflexivity|apply list_elem_of_In; exact Hin].
Qed.

Lemma keyed_fs_map_delete coll k :
  keyed_fs coll -> keyed_fs (map_delete k coll).
Proof.
  intros [Hn Hf]. split; [apply NoDup_map_delete; exact Hn|].
  apply Forall_forall. intros [i e] Hin.
  apply list_elem_of_In, In_map_delete in Hin as [Hin _].
  rewrite Forall_forall in Hf.
  apply (Hf (i, e)), list_elem_of_In. exact Hin.
Qed.


Lemma fs_soft_world (w : World Collection) k r :
  keyed_fs (store w) -> findById k w = (Ok (Some r), w) ->
  exists w' r',
    remove k None w = (Ok true, w')
    /\ store w' = map_set k r' (store w)
    /\ id r' = Some k.
Proof.
  intros Hk Hf. destruct (fs_found_keyed _ _ _ Hk Hf) as (Hg & Hi & Hd).
  unfold remove, findExpectedRecord, bind. rewrite Hf.
  cbn [ret from_option Datatypes.id].
  change (wantsSoftDelete defaultRemoval) with true. cbv iota.
  unfold softDelete, bind. rewrite markAsDeleted_spec.
  erewrite fs_performUpdate_spec
    by (cbn [mark id advance store]; rewrite Hi; exact Hg).
  cbn [mark id advance store heap tick nid env from_option Datatypes.id].
  rewrite Hi. cbn [str]. eexists. eexists.
  split; [reflexivity|]. split; [reflexivity|].
  unfold spread, stamp, mark. cbn [id]. rewrite Hi. reflexivity.
Qed.



End FirestoreFrame.







(** ** An id whose record was soft-deleted *)

Section Recreate.

Lemma local_recreate (w : World (option (list (string * Entity)))) k r ref p :
  LocalStorageCrudRepository.findById k w = (Ok (Some r), w) ->
  id r = Some k -> heap w !! ref = Some p -> id p = Some k ->
  usable_id (env w) k = true ->
  exists w1 w2 item object2 old,
    LocalStorageCrudRepository.remove k None w = (Ok true, w1)
    /\ LocalStorageCrudRepository.create ref w1 = (Ok item, w2)
    /\ LocalStorageCrudRepository.findById k w2 = (Ok (Some item), w2)
    /\ store w2 = Some object2
    /\ map_get (LocalStorageCrudRepository.getInactiveKey k) object2
       = Some old
    /\ deleted old = Some true /\ fields old = fields r.
Proof.
  intros Hf Hi Hh Hp Hu.
  destruct (local_remove_soft_spec w k r None Hf Hi eq_refl)
    as (object & Hs & Hrm).
  cbv zeta in Hrm. rewrite Hi in Hrm. cbn [str] in Hrm.
  set (old := stamp _ _ (mark _ _ r)) in Hrm.
  set (w1 := mkWorld _ _ _ _ _) in Hrm.
  assert (Hnone : LocalStorageCrudRepository.findById k w1 = (Ok None, w1)).
  { rewrite local_findById_spec. cbn [store w1 mbind option_bind].
    rewrite map_get_set_ne by apply active_never_inactive.
    rewrite map_get_delete_eq. reflexivity. }
  assert (Hg : LocalStorageCrudRepository.getId p w1 = (Ok k, w1))
    by (apply local_getId_given; assumption).
  exists w1. eexists. eexists. eexists. exists old.
  split; [exact Hrm|]. split.
  - unfold LocalStorageCrudRepository.create, bind, deref at 1.
    cbn [heap w1]. rewrite Hh. cbn [from_option Datatypes.id].
    rewrite Hg. apply (local_create_resume_spec w1 ref p k). exact Hh.
  - split; [|split; [reflexivity|split; [|split; reflexivity]]].
    + rewrite local_findById_spec. cbn [store w1 mbind option_bind].
      rewrite map_get_set_eq. reflexivity.
    + cbn [store w1 from_option Datatypes.id].
      rewrite map_get_set_ne
        by (intros H; symmetry in H; revert H; apply active_never_inactive).
      apply map_get_set_eq.
Qed.

Lemma mongo_recreate (w : World (list MongoCrudRepository.Doc)) k r ref p :
  keyed_mongo (store w) ->
  MongoCrudRepository.findById k w = (Ok (Some r), w) ->
  heap w !! ref = Some p -> id p = Some k ->
  usable_id (env w) k = true ->
  exists w1 w2,
    MongoCrudRepository.remove k None w = (Ok true, w1)
    /\ MongoCrudRepository.findById k w1 = (Ok None, w1)
    /\ MongoCrudRepository.create ref w1 = (Err DriverError, w2)
    /\ store w2 = store w1.
Proof.
  intros Hk Hf Hh Hp Hu.
  destruct (mongo_soft_remove w k r Hk Hf)
    as (w1 & r' & Hrm & Hnone & _ & Hin & Hid' & _).
  assert (Hframe : heap w1 = heap w /\ env w1 = env w).
  { revert Hrm. rewrite (mongo_remove_soft_eq _ _ _ None Hf eq_refl).
    rewrite mongo_performUpdate_spec by apply orElse_idemp.
    intros [= <-]. split; reflexivity. }
  destruct Hframe as [Hh1 He1].
  assert (Hh' : heap w1 !! ref = Some p) by (rewrite Hh1; exact Hh).
  exists w1. eexists. split; [exact Hrm|]. split; [exact Hnone|].
  unfold MongoCrudRepository.create.
  destruct (updatePayload_at_spec w1 ref p Hh') as [H1 H2].
  unfold bind at 1. rewrite H1. unfold bind at 1. rewrite H2.
  unfold bind at 1.
  rewrite (mongo_getId_given _ (stamp (clock (env w1)) (tick w1) p) k).
  - unfold MongoCrudRepository.save, bind, getStore. cbn [store].
    replace (existsb _ (store w1)) with true; [split; reflexivity|].
    symmetry. apply existsb_exists. exists r'. split; [exact Hin|].
    apply bool_decide_eq_true. cbn [MongoCrudRepository._id]. rewrite Hid'.
    pose proof (mongo_findById_Some _ _ _ Hf) as (Hinr & _ & Hidr).
    rewrite (proj2 (keyed_mongo_spec _ Hk) r Hinr). exact Hidr.
  - exact Hp.
  - cbn [env]. rewrite He1. exact Hu.
  - eapply mongo_findById_frame; [|exact Hnone]. reflexivity.
Qed.

Lemma fs_recreate (w : World (list (string * Entity))) k r ref p :
  keyed_fs (store w) ->
  FirestoreCrudRepository.findById k w = (Ok (Some r), w) ->
  heap w !! ref = Some p -> id p = Some k ->
  usable_id (env w) k = true ->
  exists w1 w2 item,
    FirestoreCrudRepository.remove k None w = (Ok true, w1)
    /\ FirestoreCrudRepository.findById k w1 = (Ok None, w1)
    /\ FirestoreCrudRepository.create ref w1 = (Ok item, w2)
    /\ forall x, In (k, x) (store w2) <-> x = item.
Proof.
  intros Hk Hf Hh Hp Hu.
  destruct (fs_soft_remove w k r Hk Hf)
    as (w1 & r' & Hrm & Hnone & _ & Hg' & _).
  destruct (fs_found_keyed _ _ _ Hk Hf) as (Hg & Hi & Hd).
  assert (Hframe : heap w1 = heap w /\ env w1 = env w
                   /\ NoDup (fst <$> store w1)).
  { destruct (fs_soft_world w k r Hk Hf) as (w1' & r'' & Hrm' & Hs' & _).
    rewrite Hrm in Hrm'. injection Hrm' as <-.
    split; [|split].
    - revert Hrm. unfold FirestoreCrudRepository.remove,
        FirestoreCrudRepository.findExpectedRecord, bind. rewrite Hf.
      cbn [ret from_option Datatypes.id].
      change (wantsSoftDelete defaultRemoval) with true. cbv iota.
      unfold FirestoreCrudRepository.softDelete, bind.
      rewrite markAsDeleted_spec.
      erewrite fs_performUpdate_spec
        by (cbn [mark id advance store]; rewrite Hi; exact Hg).
      intros [= <-]. reflexivity.
    - revert Hrm. unfold FirestoreCrudRepository.remove,
        FirestoreCrudRepository.findExpectedRecord, bind. rewrite Hf.
      cbn [ret from_option Datatypes.id].
      change (wantsSoftDelete defaultRemoval) with true. cbv iota.
      unfold FirestoreCrudRepository.softDelete, bind.
      rewrite markAsDeleted_spec.
      erewrite fs_performUpdate_spec
        by (cbn [mark id advance store]; rewrite Hi; exact Hg).
      intros [= <-]. reflexivity.
    - rewrite Hs'. apply NoDup_map_set. exact (proj1 Hk). }
  destruct Hframe as (Hh1 & He1 & Hn1).
  assert (Hh' : heap w1 !! ref = Some p) by (rewrite Hh1; exact Hh).
  set (wa := mkWorld (store w1)
               (<[ref := stamp (clock (env w1)) (tick w1) p]> (heap w1))
               (stamp_ticks p + tick w1) (nid w1) (env w1)).
  assert (Hgid : FirestoreCrudRepository.getId
                   (stamp (clock (env w1)) (tick w1) p) wa = (Ok k, wa)).
  { apply fs_getId_given; [exact Hp| |].
    - cbn [env wa]. rewrite He1. exact Hu.
    - eapply fs_findById_frame; [|exact Hnone]. reflexivity. }
  exists w1. eexists. eexists. split; [exact Hrm|]. split; [exact Hnone|].
  split; [apply (fs_create_with w1 ref p k wa Hh' Hgid); reflexivity|].
  cbn [store wa]. intros x. split.
  - intros Hin.
    destruct (In_map_set _ _ _ _ _ Hn1 Hin) as [[_ ->]|[_ Hne]];
      [reflexivity|contradiction].
  - intros ->. apply map_get_Some_In, map_get_set_eq.
Qed.

End Recreate.

(** X23.  A record is found under the id [k], in a collection that files
    each record under its own id: on the document database every [_id] is
    held once and is the [id] of its document, on the cloud store every
    document id is held once and is the [id] of its data, and on the local
    adapter the record found carries the id [k].  The record is removed
    with the default options, and then a payload with the id [k], an id
    that [isEmpty] reads as filled (not blank and, if it holds a brace, a
    JSON text), is handed to [create].  The three adapters part ways.  The
    local adapter creates the record and keeps the deleted one beside it
    under [k ++ ":true"].  The document database passes the duplicate
    check, because [findById] no longer finds the id, and then fails in the
    driver, because the deleted document still holds the [_id]: the
    collection stays as it was.  The cloud store creates the record in
    place of the deleted one, which is gone. *)
Theorem X23_create_after_a_soft_remove
    (h : list Entity) (e : Env) (t n : nat)
    (object : list (string * Entity))
    (sm : list MongoCrudRepository.Doc) (sf : list (string * Entity))
    (k : string) (rl rf : Entity) (rm : MongoCrudRepository.Doc)
    (ref : ref) (p : Entity) :
  let wl := mkWorld (Some object) h t n e in
  let wm := mkWorld sm h t n e in
  let wf := mkWorld sf h t n e in
  h !! ref = Some p -> id p = Some k -> usable_id e k = true ->
  LocalStorageCrudRepository.findById k wl = (Ok (Some rl), wl) ->
  id rl = Some k ->
  keyed_mongo sm ->
  MongoCrudRepository.findById k wm = (Ok (Some rm), wm) ->
  keyed_fs sf ->
  FirestoreCrudRepository.findById k wf = (Ok (Some rf), wf) ->
  (exists w1 w2 item object2 old,
     LocalStorageCrudRepository.remove k None wl = (Ok true, w1)
     /\ LocalStorageCrudRepository.create ref w1 = (Ok item, w2)
     /\ LocalStorageCrudRepository.findById k w2 = (Ok (Some item), w2)
     /\ store w2 = Some object2
     /\ map_get (k ++ ":true") object2 = Some old
     /\ deleted old = Some true /\ fields old = fields rl)
  /\ (exists w1 w2,
        MongoCrudRepository.remove k None wm = (Ok true, w1)
        /\ MongoCrudRepository.findById k w1 = (Ok None, w1)
        /\ MongoCrudRepository.create ref w1 = (Err DriverError, w2)
        /\ store w2 = store w1)
  /\ (exists w1 w2 item,
        FirestoreCrudRepository.remove k None wf = (Ok true, w1)
        /\ FirestoreCrudRepository.findById k w1 = (Ok None, w1)
        /\ FirestoreCrudRepository.create ref w1 = (Ok item, w2)
        /\ forall x, In (k, x) (store w2) <-> x = item).
Proof.
  intros wl wm wf Hh Hp Hu Hl Hil Hkm Hm Hkf Hf. split; [|split].
  - apply (local_recreate wl k rl ref p); assumption.
  - apply mongo_recreate with (r := rm) (p := p); assumption.
  - apply fs_recreate with (r := rf) (p := p); assumption.
Qed.

Lemma X23_create_after_a_soft_remove_witness :
  (exists w1 w2 item,
     LocalStorageCrudRepository.remove "k1" None localDemo = (Ok true, w1)
     /\ LocalStorageCrudRepository.create 1 w1 = (Ok item, w2)
     /\ LocalStorageCrudRepository.findById "k1" w2 = (Ok (Some item), w2))
  /\ (exists w1 w2,
        MongoCrudRepository.remove "k1" None mongoDemo = (Ok true, w1)
        /\ MongoCrudRepository.create 1 w1 = (Err DriverError, w2))
  /\ (exists w1 w2 item,
        FirestoreCrudRepository.remove "k1" None firestoreDemo = (Ok true, w1)
        /\ FirestoreCrudRepository.create 1 w1 = (Ok item, w2)).
Proof.
  destruct (X23_create_after_a_soft_remove demoHeap demoEnv 0 0
              [("k1:false", alice); ("k2:false", bob)]
              (store mongoDemo) (store firestoreDemo) "k1" alice alice
              (MongoCrudRepository.mkDoc (Some "k1") alice) 1 again)
    as ((a1 & a2 & a3 & _ & _ & A1 & A2 & A3 & _)
        & (b1 & b2 & B1 & _ & B2 & _) & (c1 & c2 & c3 & C1 & _ & C2 & _)).
  - reflexivity.
  - reflexivity.
  - reflexivity.
  - reflexivity.
  - reflexivity.
  - split; [|repeat constructor].
    apply (bool_decide_unpack _). vm_compute. exact I.
  - reflexivity.
  - split; [|repeat constructor].
    apply (bool_decide_unpack _). vm_compute. exact I.
  - reflexivity.
  - split; [exists a1, a2, a3; auto|]. split; [exists b1, b2; auto|].
    exists c1, c2, c3. auto.
Defined.

(** ** The options of [remove] *)

Section RemoveOptions.

Lemma delete_first_ext q q' (l : list MongoCrudRepository.Doc) :
  (forall d, MongoCrudRepository.matches q d
             = MongoCrudRepository.matches q' d) ->
  MongoCrudRepository.delete_first q l = MongoCrudRepository.delete_first q' l.
Proof.
  intros H. induction l as [|d l IH]; [reflexivity|].
  cbn [MongoCrudRepository.delete_first]. rewrite H, IH. reflexivity.
Qed.

Lemma mongo_hardDelete_filter k o d :
  logicalOperator o <> Some NOR ->
  MongoCrudRepository.well_formed
    (MongoCrudRepository.createFilter [("id", VStr k)] (Some o)) = true
  /\ MongoCrudRepository.matches
       (MongoCrudRepository.createFilter [("id", VStr k)] (Some o)) d
     = MongoCrudRepository.matches (byId k) d.
Proof.
  intros Hn. unfold MongoCrudRepository.createFilter. cbn [mbind option_bind].
  destruct (logicalOperator o) as [[| |]|]; try contradiction.
  - split; reflexivity.
  - split; [reflexivity|].
    cbn [MongoCrudRepository.matches List.map existsb forallb
         MongoCrudRepository.all_hold byId fst snd].
    unfold MongoCrudRepository.all_hold. cbn [forallb].
    rewrite !andb_true_r, orb_false_r. reflexivity.
  - split; reflexivity.
Qed.

Lemma mongo_remove_any_hard (w : World (list MongoCrudRepository.Doc)) k r o :
  keyed_mongo (store w) ->
  MongoCrudRepository.findById k w = (Ok (Some r), w) ->
  wantsSoftDelete o = false -> logicalOperator o <> Some NOR ->
  exists l1 l2,
    store w = (l1 ++ r :: l2)%list
    /\ MongoCrudRepository.remove k (Some o) w
       = (Ok true, set_store (l1 ++ l2)%list w).
Proof.
  intros Hk Hf Hs Hn.
  destruct (mongo_found_split w k r Hk Hf)
    as (l1 & l2 & Hst & _ & Hl1 & Hid & Hdel).
  exists l1, l2. split; [exact Hst|].
  pose proof Hf as Hf'. rewrite mongo_findById_spec in Hf'.
  injection Hf' as Hf'.
  unfold MongoCrudRepository.remove, MongoCrudRepository.findExpectedRecord,
    bind.
  rewrite mongo_findById_spec, Hf'. cbn [ret from_option Datatypes.id].
  rewrite Hs. unfold MongoCrudRepository.hardDelete, bind,
    MongoCrudRepository.deleteOne.
  rewrite (proj1 (mongo_hardDelete_filter k o r Hn)).
  unfold bind, getStore. cbv beta.
  rewrite (delete_first_ext _ (byId k))
    by (intros d; apply mongo_hardDelete_filter; exact Hn).
  assert (Hdf : MongoCrudRepository.delete_first (byId k) (store w)
                = ((l1 ++ l2)%list, 1)).
  { rewrite Hst. apply delete_first_split; [|exact Hl1].
    apply matches_byId. split; assumption. }
  rewrite Hdf. reflexivity.
Qed.

Lemma fs_remove_any_hard (w : World (list (string * Entity))) k r o :
  keyed_fs (store w) ->
  FirestoreCrudRepository.findById k w = (Ok (Some r), w) ->
  wantsSoftDelete o = false ->
  FirestoreCrudRepository.remove k (Some o) w
  = (Ok true, set_store (map_delete k (store w)) w).
Proof.
  intros Hk Hf Hs. destruct (fs_found_keyed _ _ _ Hk Hf) as (Hg & Hi & Hd).
  unfold FirestoreCrudRepository.remove,
    FirestoreCrudRepository.findExpectedRecord, bind. rewrite Hf.
  cbn [ret from_option Datatypes.id]. rewrite Hs.
  unfold FirestoreCrudRepository.hardDelete,
    FirestoreCrudRepository.deleteDoc, bind, getStore, putStore, ret.
  rewrite Hi. reflexivity.
Qed.

Lemma matches_notId k d :
  MongoCrudRepository.matches (notId k) d
  = live (MongoCrudRepository.body d)
    && negb (bool_decide (id (MongoCrudRepository.body d) = Some k)).
Proof.
  unfold notId. cbn [MongoCrudRepository.matches existsb].
  unfold MongoCrudRepository.all_hold. cbn [forallb].
  rewrite !andb_true_r, orb_false_r. rewrite cond_NeTrue_live. f_equal.
  f_equal. unfold MongoCrudRepository.cond_holds,
    MongoCrudRepository.docField, getField. simpl.
  destruct (id (MongoCrudRepository.body d)) as [s|]; simpl;
    [|reflexivity].
  destruct (decide (s = k)) as [->|Hne].
  - rewrite !bool_decide_eq_true_2; reflexivity.
  - rewrite !bool_decide_eq_false_2; [reflexivity|congruence|congruence].
Qed.

End RemoveOptions.

(** X24.  A record is found under the id [k], in a collection that files
    each record under its own id (on the document database every [_id] is
    held once and is the [id] of its document, on the cloud store every
    document id is held once and is the [id] of its data), and the options
    of [remove] are ones whose [deletionOptions.softDelete] is not true,
    the empty options [{}] among them.  On each adapter [remove k] with
    these options returns true and erases the record as [softDelete: false]
    does: [findById k] is empty afterwards and the store holds nothing for
    the record (on the document database for options that do not ask for
    [NOR]). *)
Theorem X24_remove_erases_unless_softDelete_is_true
    (k : string) (o : QueryOptions)
    (wl : World (option (list (string * Entity)))) (rl : Entity)
    (wm : World (list MongoCrudRepository.Doc)) (rm : MongoCrudRepository.Doc)
    (wf : World (list (string * Entity))) (rf : Entity) :
  wantsSoftDelete o = false -> logicalOperator o <> Some NOR ->
  LocalStorageCrudRepository.findById k wl = (Ok (Some rl), wl) ->
  keyed_mongo (store wm) ->
  MongoCrudRepository.findById k wm = (Ok (Some rm), wm) ->
  keyed_fs (store wf) ->
  FirestoreCrudRepository.findById k wf = (Ok (Some rf), wf) ->
  (exists w' object',
     LocalStorageCrudRepository.remove k (Some o) wl = (Ok true, w')
     /\ LocalStorageCrudRepository.findById k w' = (Ok None, w')
     /\ store w' = Some object'
     /\ forall x, ~ In (LocalStorageCrudRepository.getActiveKey k, x) object')
  /\ (exists w',
        MongoCrudRepository.remove k (Some o) wm = (Ok true, w')
        /\ MongoCrudRepository.findById k w' = (Ok None, w')
        /\ ~ In rm (store w'))
  /\ (exists w',
        FirestoreCrudRepository.remove k (Some o) wf = (Ok true, w')
        /\ FirestoreCrudRepository.findById k w' = (Ok None, w')
        /\ forall x, ~ In (k, x) (store w')).
Proof.
  intros Hs Hn Hl Hkm Hm Hkf Hf. split; [|split].
  - destruct (local_remove_hard_spec wl k rl (Some o) Hl Hs)
      as (object & Hst & Hu).
    eexists. eexists. split; [exact Hu|].
    split; [|split; [reflexivity|]].
    + rewrite local_findById_spec. simpl. do 2 f_equal.
      apply map_get_delete_eq.
    + intros x. apply map_delete_not_in.
  - destruct (mongo_remove_any_hard wm k rm o Hkm Hm Hs Hn)
      as (l1 & l2 & Hst & Hu).
    pose proof (mongo_findById_Some _ _ _ Hm) as (_ & _ & Hid).
    eexists. split; [exact Hu|]. cbn [store set_store]. split.
    + apply mongo_findById_None. cbn [store]. intros d Hd [_ Hi].
      exact (proj1 (keyed_mongo_other _ _ _ _ _ Hkm Hst Hid d Hd) Hi).
    + intros Hd.
      exact (proj2 (keyed_mongo_other _ _ _ _ _ Hkm Hst Hid rm Hd) eq_refl).
  - eexists. split; [apply (fs_remove_any_hard wf k rf o); assumption|].
    cbn [store set_store]. split.
    + rewrite fs_findById_keyed
        by (cbn [store]; apply keyed_fs_map_delete; exact Hkf).
      simpl. rewrite map_get_delete_eq. reflexivity.
    + intros x. apply map_delete_not_in.
Qed.

Lemma X24_remove_erases_unless_softDelete_is_true_witness :
  (exists w',
     LocalStorageCrudRepository.remove "k1" (Some noOptions) localDemo
     = (Ok true, w')
     /\ LocalStorageCrudRepository.findById "k1" w' = (Ok None, w'))
  /\ (exists w',
        MongoCrudRepository.remove "k1" (Some noOptions) mongoDemo
        = (Ok true, w')
        /\ MongoCrudRepository.findById "k1" w' = (Ok None, w'))
  /\ (exists w',
        FirestoreCrudRepository.remove "k1" (Some noOptions) firestoreDemo
        = (Ok true, w')
        /\ FirestoreCrudRepository.findById "k1" w' = (Ok None, w')).
Proof.
  destruct (X24_remove_erases_unless_softDelete_is_true "k1" noOptions
              localDemo alice mongoDemo
              (MongoCrudRepository.mkDoc (Some "k1") alice)
              firestoreDemo alice)
    as ((a & _ & A1 & A2 & _) & (b & B1 & B2 & _) & (c & C1 & C2 & _)).
  - reflexivity.
  - discriminate.
  - reflexivity.
  - split; [|repeat constructor].
    apply (bool_decide_unpack _). vm_compute. exact I.
  - reflexivity.
  - split; [|repeat constructor].
    apply (bool_decide_unpack _). vm_compute. exact I.
  - reflexivity.
  - split; [exists a; auto|]. split; [exists b; auto|exists c; auto].
Defined.

(** X25.  On the document database [remove k] with [softDelete: false]
    passes its options on to the query that picks the document to delete.
    With the operator [NOR] that query asks for a document that is not
    deleted and whose id is not [k]: [remove k] then erases the first such
    document of the collection and returns true, or erases nothing and
    returns false when there is none; the record with the id [k] is found
    as before. *)
Theorem X25_mongo_remove_under_NOR_erases_another_record
    (k : string) (o : QueryOptions)
    (wm : World (list MongoCrudRepository.Doc)) (rm : MongoCrudRepository.Doc) :
  wantsSoftDelete o = false -> logicalOperator o = Some NOR ->
  MongoCrudRepository.findById k wm = (Ok (Some rm), wm) ->
  (forall l1 d l2,
     store wm = (l1 ++ d :: l2)%list ->
     MongoCrudRepository.matches (notId k) d = true ->
     Forall (fun y => MongoCrudRepository.matches (notId k) y = false) l1 ->
     MongoCrudRepository.remove k (Some o) wm
     = (Ok true, set_store (l1 ++ l2)%list wm)
     /\ MongoCrudRepository.findById k (set_store (l1 ++ l2)%list wm)
        = (Ok (Some rm), set_store (l1 ++ l2)%list wm))
  /\ (Forall (fun y => MongoCrudRepository.matches (notId k) y = false)
             (store wm) ->
      MongoCrudRepository.remove k (Some o) wm = (Ok false, wm)).
Proof.
  intros Hs Hn Hf.
  pose proof Hf as Hf'. rewrite mongo_findById_spec in Hf'.
  injection Hf' as Hf'.
  assert (Hrun : MongoCrudRepository.remove k (Some o) wm
                 = (let '(coll', n) :=
                      MongoCrudRepository.delete_first (notId k) (store wm) in
                    (Ok (Nat.eqb n 1), set_store coll' wm))).
  { unfold MongoCrudRepository.remove,
      MongoCrudRepository.findExpectedRecord, bind.
    rewrite mongo_findById_spec, Hf'. cbn [ret from_option Datatypes.id].
    rewrite Hs. unfold MongoCrudRepository.hardDelete, bind,
      MongoCrudRepository.deleteOne, MongoCrudRepository.createFilter.
    cbn [mbind option_bind]. rewrite Hn.
    change (MongoCrudRepository.AndOf _ NOR _) with (notId k).
    change (MongoCrudRepository.well_formed (notId k)) with true. cbv iota.
    unfold bind, getStore. cbv beta.
    destruct (MongoCrudRepository.delete_first (notId k) (store wm));
      reflexivity. }
  split.
  - intros l1 d l2 Hst Hd Hl1. split.
    + rewrite Hrun, Hst, (delete_first_split _ _ _ _ Hd Hl1). reflexivity.
    + rewrite mongo_findById_spec. cbn [store set_store].
      rewrite <- (filter_skip _ l1 d l2).
      * rewrite <- Hst, Hf'. reflexivity.
      * apply not_true_is_false. intros Hm.
        apply matches_byId in Hm as [_ Hm].
        rewrite matches_notId in Hd. apply andb_true_iff in Hd as [_ Hd].
        apply negb_true_iff, bool_decide_eq_false in Hd. contradiction.
  - intros Hall. rewrite Hrun.
    assert (Hdf : forall l,
              Forall (fun y => MongoCrudRepository.matches (notId k) y = false)
                     l ->
              MongoCrudRepository.delete_first (notId k) l = (l, 0)).
    { induction 1 as [|y l Hy _ IH]; [reflexivity|].
      cbn [MongoCrudRepository.delete_first]. rewrite Hy, IH. reflexivity. }
    rewrite (Hdf _ Hall). destruct wm; reflexivity.
Qed.

Lemma X25_mongo_remove_under_NOR_witness :
  MongoCrudRepository.remove "k1" (Some norRemoval) mongoDemo
  = (Ok true,
     set_store [MongoCrudRepository.mkDoc (Some "k1") alice] mongoDemo)
  /\ MongoCrudRepository.findById "k1"
       (set_store [MongoCrudRepository.mkDoc (Some "k1") alice] mongoDemo)
     = (Ok (Some (MongoCrudRepository.mkDoc (Some "k1") alice)),
        set_store [MongoCrudRepository.mkDoc (Some "k1") alice] mongoDemo).
Proof.
  apply (proj1 (X25_mongo_remove_under_NOR_erases_another_record "k1"
                  norRemoval mongoDemo
                  (MongoCrudRepository.mkDoc (Some "k1") alice)
                  eq_refl eq_refl eq_refl)
           [MongoCrudRepository.mkDoc (Some "k1") alice]
           (MongoCrudRepository.mkDoc (Some "k2") bob) []).
  - reflexivity.
  - reflexivity.
  - repeat constructor.
Defined.
